(** * MENACE, Go backend: board symmetries, matchboxes, learning, sessions

    A shallow embedding of the Go packages [board], [menace], [game] and of
    the session handlers of [api], followed by the properties of the design
    specification that concern them and by further properties of the code.

    Conventions of the embedding.
    - A Go [int] is a [Z] kept in the 64-bit two's-complement range; every
      addition and subtraction of the source goes through [goint.wrap].
    - A Go [string] is a [string] of bytes; [s[i]] is [byteAt s i], which is
      [None] where Go panics with an index out of range.
    - A run-time panic is [None] in the [option] monad; an [error] result is
      the right summand of a sum.
    - A Go [map] is a [gmap]. The order in which [range] visits a map is not
      fixed by the language: a function that ranges over a map takes the
      visiting order as an argument.
    - [rand.Intn] takes its outcome from an argument as well. *)

From stdpp Require Import gmap strings list fin_maps.
From Stdlib Require Import ZArith Ascii.

Local Open Scope Z_scope.

(** ** Go integers *)

Module goint.

Definition MinInt : Z := -9223372036854775808.
Definition MaxInt : Z := 9223372036854775807.

(** Reduction of a mathematical integer to the value a 64-bit [int] holds. *)
Definition wrap (z : Z) : Z :=
  (z + 9223372036854775808) `mod` 18446744073709551616 - 9223372036854775808.

Definition add (a b : Z) : Z := wrap (a + b).
Definition sub (a b : Z) : Z := wrap (a - b).

(** [a % b]: the remainder of the truncated division. *)
Definition rem (a b : Z) : Z := Z.rem a b.

Definition in_range (z : Z) : Prop := MinInt ≤ z ≤ MaxInt.

End goint.

(** ** Panics

    A computation that may panic is an [option]; [let? x := e in k] runs [e]
    and, unless it panics, goes on with [k]. *)

Definition bind {A B : Type} (e : option A) (k : A → option B) : option B :=
  match e with
  | Some a => k a
  | None => None
  end.

Notation "'let?' x ':=' e 'in' k" := (bind e (λ x, k))
  (at level 10, x pattern, e at level 100, k at level 200,
   format "'[v' 'let?'  x  ':='  e  'in' '/' k ']'").

(** ** Slices and strings *)

(** [l[i]] on a slice. *)
Definition index {A} (l : list A) (i : Z) : option A :=
  if decide (0 ≤ i) then l !! Z.to_nat i else None.

(** [s[i]] on a string. *)
Definition byteAt (s : string) (i : Z) : option ascii :=
  if decide (0 ≤ i) then String.get (Z.to_nat i) s else None.

(** [len(l)] *)
Definition len {A} (l : list A) : Z := Z.of_nat (length l).

(** ** Package sort

    [sort.Slice] on a slice of at most twelve elements is the insertion sort
    of the Go library (Go 1.21, [insertionSortLessFunc]):
<<
    for i := a + 1; i < b; i++ {
        for j := i; j > a && less(j, j-1); j-- { swap(j, j-1) }
    }
>>
    [sink less x before] is the inner loop: [before] holds [data[a..i-1]] from
    right to left and [x] is [data[i]], which moves left while it is less
    than its left neighbour. *)

Module sort.

Section Insertion.
Context {A : Type} (less : A → A → bool).

Fixpoint sink (x : A) (before : list A) : list A :=
  match before with
  | [] => [x]
  | y :: rest => if less x y then y :: sink x rest else x :: y :: rest
  end.

Definition insertionSort (data : list A) : list A :=
  reverse (fold_left (λ before x, sink x before) data []).
End Insertion.

(** [sort.Slice(data, less)] for [len(data) <= 12]. *)
Definition Slice {A} (data : list A) (less : A → A → bool) : list A :=
  insertionSort less data.

End sort.

(** ** Package board *)

Module board.

(** [type Player string] *)
Definition Player : Type := string.
Definition PlayerX : Player := "X".
Definition PlayerO : Player := "O".
Definition PlayerNone : Player := "_".

Definition Other (p : Player) : Player :=
  if decide (p = PlayerX) then PlayerO else PlayerX.

(** [type GameResult string] *)
Definition GameResult : Type := string.
Definition ResultWin : GameResult := "win".
Definition ResultLoss : GameResult := "loss".
Definition ResultDraw : GameResult := "draw".
Definition ResultInProgress : GameResult := "in_progress".

Definition WinningLines : list (list Z) :=
  [ [0; 1; 2]; [3; 4; 5]; [6; 7; 8];
    [0; 3; 6]; [1; 4; 7]; [2; 5; 8];
    [0; 4; 8]; [2; 4; 6] ].

Definition Transformations : list (list Z) :=
  [ [0; 1; 2; 3; 4; 5; 6; 7; 8];   (* Identity *)
    [6; 3; 0; 7; 4; 1; 8; 5; 2];   (* Rotate 90 *)
    [8; 7; 6; 5; 4; 3; 2; 1; 0];   (* Rotate 180 *)
    [2; 5; 8; 1; 4; 7; 0; 3; 6];   (* Rotate 270 *)
    [2; 1; 0; 5; 4; 3; 8; 7; 6];   (* Flip horizontal *)
    [6; 7; 8; 3; 4; 5; 0; 1; 2];   (* Flip vertical *)
    [0; 3; 6; 1; 4; 7; 2; 5; 8];   (* Flip diagonal *)
    [8; 5; 2; 7; 4; 1; 6; 3; 0] ]. (* Flip anti-diagonal *)

Definition EmptyBoard : string := "_________".

Record Board : Type := mkBoard { state : string }.

Definition isMark (c : ascii) : bool :=
  bool_decide (c = "X"%char) || bool_decide (c = "O"%char)
  || bool_decide (c = "_"%char).

(** [New]: the board, or the error of a malformed state. *)
Definition New (st : string) : Board + string :=
  if decide (String.length st ≠ 9%nat) then
    inr "board state must be 9 characters"
  else if forallb isMark (String.list_ascii_of_string st) then inl (mkBoard st)
  else inr "board state can only contain 'X', 'O', or '_'".

Definition NewEmpty : Board := mkBoard EmptyBoard.

Definition State (b : Board) : string := state b.

Definition GetSquare (b : Board) (position : Z) : option Player :=
  let? char := byteAt (state b) position in
  Some (if decide (char = "X"%char) then PlayerX
        else if decide (char = "O"%char) then PlayerO
        else PlayerNone).

(** The loop of [GetEmptyPositions]; [i] is the offset of the first byte of
    [s] in the board state. *)
Fixpoint emptyFrom (i : Z) (s : string) : list Z :=
  match s with
  | EmptyString => []
  | String c rest =>
      if decide (c = "_"%char) then i :: emptyFrom (i + 1) rest
      else emptyFrom (i + 1) rest
  end.

Definition GetEmptyPositions (b : Board) : list Z := emptyFrom 0 (state b).

(** [newState[position] = c] on the byte slice of a string. *)
Definition setByte (s : string) (position : Z) (c : ascii) : option string :=
  let bytes := String.list_ascii_of_string s in
  if decide (0 ≤ position < len bytes) then
    Some (String.string_of_list_ascii (<[Z.to_nat position := c]> bytes))
  else None.

Definition MakeMove (b : Board) (position : Z) (player : Player)
  : option (Board + string) :=
  if decide (position < 0 ∨ position > 8) then
    Some (inr "position must be 0-8")
  else
    let? cur := byteAt (state b) position in
    if decide (cur ≠ "_"%char) then Some (inr "position is already occupied")
    else
      let? mark := byteAt player 0 in
      let? newState := setByte (state b) position mark in
      Some (inl (mkBoard newState)).

(** The loop of [CheckWinner]. [Player(string(a))] is the string of the one
    byte [a]; the bytes of a board are below 128. *)
Fixpoint CheckWinner_lines (st : string) (lines : list (list Z))
  : option Player :=
  match lines with
  | [] => Some PlayerNone
  | line :: rest =>
      let? i0 := index line 0 in
      let? i1 := index line 1 in
      let? i2 := index line 2 in
      let? a := byteAt st i0 in
      let? c := byteAt st i1 in
      let? d := byteAt st i2 in
      if decide (a ≠ "_"%char ∧ a = c ∧ c = d) then
        Some (String a EmptyString)
      else CheckWinner_lines st rest
  end.

Definition CheckWinner (b : Board) : option Player :=
  CheckWinner_lines (state b) WinningLines.

(** [!strings.Contains(b.state, "_")] *)
Definition IsFull (b : Board) : bool :=
  negb (existsb (λ c, bool_decide (c = "_"%char))
          (String.list_ascii_of_string (state b))).

Definition IsGameOver (b : Board) : option bool :=
  let? w := CheckWinner b in
  Some (bool_decide (w ≠ PlayerNone) || IsFull b).

Definition GetResult (b : Board) (player : Player) : option GameResult :=
  let? winner := CheckWinner b in
  Some (if decide (winner = PlayerNone) then
          if IsFull b then ResultDraw else ResultInProgress
        else if decide (winner = player) then ResultWin
        else ResultLoss).

(** The loop of [applyTransform]: [result[newPos] = state[oldPos]] for the
    entries of [transform] from index [newPos] on. *)
Fixpoint applyTransform_loop (st : string) (transform : list Z)
    (newPos : nat) (result : list ascii) : option (list ascii) :=
  match transform with
  | [] => Some result
  | oldPos :: rest =>
      let? c := byteAt st oldPos in
      if decide (newPos < length result)%nat then
        applyTransform_loop st rest (S newPos) (<[newPos := c]> result)
      else None
  end.

Definition applyTransform (st : string) (transform : list Z)
  : option string :=
  String.string_of_list_ascii
    <$> applyTransform_loop st transform 0 (replicate 9 zero).

(** The search loop of [inverseTransform], from index [origPos] on. *)
Fixpoint inverseTransform_loop (position : Z) (origPos : Z)
    (transform : list Z) : Z :=
  match transform with
  | [] => position
  | normPos :: rest =>
      if decide (normPos = position) then origPos
      else inverseTransform_loop position (origPos + 1) rest
  end.

Definition inverseTransform (position transformIdx : Z) : option Z :=
  let? transform := index Transformations transformIdx in
  Some (inverseTransform_loop position 0 transform).

(** The first loop of [Normalize]: the variants of the transformations [ts],
    the first of which has index [i]. *)
Fixpoint Normalize_variants (st : string) (i : Z) (ts : list (list Z))
  : option (list (string * Z)) :=
  match ts with
  | [] => Some []
  | transform :: rest =>
      let? s := applyTransform st transform in
      let? vs := Normalize_variants st (i + 1) rest in
      Some ((s, i) :: vs)
  end.

(** The comparison handed to [sort.Slice]: [variants[i].state <
    variants[j].state], the bytewise order of Go strings. *)
Definition variantLess (x y : string * Z) : bool := String.ltb x.1 y.1.

Definition Normalize (b : Board) : option (string * Z) :=
  let? variants := Normalize_variants (state b) 0 Transformations in
  head (sort.Slice variants variantLess).

Definition NormalizeState (st : string) : option ((string * Z) + string) :=
  match New st with
  | inr err => Some (inr err)
  | inl b => let? r := Normalize b in Some (inl r)
  end.

Definition TransformPosition (position transformIdx : Z) : option Z :=
  let? transform := index Transformations transformIdx in
  index transform position.

Definition InverseTransformPosition (position transformIdx : Z) : option Z :=
  inverseTransform position transformIdx.

End board.

(** ** Package menace *)

Module menace.

Module Matchbox.
Record t : Type := mk {
  BoardState : string;
  Beads : gmap Z Z;
  TimesUsed : Z
}.
End Matchbox.

Definition NewMatchbox (boardState : string) (validMoves : list Z)
    (initialBeads : Z) : Matchbox.t :=
  Matchbox.mk boardState
    (fold_left (λ beads pos, <[pos := initialBeads]> beads) validMoves ∅)
    0.

(** [order] is a visiting order of [range beads]: every key once. *)
Definition rangeOrder (beads : gmap Z Z) (order : list Z) : Prop :=
  NoDup order ∧ list_to_set order = dom beads.

(** [rand.Intn(n)]: a panic for [n <= 0], otherwise a number of [[0, n)];
    [draw] is the number the generator yields, reduced into the interval. *)
Definition Intn (n draw : Z) : option Z :=
  if decide (n ≤ 0) then None else Some (draw `mod` n).

(** The weighted list of [DrawBead]: [count] copies of each position, in
    the order in which the map is visited. *)
Definition weightedPositions (beads : gmap Z Z) (order : list Z) : list Z :=
  flat_map (λ pos, replicate (Z.to_nat (default 0 (beads !! pos))) pos) order.

Definition DrawBead (m : Matchbox.t) (order : list Z) (draw : Z) : option Z :=
  if decide (size (Matchbox.Beads m) = 0%nat) then Some (-1)
  else
    let weighted := weightedPositions (Matchbox.Beads m) order in
    if decide (len weighted = 0) then Some (-1)
    else let? i := Intn (len weighted) draw in index weighted i.

Definition AddBeads (m : Matchbox.t) (position count : Z) : Matchbox.t :=
  match Matchbox.Beads m !! position with
  | Some current =>
      Matchbox.mk (Matchbox.BoardState m)
        (<[position := goint.add current count]> (Matchbox.Beads m))
        (Matchbox.TimesUsed m)
  | None => m
  end.

Definition RemoveBeads (m : Matchbox.t) (position count minBeads : Z)
  : Matchbox.t :=
  match Matchbox.Beads m !! position with
  | Some current =>
      let newCount := goint.sub current count in
      let newCount := if decide (newCount < minBeads) then minBeads
                      else newCount in
      Matchbox.mk (Matchbox.BoardState m)
        (<[position := newCount]> (Matchbox.Beads m))
        (Matchbox.TimesUsed m)
  | None => m
  end.

Definition GetTotalBeads (m : Matchbox.t) : Z :=
  map_fold (λ _ count total, goint.add total count) 0 (Matchbox.Beads m).

Module MoveRecord.
Record t : Type := mk {
  BoardState : string;
  Position : Z;
  TransformIdx : Z
}.
End MoveRecord.

(** [WinRate] is a [float64] quotient in the source; it is kept here as the
    pair of its numerator and denominator. *)
Module HistorySnapshot.
Record t : Type := mk {
  Games : Z;
  TotalBeads : Z;
  MatchboxCount : Z;
  Wins : Z;
  Losses : Z;
  Draws : Z;
  WinRate : Z * Z
}.
End HistorySnapshot.

(** [Matchboxes] maps a state to a pointer in the source. Each matchbox is
    reachable through its own entry only, so the map holds the matchboxes
    themselves and a write through the pointer is a write to the entry. *)
Module Menace.
Record t : Type := mk {
  Matchboxes : gmap string Matchbox.t;
  Player : board.Player;
  MoveHistory : list MoveRecord.t;
  History : list HistorySnapshot.t;
  InitialBeads : Z;
  WinReward : Z;
  DrawReward : Z;
  LossPenalty : Z;
  MinBeads : Z;
  GamesPlayed : Z;
  Wins : Z;
  Losses : Z;
  Draws : Z
}.

Definition setMatchboxes (v : gmap string Matchbox.t) (m : t) : t :=
  mk v (Player m) (MoveHistory m) (History m) (InitialBeads m)
    (WinReward m) (DrawReward m) (LossPenalty m) (MinBeads m)
    (GamesPlayed m) (Wins m) (Losses m) (Draws m).
Definition setMoveHistory (v : list MoveRecord.t) (m : t) : t :=
  mk (Matchboxes m) (Player m) v (History m) (InitialBeads m)
    (WinReward m) (DrawReward m) (LossPenalty m) (MinBeads m)
    (GamesPlayed m) (Wins m) (Losses m) (Draws m).
Definition setHistory (v : list HistorySnapshot.t) (m : t) : t :=
  mk (Matchboxes m) (Player m) (MoveHistory m) v (InitialBeads m)
    (WinReward m) (DrawReward m) (LossPenalty m) (MinBeads m)
    (GamesPlayed m) (Wins m) (Losses m) (Draws m).
Definition setGamesPlayed (v : Z) (m : t) : t :=
  mk (Matchboxes m) (Player m) (MoveHistory m) (History m) (InitialBeads m)
    (WinReward m) (DrawReward m) (LossPenalty m) (MinBeads m)
    v (Wins m) (Losses m) (Draws m).
Definition setWins (v : Z) (m : t) : t :=
  mk (Matchboxes m) (Player m) (MoveHistory m) (History m) (InitialBeads m)
    (WinReward m) (DrawReward m) (LossPenalty m) (MinBeads m)
    (GamesPlayed m) v (Losses m) (Draws m).
Definition setLosses (v : Z) (m : t) : t :=
  mk (Matchboxes m) (Player m) (MoveHistory m) (History m) (InitialBeads m)
    (WinReward m) (DrawReward m) (LossPenalty m) (MinBeads m)
    (GamesPlayed m) (Wins m) v (Draws m).
Definition setDraws (v : Z) (m : t) : t :=
  mk (Matchboxes m) (Player m) (MoveHistory m) (History m) (InitialBeads m)
    (WinReward m) (DrawReward m) (LossPenalty m) (MinBeads m)
    (GamesPlayed m) (Wins m) (Losses m) v.
End Menace.

Definition NewMenace (player : board.Player) : Menace.t :=
  Menace.mk ∅ player [] [] 3 3 1 1 1 0 0 0 0.

(** The matchbox of a normalized state, created if absent; the second
    component is the matchbox the returned pointer refers to. *)
Definition GetOrCreateMatchbox (m : Menace.t) (normalizedState : string)
    (validMoves : list Z) : Menace.t * Matchbox.t :=
  match Menace.Matchboxes m !! normalizedState with
  | Some mb => (m, mb)
  | None =>
      let mb := NewMatchbox normalizedState validMoves (Menace.InitialBeads m) in
      (Menace.setMatchboxes (<[normalizedState := mb]> (Menace.Matchboxes m)) m,
       mb)
  end.

(** [GetMove]: the agent after the call and the move on the original board.
    [order] is the order in which [DrawBead] visits the bead map and [draw]
    the outcome of the generator. *)
Definition GetMove (m : Menace.t) (b : board.Board) (order : list Z)
    (draw : Z) : option (Menace.t * Z) :=
  let? (normalizedState, transformIdx) := board.Normalize b in
  let originalMoves := board.GetEmptyPositions b in
  let? normalizedMoves :=
    mapM (λ pos, board.TransformPosition pos transformIdx) originalMoves in
  let '(m1, matchbox) :=
    GetOrCreateMatchbox m normalizedState normalizedMoves in
  let matchbox :=
    Matchbox.mk (Matchbox.BoardState matchbox) (Matchbox.Beads matchbox)
      (goint.add (Matchbox.TimesUsed matchbox) 1) in
  let m2 :=
    Menace.setMatchboxes
      (<[normalizedState := matchbox]> (Menace.Matchboxes m1)) m1 in
  let? normalizedPos := DrawBead matchbox order draw in
  let? originalPos :=
    board.InverseTransformPosition normalizedPos transformIdx in
  let m3 :=
    Menace.setMoveHistory
      (Menace.MoveHistory m2
         ++ [MoveRecord.mk normalizedState normalizedPos transformIdx]) m2 in
  Some (m3, originalPos).

Definition getTotalBeadsUnsafe (m : Menace.t) : Z :=
  map_fold (λ _ mb total, goint.add total (GetTotalBeads mb)) 0
    (Menace.Matchboxes m).

Definition recordHistorySnapshot (m : Menace.t) : Menace.t :=
  if decide (goint.rem (Menace.GamesPlayed m) 10 ≠ 0) then m
  else
    let winRate :=
      if decide (Menace.GamesPlayed m > 0)
      then (Menace.Wins m, Menace.GamesPlayed m) else (0, 1) in
    Menace.setHistory
      (Menace.History m
         ++ [HistorySnapshot.mk (Menace.GamesPlayed m) (getTotalBeadsUnsafe m)
               (Z.of_nat (size (Menace.Matchboxes m)))
               (Menace.Wins m) (Menace.Losses m) (Menace.Draws m) winRate]) m.

(** One iteration of the loop of [Learn] over the move history. *)
Definition learnMove (m : Menace.t) (result : board.GameResult)
    (boxes : gmap string Matchbox.t) (move : MoveRecord.t)
  : gmap string Matchbox.t :=
  match boxes !! MoveRecord.BoardState move with
  | None => boxes
  | Some mb =>
      if decide (result = board.ResultWin) then
        <[MoveRecord.BoardState move :=
            AddBeads mb (MoveRecord.Position move) (Menace.WinReward m)]> boxes
      else if decide (result = board.ResultDraw) then
        <[MoveRecord.BoardState move :=
            AddBeads mb (MoveRecord.Position move) (Menace.DrawReward m)]> boxes
      else if decide (result = board.ResultLoss) then
        <[MoveRecord.BoardState move :=
            RemoveBeads mb (MoveRecord.Position move) (Menace.LossPenalty m)
              (Menace.MinBeads m)]> boxes
      else boxes
  end.

Definition Learn (m : Menace.t) (result : board.GameResult) : Menace.t :=
  let m := Menace.setGamesPlayed (goint.add (Menace.GamesPlayed m) 1) m in
  let m :=
    if decide (result = board.ResultWin) then
      Menace.setWins (goint.add (Menace.Wins m) 1) m
    else if decide (result = board.ResultLoss) then
      Menace.setLosses (goint.add (Menace.Losses m) 1) m
    else if decide (result = board.ResultDraw) then
      Menace.setDraws (goint.add (Menace.Draws m) 1) m
    else m in
  let m :=
    Menace.setMatchboxes
      (fold_left (learnMove m result) (Menace.MoveHistory m)
         (Menace.Matchboxes m)) m in
  let m := Menace.setMoveHistory [] m in
  recordHistorySnapshot m.

Definition StartNewGame (m : Menace.t) : Menace.t :=
  Menace.setMoveHistory [] m.

Definition GetMatchboxCount (m : Menace.t) : Z :=
  Z.of_nat (size (Menace.Matchboxes m)).

(** The map that [GetMatchboxData] returns, with its three entries. *)
Module MatchboxData.
Record t : Type := mk {
  board_state : string;
  beads : gmap Z Z;
  times_used : Z
}.
End MatchboxData.

(** [GetMatchboxData]: [Some None] is the [nil] of the source. *)
Definition GetMatchboxData (m : Menace.t) (boardState : string)
  : option (option MatchboxData.t) :=
  let? r := board.NormalizeState boardState in
  match r with
  | inr _ => Some None
  | inl (normalized, _) =>
      match Menace.Matchboxes m !! normalized with
      | None => Some None
      | Some mb =>
          Some (Some (MatchboxData.mk (Matchbox.BoardState mb)
                        (Matchbox.Beads mb) (Matchbox.TimesUsed mb)))
      end
  end.

Definition Reset (m : Menace.t) : Menace.t :=
  Menace.mk ∅ (Menace.Player m) [] [] (Menace.InitialBeads m)
    (Menace.WinReward m) (Menace.DrawReward m) (Menace.LossPenalty m)
    (Menace.MinBeads m) 0 0 0 0.

End menace.

(** ** Package game *)

Module game.

(** [type GameState string] *)
Definition GameState : Type := string.
Definition StateWaitingForOpponent : GameState := "waiting_for_opponent".
Definition StateWaitingForMenace : GameState := "waiting_for_menace".
Definition StateFinished : GameState := "finished".

(** [Timestamp] is the reading of the clock, an integer here. *)
Module Move.
Record t : Type := mk {
  Player : board.Player;
  Position : Z;
  BoardAfter : string;
  Timestamp : Z
}.
End Move.

(** The field [Menace] of the source points to the one agent all games
    share; the operations that use it take the agent and return it. *)
Module Game.
Record t : Type := mk {
  ID : string;
  Board : board.Board;
  MenacePlayer : board.Player;
  CurrentTurn : board.Player;
  Moves : list Move.t;
  Result : board.GameResult;
  CreatedAt : Z
}.
End Game.

(** [id] is the fresh identifier and [now] the reading of the clock. *)
Definition NewGame (m : menace.Menace.t) (menacePlaysFirst : bool)
    (id : string) (now : Z) : menace.Menace.t * Game.t :=
  let menacePlayer :=
    if negb menacePlaysFirst then board.PlayerO else board.PlayerX in
  let game :=
    Game.mk id board.NewEmpty menacePlayer board.PlayerX []
      board.ResultInProgress now in
  (menace.StartNewGame m, game).

Definition IsOver (g : Game.t) : option bool :=
  board.IsGameOver (Game.Board g).

Definition State (g : Game.t) : option GameState :=
  let? over := IsOver g in
  Some (if (over : bool) then StateFinished
        else if decide (Game.CurrentTurn g = Game.MenacePlayer g)
             then StateWaitingForMenace
             else StateWaitingForOpponent).

Definition IsMenaceTurn (g : Game.t) : option bool :=
  if decide (Game.CurrentTurn g = Game.MenacePlayer g) then
    let? over := IsOver g in Some (negb over)
  else Some false.

Definition IsOpponentTurn (g : Game.t) : option bool :=
  if decide (Game.CurrentTurn g ≠ Game.MenacePlayer g) then
    let? over := IsOver g in Some (negb over)
  else Some false.

Definition GetResult (g : Game.t) : option board.GameResult :=
  board.GetResult (Game.Board g) (Game.MenacePlayer g).

Definition GetValidMoves (g : Game.t) : option (list Z) :=
  let? over := IsOver g in
  Some (if (over : bool) then [] else board.GetEmptyPositions (Game.Board g)).

(** The part [MenaceMove] and [OpponentMove] share: the board replaced, the
    move logged, the turn passed on, the result stored if the game is over. *)
Definition recordMove (g : Game.t) (newBoard : board.Board)
    (player : board.Player) (position now : Z) : option Game.t :=
  let g :=
    Game.mk (Game.ID g) newBoard (Game.MenacePlayer g)
      (board.Other (Game.CurrentTurn g))
      (Game.Moves g ++ [Move.mk player position (board.State newBoard) now])
      (Game.Result g) (Game.CreatedAt g) in
  let? over := IsOver g in
  if (over : bool) then
    let? result := GetResult g in
    Some (Game.mk (Game.ID g) (Game.Board g) (Game.MenacePlayer g)
            (Game.CurrentTurn g) (Game.Moves g) result (Game.CreatedAt g))
  else Some g.

(** [MenaceMove]: the agent and the game after the call, and the pair
    [(int, error)] it returns; an absent error is [None]. *)
Definition MenaceMove (m : menace.Menace.t) (g : Game.t) (order : list Z)
    (draw now : Z)
  : option (menace.Menace.t * Game.t * (Z * option string)) :=
  let? over := IsOver g in
  if (over : bool) then Some (m, g, (-1, None))
  else
    let? turn := IsMenaceTurn g in
    if negb turn then Some (m, g, (-1, None))
    else
      let? (m, position) := menace.GetMove m (Game.Board g) order draw in
      let? made :=
        board.MakeMove (Game.Board g) position (Game.MenacePlayer g) in
      match made with
      | inr err => Some (m, g, (-1, Some err))
      | inl newBoard =>
          let? g :=
            recordMove g newBoard (Game.MenacePlayer g) position now in
          Some (m, g, (position, None))
      end.

(** [OpponentMove]: the game after the call and the error it returns. *)
Definition OpponentMove (g : Game.t) (position now : Z)
  : option (Game.t * option string) :=
  let? over := IsOver g in
  if (over : bool) then Some (g, None)
  else
    let? turn := IsOpponentTurn g in
    if negb turn then Some (g, None)
    else
      let opponentPlayer := board.Other (Game.MenacePlayer g) in
      let? made := board.MakeMove (Game.Board g) position opponentPlayer in
      match made with
      | inr err => Some (g, Some err)
      | inl newBoard =>
          let? g := recordMove g newBoard opponentPlayer position now in
          Some (g, None)
      end.

(** [games] maps an identifier to a pointer to its game, held here as the
    game itself; [menace] is the agent the manager points to. *)
Module GameManager.
Record t : Type := mk {
  games : gmap string Game.t;
  menace : menace.Menace.t
}.
End GameManager.

Definition NewGameManager (m : menace.Menace.t) : GameManager.t :=
  GameManager.mk ∅ m.

Definition CreateGame (gm : GameManager.t) (menacePlaysFirst : bool)
    (id : string) (now : Z) : GameManager.t * Game.t :=
  let '(m, game) := NewGame (GameManager.menace gm) menacePlaysFirst id now in
  (GameManager.mk (<[Game.ID game := game]> (GameManager.games gm)) m, game).

Definition GetGame (gm : GameManager.t) (id : string) : option Game.t :=
  GameManager.games gm !! id.

Definition FinishGame (gm : GameManager.t) (id : string)
  : option GameManager.t :=
  match GameManager.games gm !! id with
  | None => Some gm
  | Some game =>
      let? over := IsOver game in
      if negb over then Some gm
      else
        let? result := GetResult game in
        Some (GameManager.mk (GameManager.games gm)
                (menace.Learn (GameManager.menace gm) result))
  end.

Definition SetMenace (gm : GameManager.t) (m : menace.Menace.t)
  : GameManager.t :=
  GameManager.mk ∅ m.

End game.

(** ** Package api: the handlers of the sessions and of the reset *)

Module api.

(** The handler holds the agent and the game manager, which points to the
    same agent: the state of the handler is the state of the manager. *)
Module Handler.
Record t : Type := mk { gameManager : game.GameManager.t }.
End Handler.

Definition NewHandler : Handler.t :=
  Handler.mk (game.NewGameManager (menace.NewMenace board.PlayerX)).

Module MoveResponse.
Record t : Type := mk {
  Board : string;
  CurrentTurn : option string;
  Status : string;
  ValidMoves : list Z;
  OpponentMove : Z;
  MenaceMove : option Z;
  IsGameOver : bool;
  Result : option string;
  Winner : option string
}.
End MoveResponse.

(** What the handler writes: the status code and the body. The text of a
    binding error comes from the JSON binder and is not kept. *)
Inductive Response : Type :=
  | StatusNotFound (error : string)
  | StatusBadRequest (error : string)
  | StatusBadRequestInvalidMove (error : string) (valid_moves : list Z)
  | StatusBadRequestBinding
  | StatusOK (body : MoveResponse.t).

Definition getPlayerSymbol (p : board.Player) : string :=
  if decide (p = board.PlayerX) then "X" else "O".

Definition getGameStatus (g : game.Game.t) : option string :=
  let? over := game.IsOver g in
  if (over : bool) then Some "finished"
  else
    let? turn := game.IsMenaceTurn g in
    Some (if (turn : bool) then "waiting_for_menace"
          else "waiting_for_opponent").

Definition getResultType (g : game.Game.t) : option (option string) :=
  let? over := game.IsOver g in
  if negb over then Some None
  else let? result := game.GetResult g in Some (Some result).

Definition getWinner (g : game.Game.t) : option (option string) :=
  let? winner := board.CheckWinner (game.Game.Board g) in
  Some (if decide (winner = board.PlayerNone) then None
        else Some (getPlayerSymbol winner)).

(** The pointer [g] of the handler is the entry [gameID] of the manager. *)
Definition storeGame (h : Handler.t) (gameID : string) (g : game.Game.t)
    (m : menace.Menace.t) : Handler.t :=
  Handler.mk
    (game.GameManager.mk
       (<[gameID := g]> (game.GameManager.games (Handler.gameManager h))) m).

(** The reply of the agent inside [MakeMove]: if the game goes on and it is
    the turn of the agent, [MenaceMove]; the position is reported if there
    is no error and it is not negative. *)
Definition menaceReply (m : menace.Menace.t) (g : game.Game.t)
    (order : list Z) (draw now : Z)
  : option (menace.Menace.t * game.Game.t * option Z) :=
  let? over := game.IsOver g in
  let? turn := (if negb over then game.IsMenaceTurn g else Some false) in
  if negb turn then Some (m, g, None)
  else
    let? (m, g, (pos, err)) := game.MenaceMove m g order draw now in
    Some (m, g,
          if bool_decide (err = (None : option string))
             && bool_decide (0 ≤ pos)
          then Some pos else None).

(** The body of the answer to an accepted move. *)
Definition moveResponse (g : game.Game.t) (position : Z)
    (menaceMove : option Z) : option MoveResponse.t :=
  let? over := game.IsOver g in
  let currentTurn :=
    if negb over then Some (getPlayerSymbol (game.Game.CurrentTurn g))
    else None in
  let? status := getGameStatus g in
  let? validMoves := game.GetValidMoves g in
  let? isGameOver := game.IsOver g in
  let? result := getResultType g in
  let? winner := getWinner g in
  Some (MoveResponse.mk (board.State (game.Game.Board g)) currentTurn status
          validMoves position menaceMove isGameOver result winner).

(** [MakeMove] from the call of [OpponentMove] on. *)
Definition playMove (h : Handler.t) (gameID : string) (g : game.Game.t)
    (position : Z) (order : list Z) (draw now1 now2 : Z)
  : option (Handler.t * Response) :=
  let? (g, err) := game.OpponentMove g position now1 in
  let m := game.GameManager.menace (Handler.gameManager h) in
  match err with
  | Some e => Some (storeGame h gameID g m, StatusBadRequest e)
  | None =>
      let? (m, g, menaceMove) := menaceReply m g order draw now2 in
      let h := storeGame h gameID g m in
      let? over := game.IsOver g in
      let? h :=
        if (over : bool) then
          Handler.mk <$> game.FinishGame (Handler.gameManager h) gameID
        else Some h in
      let? body := moveResponse g position menaceMove in
      Some (h, StatusOK body)
  end.

(** [MakeMove]: [body] is the position decoded from the request ([None] if
    the body is not the JSON of a move request); [order] and [draw] serve
    the reply of the agent, [now1] and [now2] are the readings of the clock
    for the two moves. *)
Definition MakeMove (h : Handler.t) (gameID : string) (body : option Z)
    (order : list Z) (draw now1 now2 : Z) : option (Handler.t * Response) :=
  match game.GetGame (Handler.gameManager h) gameID with
  | None => Some (h, StatusNotFound ("Game not found: " +:+ gameID))
  | Some g =>
      let? over := game.IsOver g in
      if (over : bool) then Some (h, StatusBadRequest "Game is already over")
      else
        let? turn := game.IsOpponentTurn g in
        if negb turn then
          Some (h, StatusBadRequest "It's not your turn - waiting for MENACE")
        else
          match body with
          | None => Some (h, StatusBadRequestBinding)
          | Some position =>
              if decide (position < 0 ∨ position > 8) then
                Some (h, StatusBadRequestBinding)
              else
                let? validMoves := game.GetValidMoves g in
                if negb (bool_decide (position ∈ validMoves)) then
                  Some (h, StatusBadRequestInvalidMove
                             "Invalid move: position is not available"
                             validMoves)
                else playMove h gameID g position order draw now1 now2
          end
  end.

Module NewGameResponse.
Record t : Type := mk {
  GameID : string;
  Board : string;
  CurrentTurn : string;
  MenacePlayer : string;
  Status : string;
  ValidMoves : list Z;
  MenaceMove : option Z
}.
End NewGameResponse.

(** What [NewGame] writes: the status 400 of a binding error, or the status
    200 and the body. *)
Inductive NewGameAnswer : Type :=
  | NewGameBadRequest
  | NewGameOK (body : NewGameResponse.t).

(** The opening move inside [NewGame]: [MenaceMove] if the agent plays
    first; the position is reported if there is no error and it is not
    negative. *)
Definition openingMove (menacePlaysFirst : bool) (m : menace.Menace.t)
    (g : game.Game.t) (order : list Z) (draw now : Z)
  : option (menace.Menace.t * game.Game.t * option Z) :=
  if negb menacePlaysFirst then Some (m, g, None)
  else
    let? (m, g, (pos, err)) := game.MenaceMove m g order draw now in
    Some (m, g,
          if bool_decide (err = (None : option string))
             && bool_decide (0 ≤ pos)
          then Some pos else None).

(** [NewGame], the handler of [POST /api/game/new]. [req] is the request
    after binding: [None] for a body that is not the JSON of a request,
    otherwise the value of [menace_plays_first], which is [true] where the
    body is empty or leaves it out. [id] and [now1] are the identifier and
    the reading of the clock of [CreateGame]; [order], [draw] and [now2]
    serve the opening move of the agent. The pointer [g] of the handler is
    the entry [id] of the manager. *)
Definition NewGame (h : Handler.t) (req : option bool) (id : string)
    (now1 : Z) (order : list Z) (draw now2 : Z)
  : option (Handler.t * NewGameAnswer) :=
  match req with
  | None => Some (h, NewGameBadRequest)
  | Some menacePlaysFirst =>
      let '(gm, g) :=
        game.CreateGame (Handler.gameManager h) menacePlaysFirst id now1 in
      let? (m, g, menaceMove) :=
        openingMove menacePlaysFirst (game.GameManager.menace gm) g
          order draw now2 in
      let h := storeGame (Handler.mk gm) (game.Game.ID g) g m in
      let currentTurn := getPlayerSymbol (game.Game.CurrentTurn g) in
      let? status := getGameStatus g in
      let? validMoves := game.GetValidMoves g in
      Some (h, NewGameOK
                 (NewGameResponse.mk (game.Game.ID g)
                    (board.State (game.Game.Board g)) currentTurn
                    (getPlayerSymbol (game.Game.MenacePlayer g)) status
                    validMoves menaceMove))
  end.

(** [ResetMenace], the handler of [POST /api/menace/reset]: the agent of the
    handler is the agent of the manager, so that [Reset] acts on both; the
    answer is a constant. *)
Definition ResetMenace (h : Handler.t) : Handler.t :=
  let m := menace.Reset (game.GameManager.menace (Handler.gameManager h)) in
  let gm :=
    game.GameManager.mk (game.GameManager.games (Handler.gameManager h)) m in
  Handler.mk (game.SetMenace gm m).

End api.

(** ** Vocabulary of the specification *)

(** A valid board is one that [New] accepts. *)
Definition validBoard (b : board.Board) : Prop :=
  board.New (board.state b) = inl b.

(** The first of the least elements of [x :: l] for a comparison [less]. *)
Definition firstMin {A} (less : A → A → bool) (x : A) (l : list A) : A :=
  fold_left (λ m y, if less y m then y else m) l x.

(** The rewards and penalties applied to one matchbox. *)
Inductive BeadOp : Type :=
  | OpAddBeads (position count : Z)
  | OpRemoveBeads (position count : Z).

Definition opCount (op : BeadOp) : Z :=
  match op with
  | OpAddBeads _ count | OpRemoveBeads _ count => count
  end.

Definition applyOp (minBeads : Z) (m : menace.Matchbox.t) (op : BeadOp)
  : menace.Matchbox.t :=
  match op with
  | OpAddBeads position count => menace.AddBeads m position count
  | OpRemoveBeads position count =>
      menace.RemoveBeads m position count minBeads
  end.

Definition applyOps (minBeads : Z) (m : menace.Matchbox.t)
    (ops : list BeadOp) : menace.Matchbox.t :=
  fold_left (applyOp minBeads) ops m.

(** No addition of the sequence exceeds the largest [int]. *)
Fixpoint addsFit (minBeads : Z) (m : menace.Matchbox.t) (ops : list BeadOp)
  : Prop :=
  match ops with
  | [] => True
  | op :: rest =>
      match op with
      | OpAddBeads position count =>
          ∀ current, menace.Matchbox.Beads m !! position = Some current →
                     current + count ≤ goint.MaxInt
      | OpRemoveBeads _ _ => True
      end
      ∧ addsFit minBeads (applyOp minBeads m op) rest
  end.

(** Every listed move of the matchbox has at least [floor] beads. *)
Definition aboveFloor (floor : Z) (m : menace.Matchbox.t) : Prop :=
  ∀ position count,
    menace.Matchbox.Beads m !! position = Some count → floor ≤ count.

(** The invariant of the floor: the counts are [int]s at or above it. *)
Definition floorInv (floor : Z) (m : menace.Matchbox.t) : Prop :=
  ∀ position count,
    menace.Matchbox.Beads m !! position = Some count →
    floor ≤ count ∧ goint.in_range count.

(** The bead count of a move in the matchbox of a state, if both exist. *)
Definition beadCount (m : menace.Menace.t) (st : string) (position : Z)
  : option Z :=
  let? mb := menace.Menace.Matchboxes m !! st in
  menace.Matchbox.Beads mb !! position.

(** How often a trace credits the move [position] of the state [st]. *)
Definition credits (st : string) (position : Z)
    (trace : list menace.MoveRecord.t) : nat :=
  length
    (filter (λ r, menace.MoveRecord.BoardState r = st
                  ∧ menace.MoveRecord.Position r = position) trace).

(** The update of one matchbox for a result, as the specification words
    it: a reward on a win, a smaller reward on a draw, a penalty clamped at
    the floor on a loss. *)
Definition applyResult (m : menace.Menace.t) (result : board.GameResult)
    (mb : menace.Matchbox.t) (position : Z) : menace.Matchbox.t :=
  if decide (result = board.ResultWin) then
    menace.AddBeads mb position (menace.Menace.WinReward m)
  else if decide (result = board.ResultDraw) then
    menace.AddBeads mb position (menace.Menace.DrawReward m)
  else if decide (result = board.ResultLoss) then
    menace.RemoveBeads mb position (menace.Menace.LossPenalty m)
      (menace.Menace.MinBeads m)
  else mb.

(** The update of the matchbox of a traced entry. *)
Definition creditEntry (m : menace.Menace.t) (result : board.GameResult)
    (boxes : gmap string menace.Matchbox.t) (move : menace.MoveRecord.t)
  : gmap string menace.Matchbox.t :=
  alter (λ mb, applyResult m result mb (menace.MoveRecord.Position move))
    (menace.MoveRecord.BoardState move) boxes.

(** The entries of a trace whose matchbox is in the store. *)
Definition presentEntries (boxes : gmap string menace.Matchbox.t)
    (trace : list menace.MoveRecord.t) : list menace.MoveRecord.t :=
  filter (λ r, is_Some (boxes !! menace.MoveRecord.BoardState r)) trace.

(** [wonEpisodes st position m n m']: the agent goes from [m] to [m'] by
    moves, starts of games and [n] learning updates, each of them for a win
    and with a trace that credits the move [position] of [st] once. *)
Inductive wonEpisodes (st : string) (position : Z) (m : menace.Menace.t)
  : nat → menace.Menace.t → Prop :=
  | wonEpisodes_none : wonEpisodes st position m 0 m
  | wonEpisodes_move n m1 b order draw m2 pos :
      wonEpisodes st position m n m1 →
      menace.GetMove m1 b order draw = Some (m2, pos) →
      wonEpisodes st position m n m2
  | wonEpisodes_start n m1 :
      wonEpisodes st position m n m1 →
      wonEpisodes st position m n (menace.StartNewGame m1)
  | wonEpisodes_win n m1 :
      wonEpisodes st position m n m1 →
      credits st position (menace.Menace.MoveHistory m1) = 1%nat →
      wonEpisodes st position m (S n) (menace.Learn m1 board.ResultWin).

(** The agent after a move; an agent that cannot move stays as it is. *)
Definition moved (m : menace.Menace.t) (b : board.Board) (order : list Z)
    (draw : Z) : menace.Menace.t :=
  match menace.GetMove m b order draw with
  | Some (m', _) => m'
  | None => m
  end.

(** Agents for the examples: a new agent after its opening move, and the
    same agent after a won game and a second opening move. *)
Definition openingOrder : list Z := [0; 1; 2; 3; 4; 5; 6; 7; 8].

Definition agentAfterOpening : menace.Menace.t :=
  moved (menace.NewMenace board.PlayerX) board.NewEmpty openingOrder 0.

Definition agentAfterSecondOpening : menace.Menace.t :=
  moved (menace.Learn agentAfterOpening board.ResultWin) board.NewEmpty
    openingOrder 0.

(** An agent like that of [NewMenace] whose reward for a win is the largest
    [int], after its opening move. *)
Definition lavishAgentAfterOpening : menace.Menace.t :=
  moved (menace.Menace.mk ∅ board.PlayerX [] [] 3 goint.MaxInt 1 1 1 0 0 0 0)
    board.NewEmpty openingOrder 0.

(** A game on which no operation panics: its board has nine squares and the
    agent plays X or O. A game made by [NewGame] is one, and so is every
    game that [MenaceMove] and [OpponentMove] make of one. *)
Definition wellFormed (g : game.Game.t) : Prop :=
  String.length (board.state (game.Game.Board g)) = 9%nat
  ∧ (game.Game.MenacePlayer g = board.PlayerX
     ∨ game.Game.MenacePlayer g = board.PlayerO).

(** A handler all of whose games are well-formed; [NewHandler] is one, and
    [CreateGame] and [MakeMove] keep it one. *)
Definition wellFormedHandler (h : api.Handler.t) : Prop :=
  ∀ id g,
    game.GameManager.games (api.Handler.gameManager h) !! id = Some g →
    wellFormed g.

(** The handler after a request; a panic leaves it as it was. *)
Definition afterRequest (h : api.Handler.t) (gameID : string)
    (body : option Z) (order : list Z) (draw now1 now2 : Z) : api.Handler.t :=
  match api.MakeMove h gameID body order draw now1 now2 with
  | Some (h', _) => h'
  | None => h
  end.

(** A session played to its end through the handler: the opponent has X and
    takes the squares 0, 1 and 2, the agent answers with 4 and 3. *)
Definition sessionCreated : api.Handler.t :=
  api.Handler.mk
    (game.CreateGame (api.Handler.gameManager api.NewHandler) false "g1" 100).1.

Definition sessionFinished : api.Handler.t :=
  afterRequest
    (afterRequest
       (afterRequest sessionCreated "g1" (Some 0)
          [1; 2; 3; 4; 5; 6; 7; 8] 9 101 102)
       "g1" (Some 1) [2; 3; 5; 6; 7; 8] 3 103 104)
    "g1" (Some 2) [] 0 105 106.

(** The same session before its last request. *)
Definition sessionBeforeEnd : api.Handler.t :=
  afterRequest
    (afterRequest sessionCreated "g1" (Some 0)
       [1; 2; 3; 4; 5; 6; 7; 8] 9 101 102)
    "g1" (Some 1) [2; 3; 5; 6; 7; 8] 3 103 104.

(** The request was accepted: the answer has the status 200. *)
Definition accepted (resp : api.Response) : bool :=
  match resp with
  | api.StatusOK _ => true
  | _ => false
  end.

(** The agent of the handler. *)
Definition agent (h : api.Handler.t) : menace.Menace.t :=
  game.GameManager.menace (api.Handler.gameManager h).

Definition gamesPlayed (h : api.Handler.t) : Z :=
  menace.Menace.GamesPlayed (agent h).

(** A request for square 5 that passed the checks of the handler on the
    session before its end, from its call of [OpponentMove] on, once the
    request for square 2 has been served: it runs on the handler and on the
    game that the request for square 2 has left. *)
Definition lateRequest : option (api.Handler.t * api.Response) :=
  match game.GetGame (api.Handler.gameManager sessionFinished) "g1" with
  | Some g => api.playMove sessionFinished "g1" g 5 [] 0 107 108
  | None => None
  end.




(** ** Vocabulary of the further properties *)

(** Every square of [line] holds the mark of [p]. *)
Definition ownsLine (b : board.Board) (line : list Z) (p : board.Player)
  : Prop :=
  ∀ i, i ∈ line → board.GetSquare b i = Some p.

(** The bead count of a move in a store of matchboxes. *)
Definition beadsIn (boxes : gmap string menace.Matchbox.t) (st : string)
    (position : Z) : option Z :=
  let? mb := boxes !! st in
  menace.Matchbox.Beads mb !! position.

(** Two matchboxes that differ in their bead counts at most. *)
Definition sameMoves (mb mb' : menace.Matchbox.t) : Prop :=
  dom (menace.Matchbox.Beads mb') = dom (menace.Matchbox.Beads mb)
  ∧ menace.Matchbox.BoardState mb' = menace.Matchbox.BoardState mb
  ∧ menace.Matchbox.TimesUsed mb' = menace.Matchbox.TimesUsed mb.

(** [agentRun m k m']: the agent goes from [m] to [m'] by moves, starts of
    games and [k] learning updates, each for a win, a loss or a draw. *)
Inductive agentRun (m : menace.Menace.t) : nat → menace.Menace.t → Prop :=
  | agentRun_none : agentRun m 0 m
  | agentRun_move k m1 b order draw m2 pos :
      agentRun m k m1 →
      menace.GetMove m1 b order draw = Some (m2, pos) →
      agentRun m k m2
  | agentRun_start k m1 :
      agentRun m k m1 → agentRun m k (menace.StartNewGame m1)
  | agentRun_learn k m1 result :
      agentRun m k m1 →
      result = board.ResultWin ∨ result = board.ResultLoss
      ∨ result = board.ResultDraw →
      agentRun m (S k) (menace.Learn m1 result).

(** An agent that has not played: no game counted, no snapshot. *)
Definition unplayed (m : menace.Menace.t) : Prop :=
  menace.Menace.GamesPlayed m = 0 ∧ menace.Menace.Wins m = 0
  ∧ menace.Menace.Losses m = 0 ∧ menace.Menace.Draws m = 0
  ∧ menace.Menace.History m = [].

(** The counters after [k] games, and the snapshots for them: one for every
    tenth game, with the number of that game and counters that add up. *)
Definition countsGames (k : Z) (m : menace.Menace.t) : Prop :=
  menace.Menace.GamesPlayed m = k
  ∧ 0 ≤ menace.Menace.Wins m ∧ 0 ≤ menace.Menace.Losses m
  ∧ 0 ≤ menace.Menace.Draws m
  ∧ menace.Menace.Wins m + menace.Menace.Losses m + menace.Menace.Draws m = k
  ∧ Z.of_nat (length (menace.Menace.History m)) = k `div` 10
  ∧ ∀ i s,
      menace.Menace.History m !! i = Some s →
      menace.HistorySnapshot.Games s = 10 * (Z.of_nat i + 1)
      ∧ menace.HistorySnapshot.Wins s + menace.HistorySnapshot.Losses s
        + menace.HistorySnapshot.Draws s
        = menace.HistorySnapshot.Games s.

(** No bead of the matchbox leads to an empty square of the board: every
    listed move that has a bead is, taken back through the transformation
    of index [t], no empty square of [b]. *)
Definition noLegalBead (mb : menace.Matchbox.t) (t : Z) (b : board.Board)
  : Prop :=
  ∀ k c p,
    menace.Matchbox.Beads mb !! k = Some c → 0 < c →
    board.InverseTransformPosition k t = Some p →
    p ∉ board.GetEmptyPositions b.

(** A full board but for square 0, the agent that has met it once, and a
    game that has come to the same position turned by 90 degrees, which is
    its canonical state. *)
Definition cornerBoard : board.Board := board.mkBoard "_XXOOXOXO".

Definition agentAfterCorner : menace.Menace.t :=
  moved (menace.NewMenace board.PlayerX) cornerBoard [6] 0.

Definition turnedGame : game.Game.t :=
  game.Game.mk "g2" (board.mkBoard "OO_XOXOXX") board.PlayerX board.PlayerX
    [] board.ResultInProgress 0.

(** The games that play reaches: a new game, and what [OpponentMove] and
    [MenaceMove] make of a game that play reaches. *)
Inductive played : game.Game.t → Prop :=
  | played_new m menacePlaysFirst id now :
      played (game.NewGame m menacePlaysFirst id now).2
  | played_opponent g position now g' err :
      played g →
      game.OpponentMove g position now = Some (g', err) →
      played g'
  | played_menace m g order draw now m' g' r :
      played g →
      game.MenaceMove m g order draw now = Some (m', g', r) →
      played g'.

(** What holds of the fields of a game: the board is valid, the agent plays
    X or O, X is to move after an even number of moves and O after an odd
    one, the moves logged and the empty squares are nine together, the
    stored result is the result of the board, and the last move logged
    shows the board. *)
Definition coherent (g : game.Game.t) : Prop :=
  validBoard (game.Game.Board g)
  ∧ (game.Game.MenacePlayer g = board.PlayerX
     ∨ game.Game.MenacePlayer g = board.PlayerO)
  ∧ game.Game.CurrentTurn g
    = (if Nat.even (length (game.Game.Moves g)) then board.PlayerX
       else board.PlayerO)
  ∧ (length (game.Game.Moves g)
     + length (board.GetEmptyPositions (game.Game.Board g)) = 9)%nat
  ∧ game.GetResult g = Some (game.Game.Result g)
  ∧ ∀ mv, last (game.Game.Moves g) = Some mv →
          game.Move.BoardAfter mv = board.state (game.Game.Board g).

(** The handlers that requests for new games, for moves and for a reset
    reach from [NewHandler]. *)
Inductive served : api.Handler.t → Prop :=
  | served_new : served api.NewHandler
  | served_NewGame h req id now1 order draw now2 h' answer :
      served h →
      api.NewGame h req id now1 order draw now2 = Some (h', answer) →
      served h'
  | served_MakeMove h gameID body order draw now1 now2 h' resp :
      served h →
      api.MakeMove h gameID body order draw now1 now2 = Some (h', resp) →
      served h'
  | served_ResetMenace h : served h → served (api.ResetMenace h).

(** * Properties *)

(** ** The embedding at work *)

Example Slice_keeps_ties_in_order :
  sort.Slice [("b"%string, 0); ("a"%string, 1); ("c"%string, 2);
              ("a"%string, 3)] board.variantLess
  = [("a"%string, 1); ("a"%string, 3); ("b"%string, 0); ("c"%string, 2)].
Proof. reflexivity. Qed.

Example Normalize_rotates :
  board.Normalize (board.mkBoard "___X_____") = Some ("_X_______"%string, 1).
Proof. vm_compute. reflexivity. Qed.

Example Normalize_ties_take_first :
  board.Normalize board.NewEmpty = Some ("_________"%string, 0).
Proof. vm_compute. reflexivity. Qed.

Example MakeMove_occupied :
  board.MakeMove (board.mkBoard "X________") 0 board.PlayerO
  = Some (inr "position is already occupied"%string).
Proof. reflexivity. Qed.

Example CheckWinner_row :
  board.CheckWinner (board.mkBoard "XXXOO____") = Some board.PlayerX.
Proof. reflexivity. Qed.

Example DrawBead_weighted :
  menace.DrawBead (menace.NewMatchbox "_________" [0; 4] 3) [0; 4] 3 = Some 4.
Proof. vm_compute. reflexivity. Qed.

Example wrap_past_MaxInt :
  goint.add goint.MaxInt 1 = goint.MinInt.
Proof. reflexivity. Qed.

(** ** Go integers *)

Lemma wrap_in_range z : goint.in_range z → goint.wrap z = z.
Proof.
  unfold goint.in_range, goint.MinInt, goint.MaxInt, goint.wrap. intros H.
  rewrite Z.mod_small; lia.
Qed.

Lemma wrap_range z : goint.in_range (goint.wrap z).
Proof.
  unfold goint.in_range, goint.MinInt, goint.MaxInt, goint.wrap.
  pose proof (Z.mod_pos_bound (z + 9223372036854775808) 18446744073709551616).
  lia.
Qed.

(** ** The order of Go strings *)

Lemma ascii_compare_refl a : Ascii.compare a a = Eq.
Proof. unfold Ascii.compare. apply N.compare_refl. Qed.

Lemma ascii_compare_trans a b c :
  Ascii.compare a b = Lt → Ascii.compare b c = Lt → Ascii.compare a c = Lt.
Proof. unfold Ascii.compare. rewrite !N.compare_lt_iff. lia. Qed.

Lemma string_compare_refl s : String.compare s s = Eq.
Proof. induction s as [|a s IH]; simpl; [done|]. by rewrite ascii_compare_refl. Qed.

Lemma string_compare_trans a b c :
  String.compare a b = Lt → String.compare b c = Lt → String.compare a c = Lt.
Proof.
  revert b c. induction a as [|x a IH]; intros [|y b] [|z c]; simpl; try done.
  destruct (Ascii.compare x y) eqn:E1; try done;
    destruct (Ascii.compare y z) eqn:E2; try done.
  - apply Ascii.compare_eq_iff in E1, E2. subst.
    rewrite ascii_compare_refl. apply IH.
  - apply Ascii.compare_eq_iff in E1. subst. by rewrite E2.
  - apply Ascii.compare_eq_iff in E2. subst. by rewrite E1.
  - by rewrite (ascii_compare_trans _ _ _ E1 E2).
Qed.

Lemma ltb_irrefl s : String.ltb s s = false.
Proof. unfold String.ltb. by rewrite string_compare_refl. Qed.

Lemma ltb_trans a b c :
  String.ltb a b = true → String.ltb b c = true → String.ltb a c = true.
Proof.
  unfold String.ltb.
  destruct (String.compare a b) eqn:E1; try done.
  destruct (String.compare b c) eqn:E2; try done.
  by rewrite (string_compare_trans _ _ _ E1 E2).
Qed.

Lemma ltb_antisym a b :
  String.ltb a b = false → String.ltb b a = false → a = b.
Proof.
  unfold String.ltb. rewrite (String.compare_antisym b a).
  destruct (String.compare a b) eqn:E; try done.
  intros _ _. by apply String.compare_eq_iff.
Qed.

Lemma ltb_negtrans x m y :
  String.ltb x m = true → String.ltb y m = false → String.ltb x y = true.
Proof.
  intros Hxm Hym. destruct (String.ltb m y) eqn:Hmy.
  - by apply ltb_trans with m.
  - by rewrite <- (ltb_antisym m y).
Qed.

Lemma leb_ltb a b : String.leb a b = negb (String.ltb b a).
Proof.
  unfold String.leb, String.ltb. rewrite (String.compare_antisym a b).
  by destruct (String.compare b a).
Qed.

(** ** The insertion sort of [sort.Slice] *)

Section InsertionSort.
Context {A : Type} (less : A → A → bool).
Hypothesis less_irrefl : ∀ x, less x x = false.
Hypothesis less_trans :
  ∀ x y z, less x y = true → less y z = true → less x z = true.
Hypothesis less_negtrans :
  ∀ x m y, less x m = true → less y m = false → less x y = true.

Lemma firstMin_snoc x l z :
  firstMin less x (l ++ [z])
  = if less z (firstMin less x l) then z else firstMin less x l.
Proof. unfold firstMin. by rewrite fold_left_app. Qed.

Lemma firstMin_least x l y :
  y ∈ x :: l → less y (firstMin less x l) = false.
Proof.
  induction l as [|z l IH] using rev_ind; intros Hy.
  - apply list_elem_of_singleton in Hy as ->. apply less_irrefl.
  - rewrite firstMin_snoc.
    rewrite app_comm_cons, elem_of_app, list_elem_of_singleton in Hy.
    destruct (less z (firstMin less x l)) eqn:Hz.
    + destruct Hy as [Hy| ->]; [|apply less_irrefl].
      destruct (less y z) eqn:Hyz; [|done].
      by rewrite <- (IH Hy), (less_trans y z _ Hyz Hz).
    + destruct Hy as [Hy| ->]; [by apply IH|done].
Qed.

(** The first least element sits at an index before which every element
    is greater. *)
Lemma firstMin_first x l :
  ∃ k, (x :: l) !! k = Some (firstMin less x l)
       ∧ ∀ j y, (j < k)%nat → (x :: l) !! j = Some y →
                less (firstMin less x l) y = true.
Proof.
  induction l as [|z l IH] using rev_ind.
  - exists 0%nat. split; [done|]. intros; lia.
  - destruct IH as (k & Hk & Hbefore). rewrite firstMin_snoc.
    destruct (less z (firstMin less x l)) eqn:Hz.
    + exists (length (x :: l)). split.
      * rewrite app_comm_cons, lookup_app_r by done.
        by rewrite Nat.sub_diag.
      * intros j y Hj Hy. rewrite app_comm_cons, lookup_app_l in Hy by done.
        apply less_negtrans with (firstMin less x l); [done|].
        apply firstMin_least. apply list_elem_of_lookup. eauto.
    + exists k. split.
      * rewrite app_comm_cons, lookup_app_l; [done|].
        by apply lookup_lt_Some in Hk.
      * intros j y Hj Hy. apply Hbefore with j; [done|].
        apply lookup_lt_Some in Hk.
        rewrite app_comm_cons, lookup_app_l in Hy; [done|lia].
Qed.

Lemma sink_not_nil x before : sort.sink less x before ≠ [].
Proof. destruct before as [|y rest]; simpl; [done|]. by destruct (less x y). Qed.

Lemma sink_elem_of x before y :
  y ∈ sort.sink less x before ↔ y = x ∨ y ∈ before.
Proof.
  induction before as [|z rest IH]; simpl.
  - rewrite list_elem_of_singleton, elem_of_nil. tauto.
  - destruct (less x z); rewrite !elem_of_cons; [rewrite IH|]; tauto.
Qed.

(** The inner loop leaves the least element at the left end of the sorted
    part, and puts a smaller newcomer there. *)
Lemma sink_last x before m :
  last before = Some m →
  (∀ y, y ∈ before → less y m = false) →
  last (sort.sink less x before) = Some (if less x m then x else m).
Proof.
  induction before as [|y rest IH]; [done|]. intros Hlast Hleast. simpl.
  destruct rest as [|z rest].
  - simplify_eq/=. by destruct (less x m).
  - destruct (less x y) eqn:Hxy.
    + pose proof (sink_not_nil x (z :: rest)) as Hne.
      destruct (sort.sink less x (z :: rest)) as [|w ws] eqn:Hs; [done|].
      change (last (y :: w :: ws)) with (last (w :: ws)).
      apply IH; [done|]. intros y' Hy'. apply Hleast. by right.
    + change (last (x :: y :: z :: rest)) with (last (y :: z :: rest)).
      rewrite Hlast. destruct (less x m) eqn:Hxm; [|done].
      rewrite (less_negtrans x m y Hxm) in Hxy; [done|].
      apply Hleast. by left.
Qed.

Lemma sink_fold_last x l :
  let sorted := fold_left (λ before y, sort.sink less y before) (x :: l) [] in
  last sorted = Some (firstMin less x l) ∧ ∀ y, y ∈ sorted ↔ y ∈ x :: l.
Proof.
  induction l as [|z l IH] using rev_ind.
  - simpl. split; [done|]. intros y. by rewrite !list_elem_of_singleton.
  - simpl in *. destruct IH as [Hlast Helem].
    rewrite fold_left_app. simpl. rewrite firstMin_snoc. split.
    + apply sink_last; [done|]. intros y Hy.
      apply firstMin_least. by apply Helem.
    + intros y. rewrite sink_elem_of, Helem.
      rewrite app_comm_cons, elem_of_app, list_elem_of_singleton. tauto.
Qed.

(** After [sort.Slice], the first element of a slice of at most twelve
    elements is the first of its least elements. *)
Lemma Slice_head x l :
  head (sort.Slice (x :: l) less) = Some (firstMin less x l).
Proof.
  unfold sort.Slice, sort.insertionSort. rewrite head_reverse.
  apply sink_fold_last.
Qed.
End InsertionSort.

(** ** Package board: symmetries *)

Lemma variantLess_irrefl x : board.variantLess x x = false.
Proof. apply ltb_irrefl. Qed.

Lemma variantLess_trans x y z :
  board.variantLess x y = true → board.variantLess y z = true →
  board.variantLess x z = true.
Proof. apply ltb_trans. Qed.

Lemma variantLess_negtrans x m y :
  board.variantLess x m = true → board.variantLess y m = false →
  board.variantLess x y = true.
Proof. apply ltb_negtrans. Qed.

Lemma index_Some {A} (l : list A) i x :
  index l i = Some x ↔ 0 ≤ i ∧ l !! Z.to_nat i = Some x.
Proof. unfold index. case_decide; [tauto|]. split; [done|tauto]. Qed.

Lemma string_length9 (s : string) :
  String.length s = 9%nat →
  ∃ c0 c1 c2 c3 c4 c5 c6 c7 c8,
    s = String c0 (String c1 (String c2 (String c3 (String c4 (String c5
          (String c6 (String c7 (String c8 EmptyString)))))))).
Proof.
  do 9 (destruct s as [|? s]; [done|]). destruct s; [|done]. intros _.
  by do 9 eexists.
Qed.

Lemma validBoard_length b :
  validBoard b → String.length (board.state b) = 9%nat.
Proof.
  unfold validBoard, board.New. case_decide as Hlen; [done|]. intros _.
  by destruct (decide (String.length (board.state b) = 9%nat)).
Qed.

(** One case for each of the eight transformations. *)
Ltac each_transformation H :=
  unfold board.Transformations in H;
  repeat (apply elem_of_cons in H as [->|H]); [..|by apply elem_of_nil in H].

Lemma applyTransform_total st tr :
  String.length st = 9%nat → tr ∈ board.Transformations →
  is_Some (board.applyTransform st tr).
Proof.
  intros Hlen Htr.
  destruct (string_length9 _ Hlen) as (c0&c1&c2&c3&c4&c5&c6&c7&c8& ->).
  each_transformation Htr; vm_compute; eauto.
Qed.

Lemma Normalize_variants_total st i ts :
  (∀ tr, tr ∈ ts → is_Some (board.applyTransform st tr)) →
  is_Some (board.Normalize_variants st i ts).
Proof.
  revert i. induction ts as [|tr ts IH]; intros i Hts; simpl; [eauto|].
  destruct (Hts tr) as [s ->]; [by left|]. simpl.
  destruct (IH (i + 1)) as [vs ->]; [|simpl; eauto].
  intros tr' Htr'. apply Hts. by right.
Qed.

Lemma Normalize_variants_lookup st i ts vs k v j :
  board.Normalize_variants st i ts = Some vs →
  vs !! k = Some (v, j)
  ↔ j = i + Z.of_nat k
    ∧ ∃ tr, ts !! k = Some tr ∧ board.applyTransform st tr = Some v.
Proof.
  revert i vs k. induction ts as [|tr ts IH]; intros i vs k; simpl.
  - intros [= <-]. rewrite lookup_nil. split; [done|]. by intros [_ (? & ? & _)].
  - destruct (board.applyTransform st tr) as [s|] eqn:Hs; [simpl|done].
    destruct (board.Normalize_variants st (i + 1) ts) as [vs'|] eqn:Hvs;
      [simpl|done].
    intros [= <-]. destruct k as [|k]; simpl.
    + split.
      * intros [= <- <-]. split; [lia|]. eauto.
      * intros [-> (tr' & [= <-] & Hv)].
        rewrite Hs in Hv. injection Hv as <-. f_equal. f_equal. lia.
    + rewrite (IH _ _ k Hvs). split; intros [-> Htr]; (split; [lia|done]).
Qed.

Lemma Normalize_variants_length st i ts vs :
  board.Normalize_variants st i ts = Some vs → length vs = length ts.
Proof.
  revert i vs. induction ts as [|tr ts IH]; intros i vs; simpl.
  - by intros [= <-].
  - destruct (board.applyTransform st tr) as [s|]; [simpl|done].
    destruct (board.Normalize_variants st (i + 1) ts) as [vs'|] eqn:Hvs;
      [simpl|done].
    intros [= <-]. simpl. f_equal. by apply IH with (i + 1).
Qed.

(** What [Normalize] returns: a variant, least in the order of strings, and
    strictly below the variants of the transformations of smaller index. *)
Lemma Normalize_spec b n t :
  board.Normalize b = Some (n, t) →
  (∃ tr, index board.Transformations t = Some tr
         ∧ board.applyTransform (board.state b) tr = Some n)
  ∧ ∀ i tr v,
      index board.Transformations i = Some tr →
      board.applyTransform (board.state b) tr = Some v →
      String.ltb v n = false ∧ (i < t → String.ltb n v = true).
Proof.
  unfold board.Normalize.
  destruct (board.Normalize_variants (board.state b) 0 board.Transformations)
    as [[|x l]|] eqn:Hvs; simpl; [done| |done].
  rewrite (Slice_head _ variantLess_irrefl variantLess_trans
             variantLess_negtrans).
  intros [= Hmin].
  destruct (firstMin_first _ variantLess_irrefl variantLess_trans
              variantLess_negtrans x l) as (k & Hk & Hbefore).
  pose proof (firstMin_least _ variantLess_irrefl variantLess_trans x l)
    as Hleast.
  rewrite Hmin in Hk, Hbefore, Hleast.
  apply (Normalize_variants_lookup _ _ _ _ _ _ _ Hvs) in Hk
    as [-> (tr & Htr & Hn)].
  split.
  - exists tr. split; [|done]. apply index_Some. split; [lia|].
    replace (Z.to_nat (0 + Z.of_nat k)) with k by lia. done.
  - intros i tr' v [Hi Htr']%index_Some Hv.
    assert (Hlook : (x :: l) !! Z.to_nat i = Some (v, i)).
    { apply (Normalize_variants_lookup _ _ _ _ _ _ _ Hvs).
      split; [lia|]. eauto. }
    split.
    + apply (Hleast (v, i)). apply list_elem_of_lookup. eauto.
    + intros Hlt. apply (Hbefore (Z.to_nat i) (v, i)); [lia|done].
Qed.

Lemma Normalize_total_length b :
  String.length (board.state b) = 9%nat → is_Some (board.Normalize b).
Proof.
  intros Hlen. unfold board.Normalize.
  destruct (Normalize_variants_total (board.state b) 0 board.Transformations)
    as [vs Hvs]; [intros; by apply applyTransform_total|].
  rewrite Hvs. simpl.
  destruct vs as [|x l]; [by apply Normalize_variants_length in Hvs|].
  rewrite (Slice_head _ variantLess_irrefl variantLess_trans
             variantLess_negtrans). eauto.
Qed.

Lemma Normalize_total b : validBoard b → is_Some (board.Normalize b).
Proof. intros Hlen%validBoard_length. by apply Normalize_total_length. Qed.

(** The transformation of index [k] as the one that yields a variant. *)
Ltac pick_transformation k :=
  exists (default [] (board.Transformations !! k));
  split; [by apply list_elem_of_lookup_2 with k | vm_compute; reflexivity].

Ltac find_transformation :=
  first [ pick_transformation 0%nat | pick_transformation 1%nat
        | pick_transformation 2%nat | pick_transformation 3%nat
        | pick_transformation 4%nat | pick_transformation 5%nat
        | pick_transformation 6%nat | pick_transformation 7%nat ].

(** A transformed board has the same eight variants as the board. *)
Lemma variants_of_image st tr s' :
  String.length st = 9%nat → tr ∈ board.Transformations →
  board.applyTransform st tr = Some s' →
  String.length s' = 9%nat
  ∧ ∀ v, (∃ tr1, tr1 ∈ board.Transformations
                 ∧ board.applyTransform s' tr1 = Some v)
         ↔ (∃ tr2, tr2 ∈ board.Transformations
                   ∧ board.applyTransform st tr2 = Some v).
Proof.
  intros Hlen Htr Hs'.
  destruct (string_length9 _ Hlen) as (c0&c1&c2&c3&c4&c5&c6&c7&c8& ->).
  each_transformation Htr; vm_compute in Hs'; injection Hs' as <-;
    (split; [reflexivity|]); intros v;
    (split; intros (tr' & Htr' & Hv); each_transformation Htr';
     vm_compute in Hv; injection Hv as <-; find_transformation).
Qed.

(** C3. For every valid board, [Normalize] returns the variant that is least
    in the lexicographic order of strings among the variants of the eight
    transformations, together with the smallest index of a transformation
    that yields it: every variant is at least the returned state, and the
    variants of the transformations of smaller index differ from it. *)
Theorem Normalize_least_earliest (b : board.Board) :
  validBoard b →
  ∃ n t tr,
    board.Normalize b = Some (n, t)
    ∧ index board.Transformations t = Some tr
    ∧ board.applyTransform (board.state b) tr = Some n
    ∧ ∀ i tr' v,
        index board.Transformations i = Some tr' →
        board.applyTransform (board.state b) tr' = Some v →
        String.leb n v = true ∧ (i < t → v ≠ n).
Proof.
  intros Hvalid. destruct (Normalize_total b Hvalid) as [[n t] Hnorm].
  destruct (Normalize_spec b n t Hnorm) as [(tr & Htr & Hn) Hall].
  exists n, t, tr. repeat split; try done.
  - rewrite leb_ltb. by destruct (Hall i tr' v) as [-> _].
  - intros Hlt ->. destruct (Hall i tr' n) as [_ Hless]; [done..|].
    specialize (Hless Hlt). by rewrite ltb_irrefl in Hless.
Qed.

Lemma Normalize_least_earliest_witness :
  ∃ n t tr,
    board.Normalize (board.mkBoard "X_O_X___O") = Some (n, t)
    ∧ index board.Transformations t = Some tr
    ∧ board.applyTransform "X_O_X___O" tr = Some n
    ∧ ∀ i tr' v,
        index board.Transformations i = Some tr' →
        board.applyTransform "X_O_X___O" tr' = Some v →
        String.leb n v = true ∧ (i < t → v ≠ n).
Proof.
  apply (Normalize_least_earliest (board.mkBoard "X_O_X___O")).
  vm_compute. reflexivity.
Defined.

(** C4. For every valid board and every transformation index [t] of 0..7,
    [Normalize] returns the same state string for the board and for its
    image under [applyTransform] with [Transformations[t]]. *)
Theorem Normalize_symmetry_invariant (b : board.Board) (t : Z) :
  validBoard b → 0 ≤ t ≤ 7 →
  ∃ tr image n t1 t2,
    index board.Transformations t = Some tr
    ∧ board.applyTransform (board.state b) tr = Some image
    ∧ board.Normalize b = Some (n, t1)
    ∧ board.Normalize (board.mkBoard image) = Some (n, t2).
Proof.
  intros Hvalid Ht.
  assert (is_Some (board.Transformations !! Z.to_nat t)) as [tr Htr].
  { apply lookup_lt_is_Some. simpl. lia. }
  pose proof (validBoard_length b Hvalid) as Hlen.
  assert (Hin : tr ∈ board.Transformations)
    by by apply list_elem_of_lookup_2 with (Z.to_nat t).
  destruct (applyTransform_total _ _ Hlen Hin) as [image Himage].
  destruct (variants_of_image _ _ _ Hlen Hin Himage) as [Hlen' Hsame].
  destruct (Normalize_total b Hvalid) as [[n t1] Hn].
  destruct (Normalize_total_length (board.mkBoard image) Hlen')
    as [[n' t2] Hn'].
  exists tr, image, n, t1, t2.
  split; [apply index_Some; split; [lia|done]|]. do 2 (split; [done|]).
  rewrite Hn'. f_equal. f_equal.
  destruct (Normalize_spec _ _ _ Hn) as [(tr1 & Htr1 & Hv1) Hleast1].
  destruct (Normalize_spec _ _ _ Hn') as [(tr2 & Htr2 & Hv2) Hleast2].
  simpl in *.
  apply index_Some in Htr1 as [? Htr1]. apply index_Some in Htr2 as [? Htr2].
  destruct (proj1 (Hsame n')) as (tr3 & [k3 Hk3]%list_elem_of_lookup & Hv3).
  { exists tr2. split; [by apply list_elem_of_lookup_2 with (Z.to_nat t2)|done]. }
  destruct (proj2 (Hsame n)) as (tr4 & [k4 Hk4]%list_elem_of_lookup & Hv4).
  { exists tr1. split; [by apply list_elem_of_lookup_2 with (Z.to_nat t1)|done]. }
  symmetry. apply ltb_antisym.
  - eapply proj1, (Hleast2 (Z.of_nat k4) tr4 n); [|done].
    apply index_Some. rewrite Nat2Z.id. split; [lia|done].
  - eapply proj1, (Hleast1 (Z.of_nat k3) tr3 n'); [|done].
    apply index_Some. rewrite Nat2Z.id. split; [lia|done].
Qed.

Lemma Normalize_symmetry_invariant_witness :
  ∃ tr image n t1 t2,
    index board.Transformations 3 = Some tr
    ∧ board.applyTransform "XO__X____" tr = Some image
    ∧ board.Normalize (board.mkBoard "XO__X____") = Some (n, t1)
    ∧ board.Normalize (board.mkBoard image) = Some (n, t2).
Proof.
  apply (Normalize_symmetry_invariant (board.mkBoard "XO__X____") 3).
  - vm_compute. reflexivity.
  - lia.
Defined.

(** C5. For every position [p] of 0..8 and every transformation index [t] of
    0..7, [InverseTransformPosition (TransformPosition p t) t] is [p]. *)
Theorem InverseTransformPosition_TransformPosition (p t : Z) :
  0 ≤ p ≤ 8 → 0 ≤ t ≤ 7 →
  ∃ q, board.TransformPosition p t = Some q
       ∧ board.InverseTransformPosition q t = Some p.
Proof.
  intros Hp Ht.
  assert (Hpc : p ∈ [0; 1; 2; 3; 4; 5; 6; 7; 8]).
  { rewrite !elem_of_cons. lia. }
  assert (Htc : t ∈ [0; 1; 2; 3; 4; 5; 6; 7]).
  { rewrite !elem_of_cons. lia. }
  repeat (apply elem_of_cons in Htc as [->|Htc]);
    [..|by apply elem_of_nil in Htc];
    (repeat (apply elem_of_cons in Hpc as [->|Hpc]);
       [..|by apply elem_of_nil in Hpc]);
    eexists; (split; vm_compute; reflexivity).
Qed.

Lemma InverseTransformPosition_TransformPosition_witness :
  ∃ q, board.TransformPosition 5 1 = Some q
       ∧ board.InverseTransformPosition q 1 = Some 5.
Proof.
  apply (InverseTransformPosition_TransformPosition 5 1); lia.
Defined.

(** ** Package menace: beads *)

Lemma AddBeads_lookup m position count q :
  menace.Matchbox.Beads (menace.AddBeads m position count) !! q
  = if decide (q = position)
    then (λ current, goint.add current count)
           <$> menace.Matchbox.Beads m !! position
    else menace.Matchbox.Beads m !! q.
Proof.
  unfold menace.AddBeads.
  destruct (menace.Matchbox.Beads m !! position) as [current|] eqn:Hp; simpl.
  - case_decide as Hq; [subst; by rewrite lookup_insert_eq|].
    by rewrite lookup_insert_ne.
  - case_decide as Hq; [by subst|done].
Qed.

Lemma RemoveBeads_lookup m position count minBeads q :
  menace.Matchbox.Beads (menace.RemoveBeads m position count minBeads) !! q
  = if decide (q = position)
    then (λ current, Z.max (goint.sub current count) minBeads)
           <$> menace.Matchbox.Beads m !! position
    else menace.Matchbox.Beads m !! q.
Proof.
  unfold menace.RemoveBeads.
  destruct (menace.Matchbox.Beads m !! position) as [current|] eqn:Hp; simpl.
  - destruct (decide (q = position)) as [->|Hq];
      [|by rewrite lookup_insert_ne].
    rewrite lookup_insert_eq. f_equal. case_decide; lia.
  - destruct (decide (q = position)) as [->|Hq]; done.
Qed.

(** C10. For every matchbox and every position that is not a key of its
    bead map, [AddBeads] and [RemoveBeads] return the matchbox unchanged: no
    key is created and no count is modified. *)
Theorem beads_unchanged_outside_domain (m : menace.Matchbox.t)
    (q reward penalty minBeads : Z) :
  menace.Matchbox.Beads m !! q = None →
  menace.AddBeads m q reward = m
  ∧ menace.RemoveBeads m q penalty minBeads = m.
Proof. intros Hq. unfold menace.AddBeads, menace.RemoveBeads. by rewrite Hq. Qed.

Lemma beads_unchanged_outside_domain_witness :
  menace.AddBeads (menace.NewMatchbox "_X_______" [0; 2; 3] 3) 1 3
  = menace.NewMatchbox "_X_______" [0; 2; 3] 3
  ∧ menace.RemoveBeads (menace.NewMatchbox "_X_______" [0; 2; 3] 3) 1 1 1
    = menace.NewMatchbox "_X_______" [0; 2; 3] 3.
Proof.
  apply (beads_unchanged_outside_domain
           (menace.NewMatchbox "_X_______" [0; 2; 3] 3) 1 3 1 1).
  vm_compute. reflexivity.
Defined.

Lemma NewMatchbox_lookup st validMoves initialBeads position count :
  menace.Matchbox.Beads (menace.NewMatchbox st validMoves initialBeads)
    !! position = Some count →
  count = initialBeads.
Proof.
  unfold menace.NewMatchbox. simpl.
  assert (Hgen : ∀ beads : gmap Z Z,
    (∀ p c, beads !! p = Some c → c = initialBeads) →
    fold_left (λ beads pos, <[pos := initialBeads]> beads) validMoves beads
      !! position = Some count → count = initialBeads).
  { induction validMoves as [|pos rest IH]; intros beads Hbeads; simpl.
    - apply Hbeads.
    - apply IH. intros p c. destruct (decide (p = pos)) as [->|Hne].
      + rewrite lookup_insert_eq. congruence.
      + rewrite lookup_insert_ne by done. apply Hbeads. }
  apply Hgen. intros p c. by rewrite lookup_empty.
Qed.

(** A penalty never leaves the move it penalises below the floor, whatever
    the counts are. *)
Lemma RemoveBeads_floor m position count minBeads c :
  menace.Matchbox.Beads (menace.RemoveBeads m position count minBeads)
    !! position = Some c →
  minBeads ≤ c.
Proof.
  rewrite RemoveBeads_lookup, decide_True by done.
  destruct (menace.Matchbox.Beads m !! position); [|done].
  intros [= <-]. lia.
Qed.

Example NewMenace_beads_above_floor :
  menace.Menace.MinBeads (menace.NewMenace board.PlayerX)
  ≤ menace.Menace.InitialBeads (menace.NewMenace board.PlayerX).
Proof. simpl. lia. Qed.

Lemma applyOp_floorInv floor m op :
  goint.in_range floor → 0 ≤ opCount op →
  addsFit floor m [op] → floorInv floor m → floorInv floor (applyOp floor m op).
Proof.
  intros Hfloor Hcount [Hfit _] Hinv position count.
  destruct op as [p c|p c]; simpl in *.
  - rewrite AddBeads_lookup. case_decide as Hq; [subst|apply Hinv].
    destruct (menace.Matchbox.Beads m !! p) as [current|] eqn:Hp; [|done].
    intros [= <-]. destruct (Hinv p current Hp) as [Hge Hrange].
    specialize (Hfit current eq_refl).
    unfold goint.add. rewrite wrap_in_range.
    + split; [lia|]. unfold goint.in_range in *. lia.
    + unfold goint.in_range in *. lia.
  - rewrite RemoveBeads_lookup. case_decide as Hq; [subst|apply Hinv].
    destruct (menace.Matchbox.Beads m !! p) as [current|] eqn:Hp; [|done].
    intros [= <-]. split; [lia|].
    pose proof (wrap_range (current - c)) as Hw.
    unfold goint.sub, goint.in_range in *. lia.
Qed.

Lemma applyOps_floorInv floor ops m k :
  goint.in_range floor → Forall (λ op, 0 ≤ opCount op) ops →
  addsFit floor m ops → floorInv floor m →
  floorInv floor (applyOps floor m (take k ops)).
Proof.
  intros Hfloor. revert m k.
  induction ops as [|op rest IH]; intros m k Hcounts Hfit Hinv.
  - by rewrite take_nil.
  - destruct k as [|k]; [done|]. simpl.
    apply Forall_cons in Hcounts as [Hcount Hcounts].
    destruct Hfit as [Hfit Hrest].
    apply IH; [done..|]. by apply applyOp_floorInv.
Qed.

(** C6, amended. A matchbox created with an initial count that is at least
    the floor keeps every listed move at or above the floor through every
    sequence of [AddBeads] and [RemoveBeads] with non-negative counts, at
    each point of the sequence, provided no addition exceeds the largest
    [int]. *)
Theorem floor_kept_without_overflow (st : string) (validMoves : list Z)
    (initial floor : Z) (ops : list BeadOp) (k : nat) :
  goint.in_range initial → goint.in_range floor → floor ≤ initial →
  Forall (λ op, 0 ≤ opCount op) ops →
  addsFit floor (menace.NewMatchbox st validMoves initial) ops →
  aboveFloor floor
    (applyOps floor (menace.NewMatchbox st validMoves initial) (take k ops)).
Proof.
  intros Hinitial Hfloor Hle Hcounts Hfit position count Hlookup.
  eapply applyOps_floorInv; [done..| |done].
  intros p c Hp. apply NewMatchbox_lookup in Hp as ->. done.
Qed.

Lemma floor_kept_without_overflow_witness :
  aboveFloor 1
    (applyOps 1 (menace.NewMatchbox "_________" [0; 4] 3)
       (take 3 [OpAddBeads 0 3; OpRemoveBeads 4 1; OpRemoveBeads 4 5])).
Proof.
  apply (floor_kept_without_overflow "_________" [0; 4] 3 1
           [OpAddBeads 0 3; OpRemoveBeads 4 1; OpRemoveBeads 4 5] 3).
  - unfold goint.in_range, goint.MinInt, goint.MaxInt. lia.
  - unfold goint.in_range, goint.MinInt, goint.MaxInt. lia.
  - lia.
  - repeat constructor; simpl; lia.
  - simpl. repeat split. intros current Hcurrent.
    vm_compute in Hcurrent. injection Hcurrent as <-.
    unfold goint.MaxInt. lia.
Defined.

(** C6, as stated, fails: an addition that exceeds the largest [int] wraps
    around and leaves the count below the floor. *)
Lemma floor_broken_by_overflow :
  goint.in_range 3 ∧ goint.in_range 1 ∧ 1 ≤ 3
  ∧ Forall (λ op, 0 ≤ opCount op ∧ goint.in_range (opCount op))
      [OpAddBeads 0 goint.MaxInt]
  ∧ menace.Matchbox.Beads
      (applyOps 1 (menace.NewMatchbox "_________" [0] 3)
         [OpAddBeads 0 goint.MaxInt]) !! 0
    = Some (-9223372036854775806)
  ∧ ¬ aboveFloor 1
        (applyOps 1 (menace.NewMatchbox "_________" [0] 3)
           [OpAddBeads 0 goint.MaxInt]).
Proof.
  assert (Hcount :
    menace.Matchbox.Beads
      (applyOps 1 (menace.NewMatchbox "_________" [0] 3)
         [OpAddBeads 0 goint.MaxInt]) !! 0
    = Some (-9223372036854775806)) by (vm_compute; reflexivity).
  unfold goint.in_range, goint.MinInt, goint.MaxInt in *.
  repeat split; try lia; try done.
  - repeat constructor; simpl; lia.
  - intros Hfloor. specialize (Hfloor 0 _ Hcount). lia.
Qed.

(** ** Package menace: learning *)

Lemma wrap_add_l a b : goint.wrap (goint.wrap a + b) = goint.wrap (a + b).
Proof.
  unfold goint.wrap. f_equal.
  replace ((a + 9223372036854775808) `mod` 18446744073709551616
           - 9223372036854775808 + b + 9223372036854775808)
    with ((a + 9223372036854775808) `mod` 18446744073709551616 + b) by lia.
  rewrite Zplus_mod_idemp_l. f_equal. lia.
Qed.

Lemma bind_Some {A B} (e : option A) (k : A → option B) b :
  bind e k = Some b ↔ ∃ a, e = Some a ∧ k a = Some b.
Proof.
  destruct e as [a|]; simpl.
  - split; [eauto|]. by intros (? & [= <-] & ?).
  - split; [done|]. by intros (? & ? & _).
Qed.

Lemma Learn_Matchboxes m result :
  menace.Menace.Matchboxes (menace.Learn m result)
  = fold_left (menace.learnMove m result) (menace.Menace.MoveHistory m)
      (menace.Menace.Matchboxes m).
Proof.
  unfold menace.Learn, menace.recordHistorySnapshot.
  repeat case_decide; reflexivity.
Qed.

Lemma Learn_MoveHistory m result :
  menace.Menace.MoveHistory (menace.Learn m result) = [].
Proof.
  unfold menace.Learn, menace.recordHistorySnapshot.
  repeat case_decide; reflexivity.
Qed.

Lemma Learn_counters m result :
  menace.Menace.GamesPlayed (menace.Learn m result)
  = goint.add (menace.Menace.GamesPlayed m) 1
  ∧ menace.Menace.Wins (menace.Learn m result)
    = (if decide (result = board.ResultWin)
       then goint.add (menace.Menace.Wins m) 1 else menace.Menace.Wins m)
  ∧ menace.Menace.Losses (menace.Learn m result)
    = (if decide (result = board.ResultLoss)
       then goint.add (menace.Menace.Losses m) 1 else menace.Menace.Losses m)
  ∧ menace.Menace.Draws (menace.Learn m result)
    = (if decide (result = board.ResultDraw)
       then goint.add (menace.Menace.Draws m) 1 else menace.Menace.Draws m).
Proof.
  unfold menace.Learn, menace.recordHistorySnapshot.
  repeat case_decide; subst; try done.
Qed.

Lemma Learn_WinReward m result :
  menace.Menace.WinReward (menace.Learn m result) = menace.Menace.WinReward m.
Proof.
  unfold menace.Learn, menace.recordHistorySnapshot.
  repeat case_decide; reflexivity.
Qed.

(** The loop of [Learn] neither adds nor removes a matchbox. *)
Lemma learnMove_None m result boxes move st :
  menace.learnMove m result boxes move !! st = None ↔ boxes !! st = None.
Proof.
  unfold menace.learnMove.
  destruct (boxes !! menace.MoveRecord.BoardState move) as [mb|] eqn:Hmb;
    [|done].
  repeat case_decide; try done;
    (destruct (decide (menace.MoveRecord.BoardState move = st)) as [<-|Hne];
     [rewrite lookup_insert_eq, Hmb; by split
     |by rewrite lookup_insert_ne]).
Qed.

Lemma learn_fold_None m result trace boxes st :
  fold_left (menace.learnMove m result) trace boxes !! st = None
  ↔ boxes !! st = None.
Proof.
  revert boxes. induction trace as [|move rest IH]; intros boxes; simpl;
    [done|]. by rewrite IH, learnMove_None.
Qed.

Lemma credits_cons st position move rest :
  credits st position (move :: rest)
  = ((if decide (menace.MoveRecord.BoardState move = st
                 ∧ menace.MoveRecord.Position move = position)
      then 1 else 0) + credits st position rest)%nat.
Proof.
  unfold credits. rewrite filter_cons. by case_decide.
Qed.

(** Through the loop of [Learn] for a result that rewards with [reward], a
    move gains [reward] beads for each time the trace credits it, whatever
    else the trace holds. *)
Lemma learn_fold_reward m result reward trace :
  (∀ boxes move mb,
     boxes !! menace.MoveRecord.BoardState move = Some mb →
     menace.learnMove m result boxes move
     = <[menace.MoveRecord.BoardState move :=
           menace.AddBeads mb (menace.MoveRecord.Position move) reward]>
         boxes) →
  ∀ boxes st position mb count,
    boxes !! st = Some mb →
    menace.Matchbox.Beads mb !! position = Some count →
    goint.in_range count →
    ∃ mb',
      fold_left (menace.learnMove m result) trace boxes !! st = Some mb'
      ∧ menace.Matchbox.Beads mb' !! position
        = Some (goint.wrap
                  (count + Z.of_nat (credits st position trace) * reward)).
Proof.
  intros Hstep. induction trace as [|move rest IH];
    intros boxes st position mb count Hmb Hcount Hrange; simpl.
  - exists mb. split; [done|]. rewrite Hcount. f_equal.
    replace (count + Z.of_nat (credits st position []) * reward) with count
      by (unfold credits; simpl; lia).
    by rewrite wrap_in_range.
  - rewrite credits_cons.
    destruct (boxes !! menace.MoveRecord.BoardState move) as [mbr|] eqn:Hmbr.
    + rewrite (Hstep _ _ _ Hmbr).
      destruct (decide (menace.MoveRecord.BoardState move = st)) as [Hst|Hst].
      * rewrite Hst in *. rewrite Hmb in Hmbr. injection Hmbr as <-.
        destruct (decide (menace.MoveRecord.Position move = position))
          as [Hpos|Hpos].
        -- edestruct (IH (<[st := menace.AddBeads mb
                                    (menace.MoveRecord.Position move) reward]>
                            boxes) st position) as (mb' & Hmb' & Hcount').
           { apply lookup_insert_eq. }
           { rewrite AddBeads_lookup, decide_True by done.
             rewrite Hpos, Hcount. reflexivity. }
           { apply wrap_range. }
           exists mb'. split; [done|]. rewrite Hcount'. f_equal.
           rewrite decide_True by done. unfold goint.add.
           rewrite wrap_add_l. f_equal. lia.
        -- edestruct (IH (<[st := menace.AddBeads mb
                                    (menace.MoveRecord.Position move) reward]>
                            boxes) st position) as (mb' & Hmb' & Hcount').
           { apply lookup_insert_eq. }
           { rewrite AddBeads_lookup, decide_False by done. exact Hcount. }
           { done. }
           exists mb'. split; [done|]. rewrite Hcount'.
           rewrite decide_False by tauto. done.
      * edestruct (IH (<[menace.MoveRecord.BoardState move :=
                           menace.AddBeads mbr
                             (menace.MoveRecord.Position move) reward]> boxes)
                      st position) as (mb' & Hmb' & Hcount').
        { by rewrite lookup_insert_ne. }
        { exact Hcount. }
        { done. }
        exists mb'. split; [done|]. rewrite Hcount'.
        rewrite decide_False by tauto. done.
    + assert (menace.learnMove m result boxes move = boxes) as ->.
      { unfold menace.learnMove. by rewrite Hmbr. }
      destruct (IH boxes st position mb count) as (mb' & Hmb' & Hcount');
        [done..|].
      exists mb'. split; [done|]. rewrite Hcount'.
      rewrite decide_False; [done|]. intros [Hst _]. congruence.
Qed.

Lemma learnMove_win m boxes move mb :
  boxes !! menace.MoveRecord.BoardState move = Some mb →
  menace.learnMove m board.ResultWin boxes move
  = <[menace.MoveRecord.BoardState move :=
        menace.AddBeads mb (menace.MoveRecord.Position move)
          (menace.Menace.WinReward m)]> boxes.
Proof. intros Hmb. unfold menace.learnMove. by rewrite Hmb. Qed.

Lemma learnMove_draw m boxes move mb :
  boxes !! menace.MoveRecord.BoardState move = Some mb →
  menace.learnMove m board.ResultDraw boxes move
  = <[menace.MoveRecord.BoardState move :=
        menace.AddBeads mb (menace.MoveRecord.Position move)
          (menace.Menace.DrawReward m)]> boxes.
Proof. intros Hmb. unfold menace.learnMove. by rewrite Hmb. Qed.

Lemma beadCount_Some m st position count :
  beadCount m st position = Some count
  ↔ ∃ mb, menace.Menace.Matchboxes m !! st = Some mb
          ∧ menace.Matchbox.Beads mb !! position = Some count.
Proof. unfold beadCount. apply bind_Some. Qed.

Lemma Learn_win_beadCount m st position count :
  beadCount m st position = Some count → goint.in_range count →
  beadCount (menace.Learn m board.ResultWin) st position
  = Some (goint.wrap
            (count + Z.of_nat (credits st position (menace.Menace.MoveHistory m))
                     * menace.Menace.WinReward m)).
Proof.
  intros (mb & Hmb & Hcount)%beadCount_Some Hrange.
  apply beadCount_Some. rewrite Learn_Matchboxes.
  by apply learn_fold_reward with mb; [apply learnMove_win|..].
Qed.

Lemma Learn_draw_beadCount m st position count :
  beadCount m st position = Some count → goint.in_range count →
  beadCount (menace.Learn m board.ResultDraw) st position
  = Some (goint.wrap
            (count + Z.of_nat (credits st position (menace.Menace.MoveHistory m))
                     * menace.Menace.DrawReward m)).
Proof.
  intros (mb & Hmb & Hcount)%beadCount_Some Hrange.
  apply beadCount_Some. rewrite Learn_Matchboxes.
  by apply learn_fold_reward with mb; [apply learnMove_draw|..].
Qed.

Lemma GetOrCreateMatchbox_spec m normalizedState validMoves m1 mb :
  menace.GetOrCreateMatchbox m normalizedState validMoves = (m1, mb) →
  menace.Menace.Matchboxes m1 !! normalizedState = Some mb
  ∧ (∀ st, st ≠ normalizedState →
           menace.Menace.Matchboxes m1 !! st = menace.Menace.Matchboxes m !! st)
  ∧ (∀ mb0, menace.Menace.Matchboxes m !! normalizedState = Some mb0 →
            mb = mb0)
  ∧ (menace.Menace.Matchboxes m !! normalizedState = None →
     mb = menace.NewMatchbox normalizedState validMoves
            (menace.Menace.InitialBeads m))
  ∧ menace.Menace.WinReward m1 = menace.Menace.WinReward m
  ∧ menace.Menace.GamesPlayed m1 = menace.Menace.GamesPlayed m
  ∧ menace.Menace.MoveHistory m1 = menace.Menace.MoveHistory m.
Proof.
  unfold menace.GetOrCreateMatchbox.
  destruct (menace.Menace.Matchboxes m !! normalizedState) as [mb0|] eqn:Hmb0.
  - intros [= <- <-]. repeat split; try done. by intros ? [= <-].
  - intros [= <- <-]. simpl. repeat split; try done.
    + apply lookup_insert_eq.
    + intros st Hst. by rewrite lookup_insert_ne.
Qed.

(** What [GetMove] does to the agent: the matchbox of the normalized state
    is used once more, a record is appended to the trace, and nothing else
    changes; the matchbox is new if the state had none. *)
Lemma GetMove_spec m b order draw m' pos :
  menace.GetMove m b order draw = Some (m', pos) →
  ∃ n t moves mb normalizedPos,
    board.Normalize b = Some (n, t)
    ∧ mapM (λ p, board.TransformPosition p t) (board.GetEmptyPositions b)
      = Some moves
    ∧ mb = default (menace.NewMatchbox n moves (menace.Menace.InitialBeads m))
             (menace.Menace.Matchboxes m !! n)
    ∧ menace.DrawBead mb order draw = Some normalizedPos
    ∧ board.InverseTransformPosition normalizedPos t = Some pos
    ∧ menace.Menace.Matchboxes m'
      = <[n := menace.Matchbox.mk (menace.Matchbox.BoardState mb)
                 (menace.Matchbox.Beads mb)
                 (goint.add (menace.Matchbox.TimesUsed mb) 1)]>
          (menace.Menace.Matchboxes m)
    ∧ menace.Menace.MoveHistory m'
      = menace.Menace.MoveHistory m ++ [menace.MoveRecord.mk n normalizedPos t]
    ∧ menace.Menace.WinReward m' = menace.Menace.WinReward m
    ∧ menace.Menace.GamesPlayed m' = menace.Menace.GamesPlayed m.
Proof.
  unfold menace.GetMove.
  intros ([n t] & Hnorm & Hrest)%bind_Some.
  apply bind_Some in Hrest as (moves & Hmoves & Hrest).
  destruct (menace.GetOrCreateMatchbox m n moves) as [m1 mb] eqn:Hget.
  apply bind_Some in Hrest as (normalizedPos & Hdraw & Hrest).
  apply bind_Some in Hrest as (originalPos & Hinv & [= <- <-]).
  exists n, t, moves, mb, normalizedPos.
  destruct (GetOrCreateMatchbox_spec _ _ _ _ _ Hget)
    as (Hmb & Hother & Hold & Hnew & Hreward & Hgames & Hhistory).
  simpl. rewrite Hhistory, Hreward, Hgames.
  repeat split; try done.
  - destruct (menace.Menace.Matchboxes m !! n) as [mb0|] eqn:Hmb0; simpl.
    + by apply Hold.
    + by apply Hnew.
  - apply map_eq. intros st. destruct (decide (n = st)) as [<-|Hne].
    + by rewrite !lookup_insert_eq.
    + rewrite !lookup_insert_ne by done. by apply Hother.
Qed.

Lemma GetMove_beadCount m b order draw m' pos st position count :
  menace.GetMove m b order draw = Some (m', pos) →
  beadCount m st position = Some count →
  beadCount m' st position = Some count.
Proof.
  intros (n & t & moves & mb & npos & _ & _ & Hmb & _ & _ & Hboxes & _)
    %GetMove_spec (mb0 & Hmb0 & Hcount)%beadCount_Some.
  apply beadCount_Some. rewrite Hboxes.
  destruct (decide (n = st)) as [->|Hne].
  - rewrite lookup_insert_eq. eexists. split; [done|]. simpl.
    rewrite Hmb, Hmb0. done.
  - rewrite lookup_insert_ne by done. eauto.
Qed.

Lemma GetMove_frame (m m' : menace.Menace.t) (b : board.Board)
    (order : list Z) (draw pos : Z) :
  menace.GetMove m b order draw = Some (m', pos) →
  menace.Menace.setMoveHistory (menace.Menace.MoveHistory m)
    (menace.Menace.setMatchboxes (menace.Menace.Matchboxes m) m')
  = m.
Proof.
  unfold menace.GetMove.
  intros ([n t] & Hnorm & Hrest)%bind_Some.
  apply bind_Some in Hrest as (moves & Hmoves & Hrest).
  destruct (menace.GetOrCreateMatchbox m n moves) as [m1 mb] eqn:Hget.
  apply bind_Some in Hrest as (normalizedPos & Hdraw & Hrest).
  apply bind_Some in Hrest as (originalPos & Hinv & [= <- <-]).
  unfold menace.GetOrCreateMatchbox in Hget.
  destruct (menace.Menace.Matchboxes m !! n); injection Hget as <- <-;
    by destruct m.
Qed.

(** C8, amended. From an agent whose matchbox of a state gives a move [b0]
    beads, after [n] learning updates for a win, each with a trace that
    credits that move of that state once, and any moves and starts of games
    in between, the move has [b0 + n * WinReward] beads reduced to the range
    of [int], which is [b0 + n * WinReward] whenever that number is within
    the range. *)
Theorem wins_add_reward (st : string) (position : Z) (m m' : menace.Menace.t)
    (n : nat) (b0 : Z) :
  goint.in_range b0 →
  beadCount m st position = Some b0 →
  wonEpisodes st position m n m' →
  beadCount m' st position
  = Some (goint.wrap (b0 + Z.of_nat n * menace.Menace.WinReward m))
  ∧ (goint.in_range (b0 + Z.of_nat n * menace.Menace.WinReward m) →
     beadCount m' st position
     = Some (b0 + Z.of_nat n * menace.Menace.WinReward m)).
Proof.
  intros Hrange Hb0 Hrun.
  assert (Hinv :
    beadCount m' st position
    = Some (goint.wrap (b0 + Z.of_nat n * menace.Menace.WinReward m))
    ∧ menace.Menace.WinReward m' = menace.Menace.WinReward m).
  { induction Hrun as [|n m1 b order draw m2 pos Hrun [IHcount IHreward] Hmove
                       |n m1 Hrun [IHcount IHreward]
                       |n m1 Hrun [IHcount IHreward] Hcredits].
    - split; [|done]. rewrite Hb0. f_equal.
      replace (b0 + Z.of_nat 0 * menace.Menace.WinReward m) with b0 by lia.
      by rewrite wrap_in_range.
    - split; [by apply (GetMove_beadCount _ _ _ _ _ _ _ _ _ Hmove)|].
      apply GetMove_spec in Hmove
        as (?&?&?&?&?&_&_&_&_&_&_&_&Hreward&_). congruence.
    - done.
    - split; [|by rewrite Learn_WinReward].
      rewrite (Learn_win_beadCount _ _ _ _ IHcount (wrap_range _)).
      rewrite Hcredits, IHreward, wrap_add_l. f_equal. f_equal. lia. }
  destruct Hinv as [Hcount _]. split; [done|].
  intros Hfits. by rewrite Hcount, wrap_in_range.
Qed.

Lemma wins_add_reward_witness :
  beadCount (menace.Learn agentAfterSecondOpening board.ResultWin)
    "_________" 0
  = Some (goint.wrap
            (3 + Z.of_nat 2 * menace.Menace.WinReward agentAfterOpening))
  ∧ (goint.in_range
       (3 + Z.of_nat 2 * menace.Menace.WinReward agentAfterOpening) →
     beadCount (menace.Learn agentAfterSecondOpening board.ResultWin)
       "_________" 0
     = Some (3 + Z.of_nat 2 * menace.Menace.WinReward agentAfterOpening)).
Proof.
  apply (wins_add_reward "_________" 0 agentAfterOpening
           (menace.Learn agentAfterSecondOpening board.ResultWin) 2 3).
  - unfold goint.in_range, goint.MinInt, goint.MaxInt. lia.
  - vm_compute. reflexivity.
  - apply wonEpisodes_win; [|vm_compute; reflexivity].
    apply (wonEpisodes_move _ _ _ 1
             (menace.Learn agentAfterOpening board.ResultWin)
             board.NewEmpty openingOrder 0 agentAfterSecondOpening 0);
      [|vm_compute; reflexivity].
    apply wonEpisodes_win; [|vm_compute; reflexivity].
    apply wonEpisodes_none.
Defined.

(** C8, as stated, fails: with a reward that takes the count past the
    largest [int], one won episode leaves a negative count. *)
Lemma win_reward_overflows :
  beadCount lavishAgentAfterOpening "_________" 0 = Some 3
  ∧ wonEpisodes "_________" 0 lavishAgentAfterOpening 1
      (menace.Learn lavishAgentAfterOpening board.ResultWin)
  ∧ beadCount (menace.Learn lavishAgentAfterOpening board.ResultWin)
      "_________" 0 = Some (-9223372036854775806)
  ∧ beadCount (menace.Learn lavishAgentAfterOpening board.ResultWin)
      "_________" 0
    ≠ Some (3 + 1 * menace.Menace.WinReward lavishAgentAfterOpening).
Proof.
  assert (Hcount :
    beadCount (menace.Learn lavishAgentAfterOpening board.ResultWin)
      "_________" 0 = Some (-9223372036854775806))
    by (vm_compute; reflexivity).
  split; [vm_compute; reflexivity|]. split; [|split; [done|]].
  - apply wonEpisodes_win; [apply wonEpisodes_none|vm_compute; reflexivity].
  - rewrite Hcount. vm_compute. discriminate.
Qed.

Lemma learnMove_present m result boxes move mb :
  boxes !! menace.MoveRecord.BoardState move = Some mb →
  menace.learnMove m result boxes move = creditEntry m result boxes move.
Proof.
  intros Hmb. unfold menace.learnMove, creditEntry, applyResult.
  rewrite Hmb. apply map_eq. intros st. rewrite lookup_alter.
  repeat case_decide; subst; rewrite ?lookup_insert_eq, ?Hmb;
    rewrite ?lookup_insert_ne by done; done.
Qed.

Lemma learn_fold_present m result boxes0 trace boxes :
  (∀ st, boxes !! st = None ↔ boxes0 !! st = None) →
  fold_left (menace.learnMove m result) trace boxes
  = fold_left (creditEntry m result) (presentEntries boxes0 trace) boxes.
Proof.
  revert boxes. induction trace as [|move rest IH]; intros boxes Hdom;
    [done|].
  unfold presentEntries. rewrite filter_cons. simpl.
  destruct (boxes !! menace.MoveRecord.BoardState move) as [mb|] eqn:Hmb.
  - rewrite decide_True.
    2:{ destruct (boxes0 !! menace.MoveRecord.BoardState move) eqn:H0;
          [done|]. apply Hdom in H0. congruence. }
    simpl. rewrite <- (learnMove_present _ _ _ _ _ Hmb).
    apply IH. intros st. by rewrite learnMove_None.
  - rewrite decide_False.
    2:{ apply Hdom in Hmb. rewrite Hmb. by intros []. }
    assert (menace.learnMove m result boxes move = boxes) as ->
      by (unfold menace.learnMove; by rewrite Hmb).
    by apply IH.
Qed.

(** C9. When the matchbox of a traced entry is missing, [Learn] skips that
    entry and goes on with the rest of the trace: the matchboxes end as after
    [Learn] on the trace without the entry, and as after the update of the
    matchbox of each entry that has one, in the order of the trace; on a win
    or a draw every move of an existing matchbox gains the reward for each
    time the trace credits it. The trace is cleared, [GamesPlayed] is
    incremented once and so is the counter of the result, whatever was
    skipped. *)
Theorem Learn_skips_missing_matchbox (m : menace.Menace.t)
    (result : board.GameResult) (h1 h2 : list menace.MoveRecord.t)
    (r : menace.MoveRecord.t) :
  menace.Menace.MoveHistory m = h1 ++ r :: h2 →
  menace.Menace.Matchboxes m !! menace.MoveRecord.BoardState r = None →
  menace.Menace.Matchboxes (menace.Learn m result)
  = menace.Menace.Matchboxes
      (menace.Learn (menace.Menace.setMoveHistory (h1 ++ h2) m) result)
  ∧ menace.Menace.Matchboxes (menace.Learn m result)
    = fold_left (creditEntry m result)
        (presentEntries (menace.Menace.Matchboxes m) (h1 ++ r :: h2))
        (menace.Menace.Matchboxes m)
  ∧ (∀ st position count,
       beadCount m st position = Some count → goint.in_range count →
       (result = board.ResultWin →
        beadCount (menace.Learn m result) st position
        = Some (goint.wrap
                  (count + Z.of_nat (credits st position (h1 ++ r :: h2))
                           * menace.Menace.WinReward m)))
       ∧ (result = board.ResultDraw →
          beadCount (menace.Learn m result) st position
          = Some (goint.wrap
                    (count + Z.of_nat (credits st position (h1 ++ r :: h2))
                             * menace.Menace.DrawReward m))))
  ∧ menace.Menace.MoveHistory (menace.Learn m result) = []
  ∧ menace.Menace.GamesPlayed (menace.Learn m result)
    = goint.add (menace.Menace.GamesPlayed m) 1
  ∧ menace.Menace.Wins (menace.Learn m result)
    = (if decide (result = board.ResultWin)
       then goint.add (menace.Menace.Wins m) 1 else menace.Menace.Wins m)
  ∧ menace.Menace.Losses (menace.Learn m result)
    = (if decide (result = board.ResultLoss)
       then goint.add (menace.Menace.Losses m) 1 else menace.Menace.Losses m)
  ∧ menace.Menace.Draws (menace.Learn m result)
    = (if decide (result = board.ResultDraw)
       then goint.add (menace.Menace.Draws m) 1 else menace.Menace.Draws m).
Proof.
  intros Hhistory Hmissing. split; [|split; [|split; [|split]]].
  - rewrite !Learn_Matchboxes, Hhistory. simpl.
    rewrite !fold_left_app. simpl.
    assert (Hskip :
      menace.learnMove m result
        (fold_left (menace.learnMove m result) h1 (menace.Menace.Matchboxes m))
        r
      = fold_left (menace.learnMove m result) h1 (menace.Menace.Matchboxes m)).
    { unfold menace.learnMove at 1.
      by rewrite (proj2 (learn_fold_None m result h1 _ _) Hmissing). }
    rewrite Hskip. reflexivity.
  - rewrite Learn_Matchboxes, Hhistory. by apply learn_fold_present.
  - intros st position count Hcount Hrange. rewrite <- Hhistory. split.
    + intros ->. by apply Learn_win_beadCount.
    + intros ->. by apply Learn_draw_beadCount.
  - apply Learn_MoveHistory.
  - apply Learn_counters.
Qed.

Lemma Learn_skips_missing_matchbox_witness :
  menace.Menace.Matchboxes
    (menace.Learn
       (menace.Menace.setMoveHistory
          ([menace.MoveRecord.mk "_________" 0 0]
           ++ menace.MoveRecord.mk "XO_______" 4 0
           :: [menace.MoveRecord.mk "_________" 0 0]) agentAfterOpening)
       board.ResultLoss)
  = menace.Menace.Matchboxes
      (menace.Learn
         (menace.Menace.setMoveHistory
            ([menace.MoveRecord.mk "_________" 0 0]
             ++ [menace.MoveRecord.mk "_________" 0 0])
            (menace.Menace.setMoveHistory
               ([menace.MoveRecord.mk "_________" 0 0]
                ++ menace.MoveRecord.mk "XO_______" 4 0
                :: [menace.MoveRecord.mk "_________" 0 0]) agentAfterOpening))
         board.ResultLoss)
  ∧ beadCount
      (menace.Learn
         (menace.Menace.setMoveHistory
            ([menace.MoveRecord.mk "_________" 0 0]
             ++ menace.MoveRecord.mk "XO_______" 4 0
             :: [menace.MoveRecord.mk "_________" 0 0]) agentAfterOpening)
         board.ResultLoss) "_________" 0 = Some 1.
Proof.
  split; [|vm_compute; reflexivity].
  apply (Learn_skips_missing_matchbox
           (menace.Menace.setMoveHistory
              ([menace.MoveRecord.mk "_________" 0 0]
               ++ menace.MoveRecord.mk "XO_______" 4 0
               :: [menace.MoveRecord.mk "_________" 0 0]) agentAfterOpening)
           board.ResultLoss
           [menace.MoveRecord.mk "_________" 0 0]
           [menace.MoveRecord.mk "_________" 0 0]
           (menace.MoveRecord.mk "XO_______" 4 0)).
  - reflexivity.
  - vm_compute. reflexivity.
Defined.

(** ** Package menace: choice of a move *)

(** C1. On the board ["___X_____"], which [Normalize] turns by 90 degrees
    into ["_X_______"], [GetMove] creates the matchbox of the normalized
    state with the keys 0, 1, 2, 3, 4, 5, 6, 8, although the empty positions
    of the normalized state are 0, 2, 3, 4, 5, 6, 7, 8: square 1 is a key and
    holds a mark, square 7 is empty and is no key. The same matchbox then
    serves the board ["_X_______"] and yields square 1, which [MakeMove]
    refuses as occupied. The bead map is visited in the order in which its
    keys were inserted. *)
Theorem GetMove_keys_of_rotated_board :
  board.Normalize (board.mkBoard "___X_____") = Some ("_X_______"%string, 1)
  ∧ board.GetEmptyPositions (board.mkBoard "_X_______")
    = [0; 2; 3; 4; 5; 6; 7; 8]
  ∧ ∃ m1 m2 mb,
      menace.GetMove (menace.NewMenace board.PlayerO)
        (board.mkBoard "___X_____") [6; 3; 0; 4; 1; 8; 5; 2] 12
      = Some (m1, 5)
      ∧ menace.Menace.Matchboxes m1 !! "_X_______"%string = Some mb
      ∧ menace.rangeOrder (menace.Matchbox.Beads mb) [6; 3; 0; 4; 1; 8; 5; 2]
      ∧ dom (menace.Matchbox.Beads mb)
        = list_to_set [0; 1; 2; 3; 4; 5; 6; 8]
      ∧ menace.GetMove m1 (board.mkBoard "_X_______")
          [6; 3; 0; 4; 1; 8; 5; 2] 12
        = Some (m2, 1)
      ∧ board.MakeMove (board.mkBoard "_X_______") 1 board.PlayerO
        = Some (inr "position is already occupied"%string).
Proof.
  split; [vm_compute; reflexivity|]. split; [vm_compute; reflexivity|].
  destruct (menace.GetMove (menace.NewMenace board.PlayerO)
              (board.mkBoard "___X_____") [6; 3; 0; 4; 1; 8; 5; 2] 12)
    as [[m1 pos1]|] eqn:Hmove1; [|by vm_compute in Hmove1].
  destruct (menace.GetMove m1 (board.mkBoard "_X_______")
              [6; 3; 0; 4; 1; 8; 5; 2] 12)
    as [[m2 pos2]|] eqn:Hmove2;
    vm_compute in Hmove1; injection Hmove1 as <- <-;
    [|by vm_compute in Hmove2].
  vm_compute in Hmove2. injection Hmove2 as <- <-.
  do 3 eexists. split; [reflexivity|]. split; [vm_compute; reflexivity|].
  split.
  { split; [|vm_compute; reflexivity].
    apply (bool_decide_unpack _). vm_compute. exact I. }
  split; [vm_compute; reflexivity|]. split; vm_compute; reflexivity.
Qed.

(** C2. Two runs from the same new agent on the same board ["X________"]
    with the same draw choose different moves and end with different bead
    counts when [DrawBead] visits the bead map in different orders; both
    orders visit every key of the map once, and the second is the first
    started at another key. *)
Theorem GetMove_depends_on_map_order :
  menace.rangeOrder
    (menace.Matchbox.Beads
       (menace.NewMatchbox "X________" [1; 2; 3; 4; 5; 6; 7; 8] 3))
    [1; 2; 3; 4; 5; 6; 7; 8]
  ∧ menace.rangeOrder
      (menace.Matchbox.Beads
         (menace.NewMatchbox "X________" [1; 2; 3; 4; 5; 6; 7; 8] 3))
      [5; 6; 7; 8; 1; 2; 3; 4]
  ∧ ∃ m1 m2,
      menace.GetMove (menace.NewMenace board.PlayerO)
        (board.mkBoard "X________") [1; 2; 3; 4; 5; 6; 7; 8] 0 = Some (m1, 1)
      ∧ menace.GetMove (menace.NewMenace board.PlayerO)
          (board.mkBoard "X________") [5; 6; 7; 8; 1; 2; 3; 4] 0 = Some (m2, 5)
      ∧ beadCount (menace.Learn m1 board.ResultWin) "X________" 1 = Some 6
      ∧ beadCount (menace.Learn m2 board.ResultWin) "X________" 1 = Some 3.
Proof.
  split; [|split].
  - split; [|vm_compute; reflexivity].
    apply (bool_decide_unpack _). vm_compute. exact I.
  - split; [|vm_compute; reflexivity].
    apply (bool_decide_unpack _). vm_compute. exact I.
  - destruct (menace.GetMove (menace.NewMenace board.PlayerO)
                (board.mkBoard "X________") [1; 2; 3; 4; 5; 6; 7; 8] 0)
      as [[m1 pos1]|] eqn:Hmove1; [|by vm_compute in Hmove1].
    destruct (menace.GetMove (menace.NewMenace board.PlayerO)
                (board.mkBoard "X________") [5; 6; 7; 8; 1; 2; 3; 4] 0)
      as [[m2 pos2]|] eqn:Hmove2; [|by vm_compute in Hmove2].
    vm_compute in Hmove1. injection Hmove1 as <- <-.
    vm_compute in Hmove2. injection Hmove2 as <- <-.
    do 2 eexists. split; [reflexivity|]. split; [reflexivity|].
    split; vm_compute; reflexivity.
Qed.

(** ** No panic on well-formed sessions *)

Lemma get_is_Some (s : string) (n : nat) :
  (n < String.length s)%nat → is_Some (String.get n s).
Proof.
  revert n. induction s as [|c s IH]; intros n Hn; simpl in *; [lia|].
  destruct n as [|n]; [eauto|]. apply IH. lia.
Qed.

Lemma byteAt_is_Some (s : string) (i : Z) :
  0 ≤ i < Z.of_nat (String.length s) → is_Some (byteAt s i).
Proof.
  intros Hi. unfold byteAt. rewrite decide_True by lia.
  apply get_is_Some. lia.
Qed.

Lemma length_list_ascii_of_string (s : string) :
  length (String.list_ascii_of_string s) = String.length s.
Proof. induction s as [|c s IH]; simpl; [done|]. by rewrite IH. Qed.

Lemma length_string_of_list_ascii (l : list ascii) :
  String.length (String.string_of_list_ascii l) = length l.
Proof. induction l as [|c l IH]; simpl; [done|]. by rewrite IH. Qed.

Lemma setByte_is_Some (s : string) (i : Z) (c : ascii) :
  0 ≤ i < Z.of_nat (String.length s) →
  ∃ s', board.setByte s i c = Some s' ∧ String.length s' = String.length s.
Proof.
  intros Hi. unfold board.setByte, len.
  rewrite length_list_ascii_of_string, decide_True by lia.
  eexists. split; [done|].
  by rewrite length_string_of_list_ascii, length_insert,
    length_list_ascii_of_string.
Qed.

Lemma CheckWinner_total b :
  String.length (board.state b) = 9%nat → is_Some (board.CheckWinner b).
Proof.
  intros Hlen. destruct b as [st]. simpl in Hlen.
  destruct (string_length9 _ Hlen) as (c0&c1&c2&c3&c4&c5&c6&c7&c8& ->).
  unfold board.CheckWinner, board.WinningLines. simpl.
  repeat (case_decide; [eauto|]). eauto.
Qed.

Lemma IsGameOver_total b :
  String.length (board.state b) = 9%nat → is_Some (board.IsGameOver b).
Proof.
  intros Hlen. unfold board.IsGameOver.
  destruct (CheckWinner_total b Hlen) as [w ->]. simpl. eauto.
Qed.

Lemma GetResult_total b player :
  String.length (board.state b) = 9%nat →
  is_Some (board.GetResult b player).
Proof.
  intros Hlen. unfold board.GetResult.
  destruct (CheckWinner_total b Hlen) as [w ->]. simpl. eauto.
Qed.

Lemma board_MakeMove_total b position player :
  String.length (board.state b) = 9%nat →
  player = board.PlayerX ∨ player = board.PlayerO →
  ∃ made, board.MakeMove b position player = Some made
          ∧ ∀ b', made = inl b' → String.length (board.state b') = 9%nat.
Proof.
  intros Hlen Hplayer. unfold board.MakeMove.
  case_decide as Hrange; [by eexists|].
  destruct (byteAt_is_Some (board.state b) position) as [cur ->]; [lia|].
  simpl. case_decide; [by eexists|].
  assert (is_Some (byteAt player 0)) as [mark ->]
    by (destruct Hplayer as [-> | ->]; by eexists).
  simpl.
  destruct (setByte_is_Some (board.state b) position mark) as (s' & -> & Hs');
    [lia|].
  simpl. eexists. split; [done|]. intros b' [= <-]. simpl. congruence.
Qed.

Lemma emptyFrom_range i s p :
  p ∈ board.emptyFrom i s → i ≤ p < i + Z.of_nat (String.length s).
Proof.
  revert i. induction s as [|c s IH]; intros i; simpl.
  - by intros ?%elem_of_nil.
  - case_decide.
    + intros [->|Hp%IH]%elem_of_cons; lia.
    + intros Hp%IH. lia.
Qed.

Lemma Transformations_length tr :
  tr ∈ board.Transformations → length tr = 9%nat.
Proof. intros Htr. each_transformation Htr; reflexivity. Qed.

Lemma DrawBead_total m order draw : is_Some (menace.DrawBead m order draw).
Proof.
  unfold menace.DrawBead. case_decide; [eauto|]. simpl.
  case_decide as Hlen; [eauto|].
  unfold menace.Intn, len in *. rewrite decide_False by lia. simpl.
  unfold index.
  pose proof (Z.mod_pos_bound draw
    (Z.of_nat (length (menace.weightedPositions (menace.Matchbox.Beads m) order))))
    as Hmod.
  rewrite decide_True by lia. apply lookup_lt_is_Some. lia.
Qed.

Lemma GetMove_total m b order draw :
  String.length (board.state b) = 9%nat →
  is_Some (menace.GetMove m b order draw).
Proof.
  intros Hlen. unfold menace.GetMove.
  destruct (Normalize_total_length b Hlen) as [[n t] Hnorm]. rewrite Hnorm.
  simpl.
  destruct (Normalize_spec b n t Hnorm) as [(tr & Htr & _) _].
  assert (is_Some (mapM (λ pos, board.TransformPosition pos t)
                     (board.GetEmptyPositions b))) as [moves ->].
  { apply mapM_is_Some, Forall_forall. intros p Hp. simpl.
    unfold board.TransformPosition. rewrite Htr. simpl.
    apply emptyFrom_range in Hp. apply index_Some in Htr as [_ Htr].
    apply list_elem_of_lookup_2, Transformations_length in Htr.
    unfold index. rewrite decide_True by lia.
    apply lookup_lt_is_Some. lia. }
  simpl. destruct (menace.GetOrCreateMatchbox m n moves) as [m1 mb].
  match goal with
  | |- is_Some (bind (menace.DrawBead ?box order draw) _) =>
      destruct (DrawBead_total box order draw) as [pos ->]
  end.
  simpl. unfold board.InverseTransformPosition, board.inverseTransform.
  rewrite Htr. simpl. eauto.
Qed.

Lemma recordMove_total g newBoard player position now :
  wellFormed g → String.length (board.state newBoard) = 9%nat →
  ∃ g', game.recordMove g newBoard player position now = Some g'
        ∧ wellFormed g'.
Proof.
  intros [_ Hplayer] Hlen. unfold game.recordMove, game.IsOver. simpl.
  destruct (IsGameOver_total newBoard Hlen) as [[] ->]; simpl.
  - unfold game.GetResult. simpl.
    destruct (GetResult_total newBoard (game.Game.MenacePlayer g) Hlen)
      as [result ->].
    simpl. eexists. split; [done|]. by split.
  - eexists. split; [done|]. by split.
Qed.

Lemma IsOver_total g : wellFormed g → is_Some (game.IsOver g).
Proof. intros [Hlen _]. by apply IsGameOver_total. Qed.

Lemma IsMenaceTurn_total g : wellFormed g → is_Some (game.IsMenaceTurn g).
Proof.
  intros Hg. unfold game.IsMenaceTurn. case_decide; [|eauto].
  destruct (IsOver_total g Hg) as [over ->]. simpl. eauto.
Qed.

Lemma IsOpponentTurn_total g : wellFormed g → is_Some (game.IsOpponentTurn g).
Proof.
  intros Hg. unfold game.IsOpponentTurn. case_decide; [|eauto].
  destruct (IsOver_total g Hg) as [over ->]. simpl. eauto.
Qed.

Lemma OpponentMove_total g position now :
  wellFormed g →
  ∃ g' err, game.OpponentMove g position now = Some (g', err) ∧ wellFormed g'.
Proof.
  intros Hg. unfold game.OpponentMove.
  destruct (IsOver_total g Hg) as [[] ->]; simpl; [by do 2 eexists|].
  destruct (IsOpponentTurn_total g Hg) as [[] ->]; simpl; [|by do 2 eexists].
  destruct (board_MakeMove_total (game.Game.Board g) position
              (board.Other (game.Game.MenacePlayer g)))
    as ([newBoard|err] & -> & Hmade); [apply Hg| |simpl..].
  { unfold board.Other. case_decide; [by right|by left]. }
  - destruct (recordMove_total g newBoard
                (board.Other (game.Game.MenacePlayer g)) position now Hg)
      as (g' & -> & Hg'); [by apply Hmade|].
    simpl. by do 2 eexists.
  - by do 2 eexists.
Qed.

Lemma MenaceMove_total m g order draw now :
  wellFormed g →
  ∃ m' g' r, game.MenaceMove m g order draw now = Some (m', g', r)
             ∧ wellFormed g'.
Proof.
  intros Hg. unfold game.MenaceMove.
  destruct (IsOver_total g Hg) as [[] ->]; simpl; [by do 3 eexists|].
  destruct (IsMenaceTurn_total g Hg) as [[] ->]; simpl; [|by do 3 eexists].
  destruct (GetMove_total m (game.Game.Board g) order draw) as [[m1 pos] ->];
    [apply Hg|]. simpl.
  destruct (board_MakeMove_total (game.Game.Board g) pos
              (game.Game.MenacePlayer g))
    as ([newBoard|err] & -> & Hmade); [apply Hg..|simpl|simpl].
  - destruct (recordMove_total g newBoard (game.Game.MenacePlayer g) pos now Hg)
      as (g' & -> & Hg'); [by apply Hmade|].
    simpl. by do 3 eexists.
  - by do 3 eexists.
Qed.

Lemma menaceReply_total m g order draw now :
  wellFormed g →
  ∃ m' g' reply, api.menaceReply m g order draw now = Some (m', g', reply)
                 ∧ wellFormed g'.
Proof.
  intros Hg. unfold api.menaceReply.
  destruct (IsOver_total g Hg) as [over ->]. simpl.
  assert (is_Some (if negb over then game.IsMenaceTurn g else Some false))
    as [turn ->].
  { destruct over; simpl; [eauto|]. by apply IsMenaceTurn_total. }
  simpl. destruct turn; simpl; [|by do 3 eexists].
  destruct (MenaceMove_total m g order draw now Hg)
    as (m' & g' & [pos err] & -> & Hg').
  simpl. by do 3 eexists.
Qed.

Lemma moveResponse_total g position reply :
  wellFormed g → is_Some (api.moveResponse g position reply).
Proof.
  intros Hg. unfold api.moveResponse, api.getGameStatus, game.GetValidMoves,
    api.getResultType, api.getWinner.
  destruct (IsOver_total g Hg) as [over Hover]. rewrite !Hover. simpl.
  destruct (IsMenaceTurn_total g Hg) as [turn ->].
  destruct (GetResult_total (game.Game.Board g) (game.Game.MenacePlayer g))
    as [result Hresult]; [apply Hg|].
  unfold game.GetResult. rewrite Hresult.
  destruct (CheckWinner_total (game.Game.Board g)) as [winner ->];
    [apply Hg|].
  destruct over; simpl; eauto.
Qed.

Lemma playMove_total h gameID g position order draw now1 now2 :
  wellFormed g →
  is_Some (api.playMove h gameID g position order draw now1 now2).
Proof.
  intros Hg. unfold api.playMove.
  destruct (OpponentMove_total g position now1 Hg) as (g1 & err & -> & Hg1).
  simpl. destruct err as [e|]; [eauto|].
  destruct (menaceReply_total
              (game.GameManager.menace (api.Handler.gameManager h)) g1
              order draw now2 Hg1) as (m2 & g2 & reply & -> & Hg2).
  simpl. destruct (IsOver_total g2 Hg2) as [over Hover]. rewrite Hover.
  destruct (moveResponse_total g2 position reply Hg2) as [body Hbody].
  destruct over; simpl.
  - unfold game.FinishGame, api.storeGame. simpl.
    rewrite lookup_insert_eq, Hover. simpl.
    destruct (GetResult_total (game.Game.Board g2)
                (game.Game.MenacePlayer g2)) as [result Hresult];
      [apply Hg2|].
    unfold game.GetResult. rewrite Hresult. simpl. rewrite Hbody. simpl. eauto.
  - rewrite Hbody. simpl. eauto.
Qed.

Lemma MakeMove_total h gameID body order draw now1 now2 :
  (∀ g, game.GetGame (api.Handler.gameManager h) gameID = Some g →
        wellFormed g) →
  is_Some (api.MakeMove h gameID body order draw now1 now2).
Proof.
  intros Hgames. unfold api.MakeMove.
  destruct (game.GetGame (api.Handler.gameManager h) gameID) as [g|];
    [|eauto].
  specialize (Hgames g eq_refl).
  destruct (IsOver_total g Hgames) as [[] Hover]; rewrite Hover; simpl;
    [eauto|].
  destruct (IsOpponentTurn_total g Hgames) as [[] ->]; simpl; [|eauto].
  destruct body as [position|]; [|eauto].
  case_decide; [eauto|].
  unfold game.GetValidMoves. rewrite Hover. simpl.
  destruct (negb (bool_decide
                    (position ∈ board.GetEmptyPositions (game.Game.Board g))));
    [eauto|].
  by apply playMove_total.
Qed.

Lemma NewGame_wellFormed m menacePlaysFirst id now :
  wellFormed (game.NewGame m menacePlaysFirst id now).2.
Proof. split; [reflexivity|]. destruct menacePlaysFirst; simpl; eauto. Qed.

Lemma NewHandler_wellFormed : wellFormedHandler api.NewHandler.
Proof. intros id g. unfold api.NewHandler. simpl. by rewrite lookup_empty. Qed.

Lemma CreateGame_wellFormed h menacePlaysFirst id now :
  wellFormedHandler h →
  wellFormedHandler
    (api.Handler.mk
       (game.CreateGame (api.Handler.gameManager h) menacePlaysFirst id now).1).
Proof.
  intros Hh id' g. unfold game.CreateGame. simpl.
  destruct (decide (id = id')) as [<-|Hne].
  - rewrite lookup_insert_eq. intros [= <-].
    apply (NewGame_wellFormed
             (game.GameManager.menace (api.Handler.gameManager h))).
  - rewrite lookup_insert_ne by done. apply Hh.
Qed.

Lemma storeGame_wellFormed h gameID g m :
  wellFormedHandler h → wellFormed g →
  wellFormedHandler (api.storeGame h gameID g m).
Proof.
  intros Hh Hg id g'. unfold api.storeGame. simpl.
  destruct (decide (gameID = id)) as [<-|Hne].
  - rewrite lookup_insert_eq. by intros [= <-].
  - rewrite lookup_insert_ne by done. apply Hh.
Qed.

Lemma playMove_wellFormed h gameID g position order draw now1 now2 h' resp :
  wellFormedHandler h → wellFormed g →
  api.playMove h gameID g position order draw now1 now2 = Some (h', resp) →
  wellFormedHandler h'.
Proof.
  intros Hh Hg. unfold api.playMove.
  destruct (OpponentMove_total g position now1 Hg) as (g1 & err & -> & Hg1).
  simpl. destruct err as [e|].
  { intros [= <- <-]. by apply storeGame_wellFormed. }
  destruct (menaceReply_total
              (game.GameManager.menace (api.Handler.gameManager h)) g1
              order draw now2 Hg1) as (m2 & g2 & reply & -> & Hg2).
  simpl. intros (over & Hover & Hrest)%bind_Some.
  apply bind_Some in Hrest as (h2 & Hfinish & Hrest).
  apply bind_Some in Hrest as (body & _ & [= <- <-]).
  pose proof (storeGame_wellFormed h gameID g2 m2 Hh Hg2) as Hstored.
  destruct over; [|by injection Hfinish as <-].
  apply fmap_Some in Hfinish as (gm & Hfinish & ->).
  unfold game.FinishGame, api.storeGame in Hfinish. simpl in Hfinish.
  rewrite lookup_insert_eq, Hover in Hfinish. simpl in Hfinish.
  apply bind_Some in Hfinish as (result & _ & [= <-]).
  exact Hstored.
Qed.

Lemma MakeMove_wellFormed h gameID body order draw now1 now2 h' resp :
  wellFormedHandler h →
  api.MakeMove h gameID body order draw now1 now2 = Some (h', resp) →
  wellFormedHandler h'.
Proof.
  intros Hh. unfold api.MakeMove, game.GetGame.
  destruct (game.GameManager.games (api.Handler.gameManager h) !! gameID)
    as [g|] eqn:Hg; [|by intros [= <- <-]].
  intros ([] & _ & Hrest)%bind_Some; [by injection Hrest as <- <-|].
  apply bind_Some in Hrest as ([] & _ & Hrest); simpl in Hrest;
    [|by injection Hrest as <- <-].
  destruct body as [position|]; [|by injection Hrest as <- <-].
  case_decide; [by injection Hrest as <- <-|].
  apply bind_Some in Hrest as (validMoves & _ & Hrest).
  destruct (negb (bool_decide (position ∈ validMoves)));
    [by injection Hrest as <- <-|].
  apply playMove_wellFormed in Hrest; [done..|]. by apply Hh with gameID.
Qed.

(** ** Packages game and api: finished sessions *)




Lemma storeGame_same (h : api.Handler.t) (gameID : string) (g : game.Game.t) :
  game.GetGame (api.Handler.gameManager h) gameID = Some g →
  api.storeGame h gameID g (agent h) = h.
Proof.
  destruct h as [[games m]]. unfold api.storeGame, game.GetGame, agent. simpl.
  intros Hg. by rewrite insert_id.
Qed.

Lemma OpponentMove_error (g g' : game.Game.t) (position now : Z) (e : string) :
  game.OpponentMove g position now = Some (g', Some e) → g' = g.
Proof.
  unfold game.OpponentMove.
  intros ([] & _ & Hmove)%bind_Some; [by injection Hmove|].
  apply bind_Some in Hmove as ([] & _ & Hmove); simpl in Hmove;
    [|by injection Hmove].
  apply bind_Some in Hmove as ([newBoard|err] & _ & Hmove);
    [|by injection Hmove].
  by apply bind_Some in Hmove as (g1 & _ & [=]).
Qed.











(** The request that finishes the session played above, seen through its
    effect on the agent: the game is lost, and the agent after the request
    is the agent before it after one [Learn] for a loss, with one game and
    one loss counted and one bead taken from each of the two moves of the
    trace. *)
Example last_request_learns_once :
  agent sessionFinished = menace.Learn (agent sessionBeforeEnd) board.ResultLoss
  ∧ gamesPlayed sessionBeforeEnd = 0
  ∧ gamesPlayed sessionFinished = 1
  ∧ menace.Menace.Losses (agent sessionFinished) = 1
  ∧ menace.Menace.Wins (agent sessionFinished) = 0
  ∧ menace.Menace.Draws (agent sessionFinished) = 0
  ∧ menace.MoveRecord.BoardState
      <$> menace.Menace.MoveHistory (agent sessionBeforeEnd)
    = ["X________"%string; "XX__O____"%string]
  ∧ beadCount (agent sessionBeforeEnd) "X________" 4 = Some 3
  ∧ beadCount (agent sessionFinished) "X________" 4 = Some 2.
Proof. vm_compute. repeat split. Qed.

(** The handler does not hold the game between its checks and its moves,
    and [FinishGame] does not remember that it has run. Two requests for
    the session above, for the squares 2 and 5, both pass the checks of the
    handler while the game goes on. If the request for 2 is then served to
    its end, which finishes the game and runs [Learn], and the request for
    5 goes on from its call of [OpponentMove], that call returns without an
    error, the game is over, and [FinishGame] runs [Learn] again: the
    request is answered with the status 200, and two games and two losses
    are counted for the one session. *)
Example overlapping_requests_learn_twice :
  game.GetGame (api.Handler.gameManager sessionBeforeEnd) "g1" ≫= game.IsOver
  = Some false
  ∧ game.GetGame (api.Handler.gameManager sessionBeforeEnd) "g1"
    ≫= game.IsOpponentTurn = Some true
  ∧ game.GetGame (api.Handler.gameManager sessionBeforeEnd) "g1"
    ≫= game.GetValidMoves = Some [2; 5; 6; 7; 8]
  ∧ fst <$> api.MakeMove sessionBeforeEnd "g1" (Some 2) [] 0 105 106
    = Some sessionFinished
  ∧ game.GetGame (api.Handler.gameManager sessionFinished) "g1" ≫= game.IsOver
    = Some true
  ∧ accepted ∘ snd <$> lateRequest = Some true
  ∧ gamesPlayed sessionBeforeEnd = 0
  ∧ gamesPlayed sessionFinished = 1
  ∧ gamesPlayed ∘ fst <$> lateRequest = Some 2
  ∧ menace.Menace.Losses (agent sessionFinished) = 1
  ∧ menace.Menace.Losses ∘ agent ∘ fst <$> lateRequest = Some 2.
Proof. repeat split; vm_compute; reflexivity. Qed.

(** * Further properties of the code *)

(** ** board: squares and moves *)

Lemma get_list_ascii (s : string) (n : nat) :
  String.get n s = String.list_ascii_of_string s !! n.
Proof. revert n. induction s as [|c s IH]; intros [|n]; simpl; auto. Qed.

Lemma byteAt_Some_range (s : string) (i : Z) (c : ascii) :
  byteAt s i = Some c → 0 ≤ i < Z.of_nat (String.length s).
Proof.
  unfold byteAt. case_decide; [|done]. rewrite get_list_ascii.
  intros Hc%lookup_lt_Some. rewrite length_list_ascii_of_string in Hc. lia.
Qed.

Lemma setByte_byteAt (s : string) (position : Z) (c : ascii) (s' : string)
    (q : Z) :
  board.setByte s position c = Some s' →
  byteAt s' q = if decide (q = position) then Some c else byteAt s q.
Proof.
  unfold board.setByte, len. case_decide as Hp; [|done]. intros [= <-].
  unfold byteAt. rewrite !get_list_ascii.
  rewrite String.list_ascii_of_string_of_list_ascii.
  destruct (decide (q = position)) as [->|Hq].
  - rewrite decide_True by lia. apply list_lookup_insert_eq. lia.
  - case_decide; [|done]. apply list_lookup_insert_ne. lia.
Qed.

Lemma forallb_isMark_byteAt (s : string) :
  forallb board.isMark (String.list_ascii_of_string s) = true
  ↔ ∀ i c, byteAt s i = Some c → board.isMark c = true.
Proof.
  rewrite forallb_forall. split.
  - intros H i c. unfold byteAt. case_decide; [|done]. rewrite get_list_ascii.
    intros Hc. apply H, list_elem_of_In. by eapply list_elem_of_lookup_2.
  - intros H c [n Hn]%list_elem_of_In%list_elem_of_lookup.
    apply (H (Z.of_nat n)). unfold byteAt. rewrite decide_True by lia.
    by rewrite get_list_ascii, Nat2Z.id.
Qed.

Lemma validBoard_spec (b : board.Board) :
  validBoard b
  ↔ String.length (board.state b) = 9%nat
    ∧ ∀ i c, byteAt (board.state b) i = Some c → board.isMark c = true.
Proof.
  rewrite <- forallb_isMark_byteAt. unfold validBoard, board.New.
  destruct b as [st]; simpl. case_decide as Hl.
  - split; [done|]. intros [? _]. done.
  - destruct (forallb _ _); split; try done; intros [_ ?]; done.
Qed.

Lemma isMark_spec (c : ascii) :
  board.isMark c = true ↔ c = "X"%char ∨ c = "O"%char ∨ c = "_"%char.
Proof.
  unfold board.isMark. rewrite !orb_true_iff, !bool_decide_eq_true. tauto.
Qed.

Lemma GetSquare_None_byteAt (b : board.Board) (position : Z) :
  validBoard b →
  board.GetSquare b position = Some board.PlayerNone
  ↔ byteAt (board.state b) position = Some "_"%char.
Proof.
  intros [_ Hb]%validBoard_spec. unfold board.GetSquare.
  destruct (byteAt _ position) as [c|] eqn:Hc; simpl; [|done].
  apply Hb, isMark_spec in Hc as [->| [->| ->]]; simpl; split; done.
Qed.

Lemma playerMark (player : board.Player) :
  player = board.PlayerX ∨ player = board.PlayerO →
  ∃ c, byteAt player 0 = Some c ∧ (c = "X"%char ∨ c = "O"%char)
       ∧ player = String c EmptyString.
Proof. intros [->| ->]; eexists; (split; [reflexivity|]); auto. Qed.

(** X1. [MakeMove] on a valid board: a position outside 0..8 and an occupied
    square are refused with their errors; on an empty square the move gives
    a valid board that holds the mark of the player on that square and
    agrees with the old board on every other square. *)
Theorem MakeMove_places_one_mark (b : board.Board) (position : Z)
    (player : board.Player) :
  validBoard b →
  player = board.PlayerX ∨ player = board.PlayerO →
  (position < 0 ∨ position > 8 →
   board.MakeMove b position player = Some (inr "position must be 0-8"%string))
  ∧ (0 ≤ position ≤ 8 →
     board.GetSquare b position ≠ Some board.PlayerNone →
     board.MakeMove b position player
     = Some (inr "position is already occupied"%string))
  ∧ (0 ≤ position ≤ 8 →
     board.GetSquare b position = Some board.PlayerNone →
     ∃ b', board.MakeMove b position player = Some (inl b')
           ∧ validBoard b'
           ∧ board.GetSquare b' position = Some player
           ∧ ∀ q, q ≠ position →
                  board.GetSquare b' q = board.GetSquare b q).
Proof.
  intros Hb Hplayer. pose proof Hb as [Hlen Hmarks]%validBoard_spec.
  unfold board.MakeMove. split; [|split].
  - intros Hp. by rewrite decide_True.
  - intros Hp Hsq. rewrite decide_False by lia.
    destruct (byteAt_is_Some (board.state b) position) as [c Hc];
      [rewrite Hlen; lia|].
    rewrite Hc. simpl. rewrite decide_True; [done|].
    intros ->. by apply Hsq, GetSquare_None_byteAt.
  - intros Hp Hsq%GetSquare_None_byteAt; [|done].
    rewrite decide_False by lia. rewrite Hsq. simpl.
    destruct (playerMark _ Hplayer) as (c & -> & Hc & ->). simpl.
    destruct (setByte_is_Some (board.state b) position c) as (s' & Hs' & Hlen');
      [rewrite Hlen; lia|].
    rewrite Hs'. simpl. eexists. split; [done|]. split; [|split].
    + apply validBoard_spec. simpl. split.
      * by rewrite Hlen'.
      * intros i a. rewrite (setByte_byteAt _ _ _ _ i Hs').
        case_decide; [|by apply Hmarks].
        intros [= <-]. apply isMark_spec. tauto.
    + unfold board.GetSquare. simpl.
      rewrite (setByte_byteAt _ _ _ _ position Hs'), decide_True by done.
      simpl. by destruct Hc as [->| ->].
    + intros q Hq. unfold board.GetSquare. simpl.
      by rewrite (setByte_byteAt _ _ _ _ q Hs'), decide_False.
Qed.

Lemma MakeMove_places_one_mark_witness :
  ∃ b', board.MakeMove (board.mkBoard "X___O____") 8 board.PlayerX
        = Some (inl b')
        ∧ validBoard b'
        ∧ board.GetSquare b' 8 = Some board.PlayerX
        ∧ ∀ q, q ≠ 8 →
               board.GetSquare b' q
               = board.GetSquare (board.mkBoard "X___O____") q.
Proof.
  apply (MakeMove_places_one_mark (board.mkBoard "X___O____") 8 board.PlayerX);
    [reflexivity | by left | lia | reflexivity].
Defined.

Lemma emptyFrom_elem_of (i : Z) (s : string) (p : Z) :
  p ∈ board.emptyFrom i s
  ↔ i ≤ p ∧ String.get (Z.to_nat (p - i)) s = Some "_"%char.
Proof.
  revert i. induction s as [|c s IH]; intros i; simpl.
  - rewrite elem_of_nil. split; [done|]. intros [_ [=]].
  - assert (Hrest : p ∈ board.emptyFrom (i + 1) s
                    ↔ i < p ∧ String.get (Z.to_nat (p - i)) (String c s)
                              = Some "_"%char).
    { rewrite IH. split; intros [Hp Hg]; (split; [lia|]).
      - replace (Z.to_nat (p - i)) with (S (Z.to_nat (p - (i + 1)))) by lia.
        done.
      - replace (Z.to_nat (p - i)) with (S (Z.to_nat (p - (i + 1)))) in Hg
          by lia.
        done. }
    destruct (decide (p = i)) as [->|Hpi].
    + rewrite Z.sub_diag. simpl. case_decide as Hc.
      * subst c. rewrite elem_of_cons. split; [|auto]. intros _. done.
      * rewrite Hrest. split; [intros [? _]; lia|].
        intros [_ [= ?]]. done.
    + case_decide.
      * rewrite elem_of_cons, Hrest. split.
        -- intros [?|[? ?]]; [done|]. split; [lia|done].
        -- intros [? ?]. right. split; [lia|done].
      * rewrite Hrest. split; intros [? ?]; (split; [lia|done]).
Qed.

Lemma emptyFrom_increasing (i : Z) (s : string) (j k : nat) (x y : Z) :
  board.emptyFrom i s !! j = Some x → board.emptyFrom i s !! k = Some y →
  (j < k)%nat → x < y.
Proof.
  revert i j k. induction s as [|c s IH]; intros i j k; simpl; [done|].
  case_decide; [|apply IH].
  destruct j as [|j], k as [|k]; simpl; try lia.
  - intros [= <-] Hy%list_elem_of_lookup_2%emptyFrom_range _. lia.
  - intros Hx Hy ?. apply (IH (i + 1) j k); [done..|lia].
Qed.

Lemma IsFull_byteAt (b : board.Board) :
  board.IsFull b = true ↔ ∀ p, byteAt (board.state b) p ≠ Some "_"%char.
Proof.
  unfold board.IsFull. rewrite negb_true_iff.
  rewrite <- not_true_iff_false, existsb_exists. split.
  - intros H p Hp. apply H. exists "_"%char.
    split; [|by apply bool_decide_eq_true].
    unfold byteAt in Hp. case_decide; [|done]. rewrite get_list_ascii in Hp.
    apply list_elem_of_In. by eapply list_elem_of_lookup_2.
  - intros H (c & [n Hn]%list_elem_of_In%list_elem_of_lookup
                & ->%bool_decide_eq_true).
    apply (H (Z.of_nat n)). unfold byteAt. rewrite decide_True by lia.
    by rewrite get_list_ascii, Nat2Z.id.
Qed.

Lemma GetEmptyPositions_elem_of (b : board.Board) (p : Z) :
  p ∈ board.GetEmptyPositions b ↔ byteAt (board.state b) p = Some "_"%char.
Proof.
  unfold board.GetEmptyPositions. rewrite emptyFrom_elem_of.
  unfold byteAt. rewrite Z.sub_0_r. case_decide.
  - split; [intros [_ ?]; done|]. intros ?. split; [lia|done].
  - split; [intros [? _]; lia|done].
Qed.

(** X2. [GetEmptyPositions] returns the squares that hold ['_'], each once
    and in increasing order; [IsFull] says that there is none. *)
Theorem GetEmptyPositions_lists_empty_squares (b : board.Board) :
  (∀ p, p ∈ board.GetEmptyPositions b
        ↔ byteAt (board.state b) p = Some "_"%char)
  ∧ (∀ j k x y,
       board.GetEmptyPositions b !! j = Some x →
       board.GetEmptyPositions b !! k = Some y → (j < k)%nat → x < y)
  ∧ (board.IsFull b = true ↔ board.GetEmptyPositions b = []).
Proof.
  split; [apply GetEmptyPositions_elem_of|]. split.
  - apply emptyFrom_increasing.
  - rewrite IsFull_byteAt. split.
    + intros H. destruct (board.GetEmptyPositions b) as [|p l] eqn:Hl; [done|].
      destruct (H p). apply GetEmptyPositions_elem_of. rewrite Hl. left.
    + intros Hl p Hp%GetEmptyPositions_elem_of. rewrite Hl in Hp.
      by apply elem_of_nil in Hp.
Qed.

Lemma filter_all {A} (P : A → Prop) `{∀ x, Decision (P x)} (l : list A) :
  (∀ x, x ∈ l → P x) → filter P l = l.
Proof.
  induction l as [|x l IH]; intros Hl; [done|].
  rewrite filter_cons_True by (apply Hl; left).
  f_equal. apply IH. intros y Hy. apply Hl. by right.
Qed.

Lemma emptyFrom_insert (i : Z) (s : string) (n : nat) (c : ascii) :
  c ≠ "_"%char → (n < String.length s)%nat →
  board.emptyFrom i
    (String.string_of_list_ascii (<[n := c]> (String.list_ascii_of_string s)))
  = filter (λ p, p ≠ i + Z.of_nat n) (board.emptyFrom i s).
Proof.
  intros Hc. revert i n. induction s as [|a s IH]; intros i n Hn; simpl in *;
    [lia|].
  destruct n as [|n]; simpl.
  - rewrite decide_False by done.
    rewrite String.string_of_list_ascii_of_string.
    assert (Hrest : filter (λ p, p ≠ i + Z.of_nat 0) (board.emptyFrom (i + 1) s)
                    = board.emptyFrom (i + 1) s).
    { apply filter_all. intros p Hp%emptyFrom_range. lia. }
    case_decide; [|done].
    rewrite filter_cons_False by (intros ?; lia). done.
  - rewrite IH by lia.
    assert (Hfil : ∀ l : list Z, filter (λ p, p ≠ i + 1 + Z.of_nat n) l
                        = filter (λ p, p ≠ i + Z.of_nat (S n)) l).
    { intros l. apply list_filter_iff. intros p. lia. }
    rewrite Hfil. case_decide; [|done].
    rewrite filter_cons_True by lia. done.
Qed.

(** X3. A move that [MakeMove] accepts takes the played square, and nothing
    else, out of the empty positions. *)
Theorem MakeMove_removes_the_square (b b' : board.Board) (position : Z)
    (player : board.Player) :
  player = board.PlayerX ∨ player = board.PlayerO →
  board.MakeMove b position player = Some (inl b') →
  position ∈ board.GetEmptyPositions b
  ∧ board.GetEmptyPositions b'
    = filter (λ p, p ≠ position) (board.GetEmptyPositions b).
Proof.
  intros Hplayer. unfold board.MakeMove. case_decide as Hp; [done|].
  intros (cur & Hcur & Hmove)%bind_Some.
  case_decide as Hocc; [done|]. subst cur.
  destruct (playerMark _ Hplayer) as (c & Hmark & Hc & ->).
  rewrite Hmark in Hmove. simpl in Hmove.
  apply bind_Some in Hmove as (s' & Hs' & [= <-]).
  split; [by apply GetEmptyPositions_elem_of|].
  unfold board.setByte, len in Hs'. case_decide as Hr; [|done].
  injection Hs' as <-. unfold board.GetEmptyPositions. simpl.
  rewrite length_list_ascii_of_string in Hr.
  rewrite emptyFrom_insert; [|by destruct Hc as [->| ->]|lia].
  apply list_filter_iff. intros p. lia.
Qed.

Lemma MakeMove_removes_the_square_witness :
  8 ∈ board.GetEmptyPositions (board.mkBoard "X___O____")
  ∧ board.GetEmptyPositions (board.mkBoard "X___O___X")
    = filter (λ p, p ≠ 8) (board.GetEmptyPositions (board.mkBoard "X___O____")).
Proof.
  apply (MakeMove_removes_the_square (board.mkBoard "X___O____")
           (board.mkBoard "X___O___X") 8 board.PlayerX);
    [by left | reflexivity].
Defined.

(** ** board: the end of a game *)

Lemma CheckWinner_lines_spec (st : string) (lines : list (list Z))
    (w : board.Player) :
  Forall (λ line, length line = 3%nat) lines →
  board.CheckWinner_lines st lines = Some w →
  (w = board.PlayerNone
   ∧ ∀ line a, line ∈ lines → a ≠ "_"%char →
               ¬ ∀ i, i ∈ line → byteAt st i = Some a)
  ∨ (∃ line a, line ∈ lines ∧ a ≠ "_"%char
               ∧ (∀ i, i ∈ line → byteAt st i = Some a)
               ∧ w = String a EmptyString).
Proof.
  induction 1 as [|line lines Hline Hlines IH]; simpl.
  - intros [= <-]. left. split; [done|]. intros line a Hin.
    by apply elem_of_nil in Hin.
  - destruct line as [|i0 [|i1 [|i2 [|? ?]]]]; try done. clear Hline.
    unfold index at 1 2 3. simpl.
    intros (a & Ha & (c & Hc & (d & Hd & Hw)%bind_Some)%bind_Some)%bind_Some.
    case_decide as Hwin.
    + destruct Hwin as (Hne & <- & <-). injection Hw as <-. right.
      exists [i0; i1; i2], a. split; [left|]. split; [done|]. split; [|done].
      intros i. rewrite !elem_of_cons, elem_of_nil.
      intros [->|[->|[->|[]]]]; done.
    + destruct (IH Hw) as [[-> Hnone]|(line & a' & Hin & Hne & Hall & ->)].
      * left. split; [done|]. intros line a' [->|Hin]%elem_of_cons Hne Hall.
        -- apply Hwin.
           pose proof (Hall i0 ltac:(left)) as H0.
           pose proof (Hall i1 ltac:(right; left)) as H1.
           pose proof (Hall i2 ltac:(right; right; left)) as H2.
           rewrite Ha in H0. rewrite Hc in H1. rewrite Hd in H2.
           by simplify_eq.
        -- by apply (Hnone line a').
      * right. exists line, a'. split; [by right|done].
Qed.

Lemma GetSquare_mark (b : board.Board) (i : Z) (a : ascii) :
  a = "X"%char ∨ a = "O"%char →
  byteAt (board.state b) i = Some a →
  board.GetSquare b i = Some (String a EmptyString).
Proof. unfold board.GetSquare. by intros [->| ->] ->. Qed.

Lemma GetSquare_byteAt (b : board.Board) (i : Z) (p : board.Player) :
  validBoard b → p ≠ board.PlayerNone →
  board.GetSquare b i = Some p →
  ∃ a, a ≠ "_"%char ∧ byteAt (board.state b) i = Some a.
Proof.
  intros [_ Hb]%validBoard_spec Hp. unfold board.GetSquare.
  intros (a & Ha & Hsq)%bind_Some. exists a. split; [|done].
  intros ->. simpl in Hsq. by injection Hsq as <-.
Qed.

Lemma WinningLines_not_nil (line : list Z) :
  line ∈ board.WinningLines → ∃ i, i ∈ line.
Proof.
  unfold board.WinningLines. intros Hin.
  repeat (apply elem_of_cons in Hin as [->|Hin]);
    [eexists; left..|by apply elem_of_nil in Hin].
Qed.

Lemma CheckWinner_bytes (b : board.Board) :
  validBoard b →
  ∃ w, board.CheckWinner b = Some w
       ∧ ((w = board.PlayerNone
           ∧ ∀ line a, line ∈ board.WinningLines → a ≠ "_"%char →
                       ¬ ∀ i, i ∈ line → byteAt (board.state b) i = Some a)
          ∨ (∃ line a, line ∈ board.WinningLines
                       ∧ (a = "X"%char ∨ a = "O"%char)
                       ∧ (∀ i, i ∈ line → byteAt (board.state b) i = Some a)
                       ∧ w = String a EmptyString)).
Proof.
  intros Hb. pose proof Hb as [Hlen Hmarks]%validBoard_spec.
  destruct (CheckWinner_total b Hlen) as [w Hw]. exists w. split; [done|].
  unfold board.CheckWinner in Hw. apply CheckWinner_lines_spec in Hw;
    [|unfold board.WinningLines; by repeat constructor].
  destruct Hw as [?|(line & a & Hin & Hne & Hall & ->)]; [by left|right].
  exists line, a. split; [done|]. split; [|done].
  destruct (WinningLines_not_nil line Hin) as [i Hi].
  pose proof (Hmarks _ _ (Hall i Hi)) as Hm%isMark_spec.
  destruct Hm as [?|[?|?]]; [auto..|done].
Qed.

Lemma CheckWinner_player (b : board.Board) :
  validBoard b →
  ∃ w, board.CheckWinner b = Some w
       ∧ (w = board.PlayerX ∨ w = board.PlayerO ∨ w = board.PlayerNone).
Proof.
  intros (w & Hw & [[-> _]|(_ & a & _ & [->| ->] & _ & ->)])%CheckWinner_bytes;
    eauto.
Qed.

(** X4. [CheckWinner] on a valid board returns X, O or no player; a player
    it returns owns the three squares of a winning line, and it returns no
    player only if neither player owns a winning line. *)
Theorem CheckWinner_finds_a_line (b : board.Board) :
  validBoard b →
  ∃ w, board.CheckWinner b = Some w
       ∧ (w = board.PlayerX ∨ w = board.PlayerO ∨ w = board.PlayerNone)
       ∧ (w ≠ board.PlayerNone →
          ∃ line, line ∈ board.WinningLines ∧ ownsLine b line w)
       ∧ (w = board.PlayerNone →
          ∀ line p, line ∈ board.WinningLines → p ≠ board.PlayerNone →
                    ¬ ownsLine b line p).
Proof.
  intros Hb. pose proof Hb as [Hlen Hmarks]%validBoard_spec.
  destruct (CheckWinner_bytes b Hb)
    as (w & Hw & [[-> Hnone]|(line & a & Hin & Ha & Hall & ->)]);
    eexists; (split; [done|]).
  - split; [auto|]. split; [done|]. intros _ line p Hin Hp Howns.
    destruct (WinningLines_not_nil line Hin) as [i Hi].
    destruct (GetSquare_byteAt b i p Hb Hp (Howns i Hi)) as (a & Hne & Ha).
    apply (Hnone line a Hin Hne). intros j Hj.
    pose proof (Howns j Hj) as Hpj. pose proof (Howns i Hi) as Hpi.
    unfold board.GetSquare in Hpi, Hpj. rewrite Ha in Hpi. simpl in Hpi.
    apply bind_Some in Hpj as (a' & Ha' & Hpj). rewrite Ha'. f_equal.
    pose proof (Hmarks _ _ Ha) as Hm%isMark_spec.
    pose proof (Hmarks _ _ Ha') as Hm'%isMark_spec.
    destruct Hm as [->|[->| ->]], Hm' as [->|[->| ->]]; simpl in *;
      by simplify_eq.
  - split; [destruct Ha as [->| ->]; auto|]. split.
    + intros _. exists line. split; [done|]. intros i Hi.
      by apply GetSquare_mark, Hall.
    + by destruct Ha as [->| ->].
Qed.

Lemma CheckWinner_finds_a_line_witness :
  ∃ w, board.CheckWinner (board.mkBoard "OXX_OX__O") = Some w
       ∧ (w = board.PlayerX ∨ w = board.PlayerO ∨ w = board.PlayerNone)
       ∧ (w ≠ board.PlayerNone →
          ∃ line, line ∈ board.WinningLines
                  ∧ ownsLine (board.mkBoard "OXX_OX__O") line w)
       ∧ (w = board.PlayerNone →
          ∀ line p, line ∈ board.WinningLines → p ≠ board.PlayerNone →
                    ¬ ownsLine (board.mkBoard "OXX_OX__O") line p).
Proof.
  apply (CheckWinner_finds_a_line (board.mkBoard "OXX_OX__O")). reflexivity.
Defined.

(** X5. On a valid board the result for a player is one of win, loss, draw
    and in_progress; it is in_progress exactly when [IsGameOver] is false, a
    draw needs a full board, and a win of one player is a loss of the other
    and conversely. *)
Theorem GetResult_of_both_players (b : board.Board) (player : board.Player) :
  validBoard b →
  player = board.PlayerX ∨ player = board.PlayerO →
  ∃ r r' over,
    board.GetResult b player = Some r
    ∧ board.GetResult b (board.Other player) = Some r'
    ∧ board.IsGameOver b = Some over
    ∧ (r = board.ResultWin ∨ r = board.ResultLoss ∨ r = board.ResultDraw
       ∨ r = board.ResultInProgress)
    ∧ (over = false ↔ r = board.ResultInProgress)
    ∧ (r = board.ResultDraw → board.IsFull b = true)
    ∧ (r = board.ResultWin ↔ board.CheckWinner b = Some player)
    ∧ (r = board.ResultWin ↔ r' = board.ResultLoss)
    ∧ (r = board.ResultLoss ↔ r' = board.ResultWin)
    ∧ (r = board.ResultDraw ↔ r' = board.ResultDraw)
    ∧ (r = board.ResultInProgress ↔ r' = board.ResultInProgress).
Proof.
  intros Hb Hplayer. unfold board.GetResult, board.IsGameOver.
  destruct (CheckWinner_player b Hb) as (w & -> & Hw). simpl.
  do 3 eexists. do 3 (split; [done|]).
  destruct (board.IsFull b);
    destruct Hw as [->|[->| ->]], Hplayer as [->| ->]; vm_compute;
    repeat split; try tauto; try done; auto;
    try (intros [H|[H|[H|H]]]; done).
Qed.

Lemma GetResult_of_both_players_witness :
  ∃ r r' over,
    board.GetResult (board.mkBoard "OXX_OX__O") board.PlayerX = Some r
    ∧ board.GetResult (board.mkBoard "OXX_OX__O") (board.Other board.PlayerX)
      = Some r'
    ∧ board.IsGameOver (board.mkBoard "OXX_OX__O") = Some over
    ∧ (r = board.ResultWin ∨ r = board.ResultLoss ∨ r = board.ResultDraw
       ∨ r = board.ResultInProgress)
    ∧ (over = false ↔ r = board.ResultInProgress)
    ∧ (r = board.ResultDraw → board.IsFull (board.mkBoard "OXX_OX__O") = true)
    ∧ (r = board.ResultWin
       ↔ board.CheckWinner (board.mkBoard "OXX_OX__O") = Some board.PlayerX)
    ∧ (r = board.ResultWin ↔ r' = board.ResultLoss)
    ∧ (r = board.ResultLoss ↔ r' = board.ResultWin)
    ∧ (r = board.ResultDraw ↔ r' = board.ResultDraw)
    ∧ (r = board.ResultInProgress ↔ r' = board.ResultInProgress).
Proof.
  apply (GetResult_of_both_players (board.mkBoard "OXX_OX__O") board.PlayerX);
    [reflexivity | by left].
Defined.

(** ** board: the table of transformations *)

Lemma Transformations_index (t : Z) :
  0 ≤ t ≤ 7 →
  ∃ tr, index board.Transformations t = Some tr
        ∧ tr ∈ board.Transformations.
Proof.
  intros Ht.
  assert (is_Some (board.Transformations !! Z.to_nat t)) as [tr Htr].
  { apply lookup_lt_is_Some. simpl. lia. }
  exists tr. split; [apply index_Some; split; [lia|done]|].
  by apply list_elem_of_lookup_2 with (Z.to_nat t).
Qed.

Lemma applyTransform_byteAt (st : string) (tr : list Z) (image : string)
    (newPos oldPos : Z) :
  String.length st = 9%nat → tr ∈ board.Transformations →
  board.applyTransform st tr = Some image →
  index tr newPos = Some oldPos →
  byteAt image newPos = byteAt st oldPos.
Proof.
  intros Hlen Htr Himage.
  destruct (string_length9 _ Hlen) as (c0&c1&c2&c3&c4&c5&c6&c7&c8& ->).
  unfold index, byteAt. case_decide; [|done].
  generalize (Z.to_nat newPos). intros n.
  each_transformation Htr; vm_compute in Himage; injection Himage as <-;
    do 9 (destruct n as [|n]; [intros [= <-]; reflexivity|]); done.
Qed.

Lemma applyTransform_length (st : string) (tr : list Z) (image : string) :
  String.length st = 9%nat → tr ∈ board.Transformations →
  board.applyTransform st tr = Some image →
  String.length image = 9%nat.
Proof.
  intros Hlen Htr Himage.
  by destruct (variants_of_image _ _ _ Hlen Htr Himage) as [? _].
Qed.

Lemma applyTransform_validBoard (st : string) (tr : list Z) (image : string) :
  validBoard (board.mkBoard st) → tr ∈ board.Transformations →
  board.applyTransform st tr = Some image →
  validBoard (board.mkBoard image).
Proof.
  intros [Hlen Hmarks]%validBoard_spec Htr Himage. simpl in *.
  apply validBoard_spec. simpl.
  pose proof (applyTransform_length _ _ _ Hlen Htr Himage) as Hlen'.
  split; [done|]. intros i c Hc.
  pose proof (byteAt_Some_range _ _ _ Hc) as Hi. rewrite Hlen' in Hi.
  assert (is_Some (tr !! Z.to_nat i)) as [o Ho].
  { apply lookup_lt_is_Some. rewrite (Transformations_length _ Htr). lia. }
  apply (Hmarks o).
  rewrite <- (applyTransform_byteAt st tr image i o); try done.
  apply index_Some. split; [lia|done].
Qed.

(** X6. [applyTransform] with a transformation of the table moves the bytes
    of a nine-byte state as the table says, [image[newPos] =
    state[Transformations[t][newPos]]]; the image of a valid board is a
    valid board, and a transformation of the table takes the image back to
    the state. *)
Theorem applyTransform_permutes_squares (st : string) (t : Z) :
  String.length st = 9%nat → 0 ≤ t ≤ 7 →
  ∃ tr image,
    index board.Transformations t = Some tr
    ∧ board.applyTransform st tr = Some image
    ∧ String.length image = 9%nat
    ∧ (∀ newPos oldPos,
         index tr newPos = Some oldPos →
         byteAt image newPos = byteAt st oldPos)
    ∧ (validBoard (board.mkBoard st) → validBoard (board.mkBoard image))
    ∧ ∃ back, back ∈ board.Transformations
              ∧ board.applyTransform image back = Some st.
Proof.
  intros Hlen Ht. destruct (Transformations_index t Ht) as (tr & Hidx & Htr).
  destruct (applyTransform_total _ _ Hlen Htr) as [image Himage].
  exists tr, image. do 2 (split; [done|]).
  split; [by eapply applyTransform_length|].
  split; [intros ? ?; by apply applyTransform_byteAt|].
  split; [intros Hb; by eapply applyTransform_validBoard|].
  destruct (string_length9 _ Hlen) as (c0&c1&c2&c3&c4&c5&c6&c7&c8& ->).
  clear Hidx.
  each_transformation Htr; vm_compute in Himage; injection Himage as <-;
    find_transformation.
Qed.

Lemma applyTransform_permutes_squares_witness :
  ∃ tr image,
    index board.Transformations 1 = Some tr
    ∧ board.applyTransform "XO_______" tr = Some image
    ∧ String.length image = 9%nat
    ∧ (∀ newPos oldPos,
         index tr newPos = Some oldPos →
         byteAt image newPos = byteAt "XO_______" oldPos)
    ∧ (validBoard (board.mkBoard "XO_______")
       → validBoard (board.mkBoard image))
    ∧ ∃ back, back ∈ board.Transformations
              ∧ board.applyTransform image back = Some "XO_______"%string.
Proof.
  apply (applyTransform_permutes_squares "XO_______" 1); [reflexivity | lia].
Defined.

Lemma inverse_of_transformed (p t : Z) :
  0 ≤ p ≤ 8 → 0 ≤ t ≤ 7 →
  ∃ q, board.TransformPosition p t = Some q ∧ 0 ≤ q ≤ 8
       ∧ board.InverseTransformPosition q t = Some p.
Proof.
  intros Hp Ht.
  assert (Hpc : p ∈ [0; 1; 2; 3; 4; 5; 6; 7; 8]).
  { rewrite !elem_of_cons. lia. }
  assert (Htc : t ∈ [0; 1; 2; 3; 4; 5; 6; 7]).
  { rewrite !elem_of_cons. lia. }
  repeat (apply elem_of_cons in Htc as [->|Htc]);
    [..|by apply elem_of_nil in Htc];
    (repeat (apply elem_of_cons in Hpc as [->|Hpc]);
       [..|by apply elem_of_nil in Hpc]);
    eexists; (split; [vm_compute; reflexivity|]);
    (split; [lia|vm_compute; reflexivity]).
Qed.

(** X7. For every position [q] of 0..8 and every transformation index [t] of
    0..7, [InverseTransformPosition q t] is a position of 0..8 that
    [TransformPosition] with the same index takes back to [q]. *)
Theorem TransformPosition_InverseTransformPosition (q t : Z) :
  0 ≤ q ≤ 8 → 0 ≤ t ≤ 7 →
  ∃ p, board.InverseTransformPosition q t = Some p
       ∧ 0 ≤ p ≤ 8
       ∧ board.TransformPosition p t = Some q.
Proof.
  intros Hq Ht.
  assert (Hqc : q ∈ [0; 1; 2; 3; 4; 5; 6; 7; 8]).
  { rewrite !elem_of_cons. lia. }
  assert (Htc : t ∈ [0; 1; 2; 3; 4; 5; 6; 7]).
  { rewrite !elem_of_cons. lia. }
  repeat (apply elem_of_cons in Htc as [->|Htc]);
    [..|by apply elem_of_nil in Htc];
    (repeat (apply elem_of_cons in Hqc as [->|Hqc]);
       [..|by apply elem_of_nil in Hqc]);
    eexists; (split; [vm_compute; reflexivity|]);
    (split; [lia|vm_compute; reflexivity]).
Qed.

Lemma TransformPosition_InverseTransformPosition_witness :
  ∃ p, board.InverseTransformPosition 5 1 = Some p
       ∧ 0 ≤ p ≤ 8
       ∧ board.TransformPosition p 1 = Some 5.
Proof.
  apply (TransformPosition_InverseTransformPosition 5 1); lia.
Defined.

Lemma inverseTransform_loop_absent (position origPos : Z)
    (transform : list Z) :
  position ∉ transform →
  board.inverseTransform_loop position origPos transform = position.
Proof.
  revert origPos. induction transform as [|normPos rest IH]; intros origPos;
    simpl; [done|].
  rewrite not_elem_of_cons. intros [Hne Hrest].
  rewrite decide_False by done. by apply IH.
Qed.

Lemma Transformations_range (tr : list Z) (p : Z) :
  tr ∈ board.Transformations → p ∈ tr → 0 ≤ p ≤ 8.
Proof.
  intros Htr. each_transformation Htr; rewrite !elem_of_cons, elem_of_nil; lia.
Qed.

(** X8. A position outside 0..8 (such as the -1 of an empty draw) passes
    through [InverseTransformPosition] unchanged, whereas [TransformPosition]
    panics on it; with a transformation index outside 0..7 both panic. *)
Theorem positions_off_the_board (position t : Z) :
  position < 0 ∨ 8 < position →
  (0 ≤ t ≤ 7 →
   board.InverseTransformPosition position t = Some position
   ∧ board.TransformPosition position t = None)
  ∧ (t < 0 ∨ 7 < t →
     ∀ p, board.InverseTransformPosition p t = None
          ∧ board.TransformPosition p t = None).
Proof.
  intros Hpos. split.
  - intros Ht. destruct (Transformations_index t Ht) as (tr & Hidx & Htr).
    unfold board.InverseTransformPosition, board.inverseTransform,
      board.TransformPosition. rewrite Hidx. simpl. split.
    + f_equal. apply inverseTransform_loop_absent.
      intros Hin%(Transformations_range tr); [lia|done].
    + unfold index. case_decide; [|done]. apply lookup_ge_None.
      rewrite (Transformations_length _ Htr). lia.
  - intros Ht p.
    assert (Hidx : index board.Transformations t = None).
    { unfold index. case_decide; [|done]. apply lookup_ge_None. simpl. lia. }
    unfold board.InverseTransformPosition, board.inverseTransform,
      board.TransformPosition. by rewrite Hidx.
Qed.

Lemma positions_off_the_board_witness :
  board.InverseTransformPosition (-1) 3 = Some (-1)
  ∧ board.TransformPosition (-1) 3 = None.
Proof. apply (positions_off_the_board (-1) 3); lia. Defined.

(** ** board: canonical states *)

Lemma Normalize_of_image (st : string) (tr : list Z) (image n : string)
    (t1 : Z) :
  String.length st = 9%nat → tr ∈ board.Transformations →
  board.applyTransform st tr = Some image →
  board.Normalize (board.mkBoard st) = Some (n, t1) →
  ∃ t2, board.Normalize (board.mkBoard image) = Some (n, t2).
Proof.
  intros Hlen Hin Himage Hn.
  destruct (variants_of_image _ _ _ Hlen Hin Himage) as [Hlen' Hsame].
  destruct (Normalize_total_length (board.mkBoard image) Hlen')
    as [[n' t2] Hn'].
  exists t2. rewrite Hn'. f_equal. f_equal.
  destruct (Normalize_spec _ _ _ Hn) as [(tr1 & Htr1 & Hv1) Hleast1].
  destruct (Normalize_spec _ _ _ Hn') as [(tr2 & Htr2 & Hv2) Hleast2].
  simpl in *.
  apply index_Some in Htr1 as [? Htr1]. apply index_Some in Htr2 as [? Htr2].
  destruct (proj1 (Hsame n')) as (tr3 & [k3 Hk3]%list_elem_of_lookup & Hv3).
  { exists tr2.
    split; [by apply list_elem_of_lookup_2 with (Z.to_nat t2)|done]. }
  destruct (proj2 (Hsame n)) as (tr4 & [k4 Hk4]%list_elem_of_lookup & Hv4).
  { exists tr1.
    split; [by apply list_elem_of_lookup_2 with (Z.to_nat t1)|done]. }
  symmetry. apply ltb_antisym.
  - eapply proj1, (Hleast2 (Z.of_nat k4) tr4 n); [|done].
    apply index_Some. rewrite Nat2Z.id. split; [lia|done].
  - eapply proj1, (Hleast1 (Z.of_nat k3) tr3 n'); [|done].
    apply index_Some. rewrite Nat2Z.id. split; [lia|done].
Qed.

Lemma applyTransform_identity (st : string) :
  String.length st = 9%nat →
  board.applyTransform st [0; 1; 2; 3; 4; 5; 6; 7; 8] = Some st.
Proof.
  intros Hlen.
  destruct (string_length9 _ Hlen) as (c0&c1&c2&c3&c4&c5&c6&c7&c8& ->).
  reflexivity.
Qed.

Lemma Normalize_canonical (b : board.Board) (n : string) (t : Z) :
  String.length (board.state b) = 9%nat →
  board.Normalize b = Some (n, t) →
  String.length n = 9%nat ∧ 0 ≤ t ≤ 7
  ∧ board.Normalize (board.mkBoard n) = Some (n, 0).
Proof.
  intros Hlen Hn. destruct b as [st]. simpl in Hlen.
  destruct (Normalize_spec _ _ _ Hn) as [(tr & Hidx & Himage) _].
  simpl in Himage.
  assert (Htr : tr ∈ board.Transformations).
  { apply index_Some in Hidx as [_ Hidx]. by eapply list_elem_of_lookup_2. }
  pose proof (applyTransform_length _ _ _ Hlen Htr Himage) as Hlen'.
  split; [done|]. split.
  { apply index_Some in Hidx as [? Hidx%lookup_lt_Some]. simpl in Hidx. lia. }
  destruct (Normalize_of_image _ _ _ _ _ Hlen Htr Himage Hn) as [t2 Hn2].
  rewrite Hn2. do 2 f_equal.
  destruct (Normalize_spec _ _ _ Hn2) as [(tr2 & Hidx2 & _) Hleast].
  apply index_Some in Hidx2 as [Ht2 _].
  destruct (decide (t2 = 0)) as [|Hne]; [done|].
  destruct (Hleast 0 [0; 1; 2; 3; 4; 5; 6; 7; 8] n) as [_ Hlt];
    [reflexivity|by apply applyTransform_identity|].
  rewrite ltb_irrefl in Hlt. discriminate Hlt. lia.
Qed.

(** X9. The state that [Normalize] returns for a valid board is a valid
    board that is its own canonical form: [Normalize] returns it unchanged,
    with the identity as transformation. *)
Theorem Normalize_idempotent (b : board.Board) (n : string) (t : Z) :
  validBoard b →
  board.Normalize b = Some (n, t) →
  validBoard (board.mkBoard n)
  ∧ board.Normalize (board.mkBoard n) = Some (n, 0).
Proof.
  intros Hb Hn. pose proof (validBoard_length b Hb) as Hlen.
  split; [|by eapply Normalize_canonical].
  destruct (Normalize_spec _ _ _ Hn) as [(tr & Hidx & Himage) _].
  apply (applyTransform_validBoard (board.state b) tr); [by destruct b| |done].
  apply index_Some in Hidx as [_ Hidx]. by eapply list_elem_of_lookup_2.
Qed.

Lemma Normalize_idempotent_witness :
  validBoard (board.mkBoard "_X_______")
  ∧ board.Normalize (board.mkBoard "_X_______") = Some ("_X_______"%string, 0).
Proof.
  apply (Normalize_idempotent (board.mkBoard "___X_____") "_X_______" 1);
    [reflexivity | vm_compute; reflexivity].
Defined.

(** ** menace: matchboxes *)

Lemma NewMatchbox_fold (validMoves : list Z) (initialBeads : Z)
    (beads : gmap Z Z) (position : Z) :
  fold_left (λ beads pos, <[pos := initialBeads]> beads) validMoves beads
    !! position
  = if decide (position ∈ validMoves) then Some initialBeads
    else beads !! position.
Proof.
  revert beads. induction validMoves as [|pos rest IH]; intros beads;
    cbn [fold_left].
  - rewrite decide_False; [done|]. apply not_elem_of_nil.
  - rewrite IH. destruct (decide (position = pos)) as [->|Hne].
    + rewrite (decide_True (P := pos ∈ pos :: rest)) by left.
      case_decide; [done|]. by rewrite lookup_insert_eq.
    + rewrite lookup_insert_ne by done.
      destruct (decide (position ∈ rest)) as [Hin|Hout].
      * rewrite decide_True; [done|]. by right.
      * rewrite decide_False; [done|]. rewrite not_elem_of_cons. done.
Qed.

(** X10. A new matchbox lists exactly the moves it is given, each with the
    initial number of beads (a move given twice is listed once); it keeps
    the state it is made for and has not been used. *)
Theorem NewMatchbox_lists_the_moves (boardState : string)
    (validMoves : list Z) (initialBeads : Z) :
  (∀ position,
     menace.Matchbox.Beads
       (menace.NewMatchbox boardState validMoves initialBeads) !! position
     = if decide (position ∈ validMoves) then Some initialBeads else None)
  ∧ dom (menace.Matchbox.Beads
           (menace.NewMatchbox boardState validMoves initialBeads))
    = list_to_set validMoves
  ∧ menace.Matchbox.BoardState
      (menace.NewMatchbox boardState validMoves initialBeads) = boardState
  ∧ menace.Matchbox.TimesUsed
      (menace.NewMatchbox boardState validMoves initialBeads) = 0.
Proof.
  assert (Hlook : ∀ position,
    menace.Matchbox.Beads
      (menace.NewMatchbox boardState validMoves initialBeads) !! position
    = if decide (position ∈ validMoves) then Some initialBeads else None).
  { intros position. unfold menace.NewMatchbox. simpl.
    rewrite NewMatchbox_fold. by rewrite lookup_empty. }
  split; [done|]. split; [|done].
  apply set_eq. intros position.
  rewrite elem_of_dom, Hlook, elem_of_list_to_set.
  case_decide; split; (done || eauto).
Qed.

Lemma wrap_add_r (a b : Z) : goint.wrap (a + goint.wrap b) = goint.wrap (a + b).
Proof. rewrite (Z.add_comm a), wrap_add_l. f_equal. lia. Qed.

Lemma GetTotalBeads_insert (beads : gmap Z Z) (position count : Z) :
  beads !! position = None →
  map_fold (λ _ count total, goint.add total count) 0
    (<[position := count]> beads)
  = goint.add (map_fold (λ _ count total, goint.add total count) 0 beads)
      count.
Proof.
  intros Hnone.
  apply (map_fold_insert_L (λ _ count total, goint.add total count));
    [|done].
  intros _ _ z1 z2 y _ _ _. unfold goint.add.
  rewrite !wrap_add_l. f_equal. lia.
Qed.

(** X11. [GetTotalBeads] after [AddBeads] on a listed move is the total of
    before plus the count added, in the arithmetic of [int]; on a move that
    is not listed the total does not change. *)
Theorem AddBeads_adds_to_the_total (m : menace.Matchbox.t)
    (position count : Z) :
  menace.GetTotalBeads (menace.AddBeads m position count)
  = if decide (is_Some (menace.Matchbox.Beads m !! position))
    then goint.add (menace.GetTotalBeads m) count
    else menace.GetTotalBeads m.
Proof.
  unfold menace.AddBeads.
  destruct (menace.Matchbox.Beads m !! position) as [current|] eqn:Hcur.
  - rewrite decide_True by eauto. unfold menace.GetTotalBeads. simpl.
    rewrite <- (insert_delete_id (menace.Matchbox.Beads m) position current)
      at 2 by done.
    rewrite <- insert_delete_eq.
    rewrite !GetTotalBeads_insert by apply lookup_delete_eq.
    unfold goint.add. rewrite wrap_add_r, wrap_add_l. f_equal. lia.
  - rewrite decide_False; [done|]. by intros [? ?].
Qed.

(** ** menace: the draw *)

Lemma weightedPositions_elem_of (beads : gmap Z Z) (order : list Z) (p : Z) :
  p ∈ menace.weightedPositions beads order
  ↔ p ∈ order ∧ ∃ c, beads !! p = Some c ∧ 0 < c.
Proof.
  unfold menace.weightedPositions.
  induction order as [|q order IH]; simpl.
  - rewrite !elem_of_nil. tauto.
  - rewrite elem_of_app, elem_of_replicate, IH, elem_of_cons. split.
    + intros [[-> Hn]|[Hin Hc]].
      * split; [by left|]. destruct (beads !! q) as [c|]; simpl in Hn; [|done].
        exists c. split; [done|lia].
      * split; [by right|done].
    + intros [[->|Hin] (c & Hc & Hpos)].
      * left. split; [done|]. rewrite Hc. simpl. lia.
      * right. split; [done|]. eauto.
Qed.

Lemma DrawBead_spec (m : menace.Matchbox.t) (order : list Z) (draw p : Z) :
  menace.DrawBead m order draw = Some p →
  (p ∈ order ∧ ∃ c, menace.Matchbox.Beads m !! p = Some c ∧ 0 < c)
  ∨ (p = -1
     ∧ ∀ k c, k ∈ order → menace.Matchbox.Beads m !! k = Some c → c ≤ 0).
Proof.
  unfold menace.DrawBead. case_decide as Hsize.
  - intros [= <-]. right. split; [done|]. intros k c _.
    apply map_size_empty_iff in Hsize. rewrite Hsize. by rewrite lookup_empty.
  - simpl. case_decide as Hlen.
    + intros [= <-]. right. split; [done|]. intros k c Hk Hc.
      destruct (decide (c ≤ 0)) as [|Hpos]; [done|].
      assert (Hin : k ∈ menace.weightedPositions (menace.Matchbox.Beads m)
                          order).
      { apply weightedPositions_elem_of. split; [done|]. exists c.
        split; [done|lia]. }
      unfold len in Hlen.
      destruct (menace.weightedPositions (menace.Matchbox.Beads m) order);
        [by apply elem_of_nil in Hin|simpl in Hlen; lia].
    + intros (i & _ & [_ Hp]%index_Some)%bind_Some. left.
      apply weightedPositions_elem_of.
      by apply list_elem_of_lookup_2 with (Z.to_nat i).
Qed.

(** X12. [DrawBead] never panics. For a visiting order of the bead map, it
    returns a listed move that has at least one bead, or -1 where no listed
    move has a bead (an empty map among them). *)
Theorem DrawBead_draws_a_bead (m : menace.Matchbox.t) (order : list Z)
    (draw : Z) :
  menace.rangeOrder (menace.Matchbox.Beads m) order →
  ∃ p, menace.DrawBead m order draw = Some p
       ∧ ((∃ c, menace.Matchbox.Beads m !! p = Some c ∧ 0 < c)
          ∨ (p = -1
             ∧ ∀ k c, menace.Matchbox.Beads m !! k = Some c → c ≤ 0)).
Proof.
  intros [_ Horder]. destruct (DrawBead_total m order draw) as [p Hp].
  exists p. split; [done|].
  destruct (DrawBead_spec _ _ _ _ Hp) as [[_ Hc]|[-> Hnone]]; [by left|right].
  split; [done|]. intros k c Hc. apply (Hnone k); [|done].
  apply (elem_of_list_to_set (C := gset Z)). rewrite Horder.
  apply elem_of_dom. eauto.
Qed.

Lemma DrawBead_draws_a_bead_witness :
  ∃ p, menace.DrawBead (menace.NewMatchbox "_________" [0; 4] 3) [4; 0] 4
       = Some p
       ∧ ((∃ c, menace.Matchbox.Beads
                  (menace.NewMatchbox "_________" [0; 4] 3) !! p = Some c
                ∧ 0 < c)
          ∨ (p = -1
             ∧ ∀ k c, menace.Matchbox.Beads
                        (menace.NewMatchbox "_________" [0; 4] 3) !! k = Some c
                      → c ≤ 0)).
Proof.
  apply (DrawBead_draws_a_bead (menace.NewMatchbox "_________" [0; 4] 3)
           [4; 0] 4).
  split; [|vm_compute; reflexivity].
  apply (bool_decide_unpack _). vm_compute. exact I.
Defined.

(** ** menace: the move *)

Lemma mapM_elem_of {A B} (f : A → option B) (l : list A) (k : list B) (y : B) :
  mapM f l = Some k → y ∈ k → ∃ x, x ∈ l ∧ f x = Some y.
Proof.
  intros Hk%mapM_Some. induction Hk as [|x z l k Hx Hk IH].
  - intros Hy. by apply elem_of_nil in Hy.
  - intros [->|Hy]%elem_of_cons.
    + exists x. split; [left|done].
    + destruct (IH Hy) as (x' & Hin & Hx'). exists x'. split; [by right|done].
Qed.

Lemma MakeMove_empty_square (b : board.Board) (position : Z)
    (player : board.Player) :
  String.length (board.state b) = 9%nat →
  position ∈ board.GetEmptyPositions b →
  player = board.PlayerX ∨ player = board.PlayerO →
  ∃ b', board.MakeMove b position player = Some (inl b').
Proof.
  intros Hlen Hin Hplayer.
  pose proof (emptyFrom_range _ _ _ Hin) as Hp. rewrite Hlen in Hp.
  apply GetEmptyPositions_elem_of in Hin.
  unfold board.MakeMove. rewrite decide_False by lia. rewrite Hin. simpl.
  destruct (playerMark _ Hplayer) as (c & -> & _ & _). simpl.
  destruct (setByte_is_Some (board.state b) position c) as (s' & -> & _);
    [lia|].
  simpl. eauto.
Qed.

(** X13. The first move for a state. On a board of nine squares that is not
    full and whose canonical state has no matchbox yet, an agent with a
    positive number of initial beads returns an empty square of the board,
    whatever the draw, and [MakeMove] accepts it. *)
Theorem GetMove_first_visit_is_legal (m : menace.Menace.t) (b : board.Board)
    (order : list Z) (draw : Z) (n : string) (t : Z) :
  String.length (board.state b) = 9%nat →
  board.GetEmptyPositions b ≠ [] →
  board.Normalize b = Some (n, t) →
  menace.Menace.Matchboxes m !! n = None →
  0 < menace.Menace.InitialBeads m →
  (∀ moves,
     mapM (λ p, board.TransformPosition p t) (board.GetEmptyPositions b)
     = Some moves →
     menace.rangeOrder
       (menace.Matchbox.Beads
          (menace.NewMatchbox n moves (menace.Menace.InitialBeads m))) order) →
  ∃ m' pos,
    menace.GetMove m b order draw = Some (m', pos)
    ∧ pos ∈ board.GetEmptyPositions b
    ∧ ∀ player, player = board.PlayerX ∨ player = board.PlayerO →
                ∃ b', board.MakeMove b pos player = Some (inl b').
Proof.
  intros Hlen Hopen Hnorm Hnew Hinit Horder.
  destruct (GetMove_total m b order draw Hlen) as [[m' pos] Hmove].
  exists m', pos. split; [done|].
  apply GetMove_spec in Hmove
    as (n' & t' & moves & mb & npos & Hnorm' & Hmoves & Hmb & Hdraw & Hinv & _).
  rewrite Hnorm in Hnorm'. injection Hnorm' as <- <-.
  rewrite Hnew in Hmb. simpl in Hmb.
  destruct (Horder moves Hmoves) as [_ Hdom].
  assert (Hkeys : ∀ k, menace.Matchbox.Beads mb !! k
                       = if decide (k ∈ moves)
                         then Some (menace.Menace.InitialBeads m) else None).
  { intros k. rewrite Hmb. unfold menace.NewMatchbox. simpl.
    rewrite NewMatchbox_fold. by rewrite lookup_empty. }
  assert (Hlegal : pos ∈ board.GetEmptyPositions b).
  { destruct (DrawBead_spec _ _ _ _ Hdraw)
      as [[_ (c & Hc & _)]|[_ Hnone]].
    - rewrite Hkeys in Hc. case_decide as Hin; [|done].
      destruct (mapM_elem_of _ _ _ _ Hmoves Hin) as (p & Hp & Hq).
      pose proof (emptyFrom_range _ _ _ Hp) as Hrange. rewrite Hlen in Hrange.
      destruct (Normalize_canonical b n t Hlen Hnorm) as (_ & Ht & _).
      destruct (inverse_of_transformed p t) as (q & Hq' & _ & Hback);
        [lia|done|].
      rewrite Hq in Hq'. injection Hq' as <-.
      rewrite Hinv in Hback. by injection Hback as <-.
    - destruct moves as [|k moves].
      { apply mapM_Some, Forall2_nil_inv_r in Hmoves. done. }
      assert (Hk : k ∈ order).
      { apply (elem_of_list_to_set (C := gset Z)). rewrite Hdom, <- Hmb.
        apply elem_of_dom. rewrite Hkeys, decide_True by left. eauto. }
      specialize (Hnone k (menace.Menace.InitialBeads m) Hk).
      rewrite Hkeys, decide_True in Hnone by left. specialize (Hnone eq_refl).
      lia. }
  split; [done|]. intros player Hplayer. by apply MakeMove_empty_square.
Qed.

Lemma GetMove_first_visit_is_legal_witness :
  ∃ m' pos,
    menace.GetMove (menace.NewMenace board.PlayerO)
      (board.mkBoard "___X_____") [6; 3; 0; 4; 1; 8; 5; 2] 12 = Some (m', pos)
    ∧ pos ∈ board.GetEmptyPositions (board.mkBoard "___X_____")
    ∧ ∀ player, player = board.PlayerX ∨ player = board.PlayerO →
                ∃ b', board.MakeMove (board.mkBoard "___X_____") pos player
                      = Some (inl b').
Proof.
  apply (GetMove_first_visit_is_legal (menace.NewMenace board.PlayerO)
           (board.mkBoard "___X_____") [6; 3; 0; 4; 1; 8; 5; 2] 12
           "_X_______" 1).
  - reflexivity.
  - vm_compute. discriminate.
  - vm_compute. reflexivity.
  - reflexivity.
  - simpl. lia.
  - intros moves Hmoves. vm_compute in Hmoves. injection Hmoves as <-.
    split; [|vm_compute; reflexivity].
    apply (bool_decide_unpack _). vm_compute. exact I.
Defined.

(** X14. What a call of [GetMove] leaves unchanged: the matchboxes of all
    other states, the beads of the matchbox it draws from if that existed
    (its use count goes up by one), the counters of games, the snapshots and
    the parameters of learning; the trace grows by the one record of the
    move, whose position [InverseTransformPosition] turns into the move
    returned. *)
Theorem GetMove_touches_one_matchbox (m m' : menace.Menace.t)
    (b : board.Board) (order : list Z) (draw pos : Z) :
  menace.GetMove m b order draw = Some (m', pos) →
  ∃ n t normalizedPos,
    board.Normalize b = Some (n, t)
    ∧ menace.Menace.MoveHistory m'
      = menace.Menace.MoveHistory m ++ [menace.MoveRecord.mk n normalizedPos t]
    ∧ board.InverseTransformPosition normalizedPos t = Some pos
    ∧ (∀ st, st ≠ n →
             menace.Menace.Matchboxes m' !! st
             = menace.Menace.Matchboxes m !! st)
    ∧ is_Some (menace.Menace.Matchboxes m' !! n)
    ∧ (∀ mb, menace.Menace.Matchboxes m !! n = Some mb →
             menace.Menace.Matchboxes m' !! n
             = Some (menace.Matchbox.mk (menace.Matchbox.BoardState mb)
                       (menace.Matchbox.Beads mb)
                       (goint.add (menace.Matchbox.TimesUsed mb) 1)))
    ∧ menace.Menace.setMoveHistory (menace.Menace.MoveHistory m)
        (menace.Menace.setMatchboxes (menace.Menace.Matchboxes m) m')
      = m.
Proof.
  unfold menace.GetMove.
  intros ([n t] & Hnorm & Hrest)%bind_Some.
  apply bind_Some in Hrest as (moves & Hmoves & Hrest).
  destruct (menace.GetOrCreateMatchbox m n moves) as [m1 mb] eqn:Hget.
  apply bind_Some in Hrest as (normalizedPos & Hdraw & Hrest).
  apply bind_Some in Hrest as (originalPos & Hinv & [= <- <-]).
  exists n, t, normalizedPos. split; [done|].
  unfold menace.GetOrCreateMatchbox in Hget.
  destruct (menace.Menace.Matchboxes m !! n) as [mb0|] eqn:Hmb0;
    injection Hget as <- <-; simpl.
  - split; [done|]. split; [done|].
    split; [intros st Hst; by rewrite lookup_insert_ne|].
    rewrite lookup_insert_eq. split; [eauto|].
    split; [by intros ? [= <-]|]. by destruct m.
  - split; [done|]. split; [done|].
    split; [intros st Hst; by rewrite !lookup_insert_ne|].
    rewrite lookup_insert_eq. split; [eauto|].
    split; [done|]. by destruct m.
Qed.

Lemma GetMove_touches_one_matchbox_witness :
  ∃ n t normalizedPos,
    board.Normalize board.NewEmpty = Some (n, t)
    ∧ menace.Menace.MoveHistory agentAfterOpening
      = menace.Menace.MoveHistory (menace.NewMenace board.PlayerX)
        ++ [menace.MoveRecord.mk n normalizedPos t]
    ∧ board.InverseTransformPosition normalizedPos t = Some 0
    ∧ (∀ st, st ≠ n →
             menace.Menace.Matchboxes agentAfterOpening !! st
             = menace.Menace.Matchboxes (menace.NewMenace board.PlayerX) !! st)
    ∧ is_Some (menace.Menace.Matchboxes agentAfterOpening !! n)
    ∧ (∀ mb, menace.Menace.Matchboxes (menace.NewMenace board.PlayerX) !! n
             = Some mb →
             menace.Menace.Matchboxes agentAfterOpening !! n
             = Some (menace.Matchbox.mk (menace.Matchbox.BoardState mb)
                       (menace.Matchbox.Beads mb)
                       (goint.add (menace.Matchbox.TimesUsed mb) 1)))
    ∧ menace.Menace.setMoveHistory
        (menace.Menace.MoveHistory (menace.NewMenace board.PlayerX))
        (menace.Menace.setMatchboxes
           (menace.Menace.Matchboxes (menace.NewMenace board.PlayerX))
           agentAfterOpening)
      = menace.NewMenace board.PlayerX.
Proof.
  apply (GetMove_touches_one_matchbox (menace.NewMenace board.PlayerX)
           agentAfterOpening board.NewEmpty openingOrder 0 0).
  vm_compute. reflexivity.
Defined.

(** ** menace: what learning keeps *)

Lemma AddBeads_sameMoves (mb : menace.Matchbox.t) (position count : Z) :
  sameMoves mb (menace.AddBeads mb position count).
Proof.
  unfold menace.AddBeads, sameMoves.
  destruct (menace.Matchbox.Beads mb !! position) as [c|] eqn:Hc; [|done].
  simpl. split; [|done]. apply dom_insert_lookup_L. eauto.
Qed.

Lemma RemoveBeads_sameMoves (mb : menace.Matchbox.t)
    (position count minBeads : Z) :
  sameMoves mb (menace.RemoveBeads mb position count minBeads).
Proof.
  unfold menace.RemoveBeads, sameMoves.
  destruct (menace.Matchbox.Beads mb !! position) as [c|] eqn:Hc; [|done].
  simpl. split; [|done]. apply dom_insert_lookup_L. eauto.
Qed.

Lemma learnMove_lookup (m : menace.Menace.t) (result : board.GameResult)
    (boxes : gmap string menace.Matchbox.t) (move : menace.MoveRecord.t)
    (st : string) :
  menace.learnMove m result boxes move !! st
  = if decide (st = menace.MoveRecord.BoardState move)
    then (λ mb, applyResult m result mb (menace.MoveRecord.Position move))
           <$> boxes !! st
    else boxes !! st.
Proof.
  unfold menace.learnMove, applyResult.
  destruct (decide (st = menace.MoveRecord.BoardState move)) as [->|Hne].
  - destruct (boxes !! menace.MoveRecord.BoardState move) as [mb|] eqn:Hmb;
      [|by rewrite Hmb].
    repeat case_decide; rewrite ?lookup_insert_eq, ?Hmb; done.
  - destruct (boxes !! menace.MoveRecord.BoardState move) as [mb|]; [|done].
    repeat case_decide; rewrite ?lookup_insert_ne by done; done.
Qed.

Lemma applyResult_sameMoves (m : menace.Menace.t) (result : board.GameResult)
    (mb : menace.Matchbox.t) (position : Z) :
  sameMoves mb (applyResult m result mb position).
Proof.
  unfold applyResult. repeat case_decide;
    auto using AddBeads_sameMoves, RemoveBeads_sameMoves.
  by unfold sameMoves.
Qed.

Lemma learn_fold_sameMoves (m : menace.Menace.t) (result : board.GameResult)
    (trace : list menace.MoveRecord.t)
    (boxes : gmap string menace.Matchbox.t) (st : string)
    (mb : menace.Matchbox.t) :
  boxes !! st = Some mb →
  ∃ mb', fold_left (menace.learnMove m result) trace boxes !! st = Some mb'
         ∧ sameMoves mb mb'.
Proof.
  revert boxes mb. induction trace as [|move trace IH]; intros boxes mb Hmb;
    simpl.
  - exists mb. split; [done|]. by unfold sameMoves.
  - destruct (IH (menace.learnMove m result boxes move)
                (if decide (st = menace.MoveRecord.BoardState move)
                 then applyResult m result mb (menace.MoveRecord.Position move)
                 else mb)) as (mb' & Hmb' & Hsame).
    { rewrite learnMove_lookup, Hmb. by case_decide. }
    exists mb'. split; [done|]. case_decide; [|done].
    pose proof (applyResult_sameMoves m result mb
                  (menace.MoveRecord.Position move)) as (H1 & H2 & H3).
    destruct Hsame as (H4 & H5 & H6). unfold sameMoves.
    rewrite H4, H5, H6. done.
Qed.

Lemma applyResult_other (m : menace.Menace.t) (result : board.GameResult)
    (mb : menace.Matchbox.t) (position q : Z) :
  q ≠ position →
  menace.Matchbox.Beads (applyResult m result mb position) !! q
  = menace.Matchbox.Beads mb !! q.
Proof.
  intros Hq. unfold applyResult.
  repeat case_decide;
    rewrite ?AddBeads_lookup, ?RemoveBeads_lookup, ?decide_False by done; done.
Qed.

Lemma learnMove_beadsIn_other (m : menace.Menace.t)
    (result : board.GameResult) (boxes : gmap string menace.Matchbox.t)
    (move : menace.MoveRecord.t) (st : string) (position : Z) :
  ¬ (menace.MoveRecord.BoardState move = st
     ∧ menace.MoveRecord.Position move = position) →
  beadsIn (menace.learnMove m result boxes move) st position
  = beadsIn boxes st position.
Proof.
  intros Hne. unfold beadsIn. rewrite learnMove_lookup.
  case_decide as Hst; [|done]. destruct (boxes !! st) as [mb|]; [|done].
  simpl. apply applyResult_other. intros ->. by apply Hne.
Qed.

Lemma credits_zero_cons (st : string) (position : Z)
    (move : menace.MoveRecord.t) (rest : list menace.MoveRecord.t) :
  credits st position (move :: rest) = 0%nat →
  ¬ (menace.MoveRecord.BoardState move = st
     ∧ menace.MoveRecord.Position move = position)
  ∧ credits st position rest = 0%nat.
Proof.
  rewrite credits_cons. case_decide; [lia|]. intros ?. split; [done|lia].
Qed.

Lemma learn_fold_uncredited (m : menace.Menace.t) (result : board.GameResult)
    (trace : list menace.MoveRecord.t)
    (boxes : gmap string menace.Matchbox.t) (st : string) (position : Z) :
  credits st position trace = 0%nat →
  beadsIn (fold_left (menace.learnMove m result) trace boxes) st position
  = beadsIn boxes st position.
Proof.
  revert boxes. induction trace as [|move trace IH]; intros boxes; [done|].
  intros [Hne Hrest]%credits_zero_cons. simpl.
  rewrite IH by done. by apply learnMove_beadsIn_other.
Qed.

(** X15. [Learn] creates and deletes nothing: the same states have a
    matchbox before and after, and a matchbox keeps its listed moves, its
    state and its use count, whatever the result and the trace. *)
Theorem Learn_keeps_the_moves (m : menace.Menace.t)
    (result : board.GameResult) (st : string) :
  match menace.Menace.Matchboxes m !! st with
  | None => menace.Menace.Matchboxes (menace.Learn m result) !! st = None
  | Some mb =>
      ∃ mb', menace.Menace.Matchboxes (menace.Learn m result) !! st = Some mb'
             ∧ sameMoves mb mb'
  end.
Proof.
  rewrite Learn_Matchboxes.
  destruct (menace.Menace.Matchboxes m !! st) as [mb|] eqn:Hmb.
  - by apply learn_fold_sameMoves.
  - by apply learn_fold_None.
Qed.

(** X16. [Learn] changes the bead count of no move that the trace of the
    game does not credit. *)
Theorem Learn_leaves_uncredited_moves (m : menace.Menace.t)
    (result : board.GameResult) (st : string) (position : Z) :
  credits st position (menace.Menace.MoveHistory m) = 0%nat →
  beadCount (menace.Learn m result) st position = beadCount m st position.
Proof.
  intros Hcredits. unfold beadCount. rewrite Learn_Matchboxes.
  by apply (learn_fold_uncredited m result).
Qed.

Lemma Learn_leaves_uncredited_moves_witness :
  beadCount (menace.Learn agentAfterOpening board.ResultLoss) "_________" 4
  = beadCount agentAfterOpening "_________" 4.
Proof.
  apply (Learn_leaves_uncredited_moves agentAfterOpening board.ResultLoss).
  vm_compute. reflexivity.
Defined.

Lemma applyResult_loss_floor (m : menace.Menace.t) (mb : menace.Matchbox.t)
    (position c : Z) :
  menace.Matchbox.Beads (applyResult m board.ResultLoss mb position)
    !! position = Some c →
  menace.Menace.MinBeads m ≤ c.
Proof. unfold applyResult. simpl. apply RemoveBeads_floor. Qed.

Lemma learn_fold_loss_floor (m : menace.Menace.t)
    (trace : list menace.MoveRecord.t)
    (boxes : gmap string menace.Matchbox.t) (st : string) (position c : Z) :
  (0 < credits st position trace)%nat
  ∨ (∀ c0, beadsIn boxes st position = Some c0 →
           menace.Menace.MinBeads m ≤ c0) →
  beadsIn (fold_left (menace.learnMove m board.ResultLoss) trace boxes)
    st position = Some c →
  menace.Menace.MinBeads m ≤ c.
Proof.
  revert boxes. induction trace as [|move trace IH]; intros boxes Hpre; simpl.
  - destruct Hpre as [Hpos|Hfloor];
      [by unfold credits in Hpos; simpl in Hpos; lia|].
    apply Hfloor.
  - apply IH.
    destruct (decide (menace.MoveRecord.BoardState move = st
                      ∧ menace.MoveRecord.Position move = position))
      as [[<- <-]|Hne].
    + right. intros c0. unfold beadsIn. rewrite learnMove_lookup.
      rewrite decide_True by done.
      destruct (boxes !! menace.MoveRecord.BoardState move) as [mb|]; [|done].
      simpl. apply applyResult_loss_floor.
    + destruct Hpre as [Hpos|Hfloor].
      * left. rewrite credits_cons, decide_False in Hpos by done. lia.
      * right. intros c0. rewrite learnMove_beadsIn_other by done.
        apply Hfloor.
Qed.

(** X17. After [Learn] for a loss, every move that the trace credits has at
    least [MinBeads] beads in its matchbox, whatever its count was before
    and whatever the penalty is. *)
Theorem Learn_loss_keeps_the_floor (m : menace.Menace.t) (st : string)
    (position c : Z) :
  (0 < credits st position (menace.Menace.MoveHistory m))%nat →
  beadCount (menace.Learn m board.ResultLoss) st position = Some c →
  menace.Menace.MinBeads m ≤ c.
Proof.
  intros Hcredits. unfold beadCount. rewrite Learn_Matchboxes.
  apply (learn_fold_loss_floor m). by left.
Qed.

Lemma Learn_loss_keeps_the_floor_witness :
  menace.Menace.MinBeads agentAfterOpening ≤ 2.
Proof.
  apply (Learn_loss_keeps_the_floor agentAfterOpening "_________" 0 2).
  - vm_compute. lia.
  - vm_compute. reflexivity.
Defined.

(** X18. A result other than win, loss and draw (in_progress among them)
    makes [Learn] count a game and clear the trace without touching a bead
    or one of the three result counters. *)
Theorem Learn_unknown_result (m : menace.Menace.t)
    (result : board.GameResult) :
  result ≠ board.ResultWin → result ≠ board.ResultLoss →
  result ≠ board.ResultDraw →
  menace.Menace.Matchboxes (menace.Learn m result)
  = menace.Menace.Matchboxes m
  ∧ menace.Menace.GamesPlayed (menace.Learn m result)
    = goint.add (menace.Menace.GamesPlayed m) 1
  ∧ menace.Menace.Wins (menace.Learn m result) = menace.Menace.Wins m
  ∧ menace.Menace.Losses (menace.Learn m result) = menace.Menace.Losses m
  ∧ menace.Menace.Draws (menace.Learn m result) = menace.Menace.Draws m
  ∧ menace.Menace.MoveHistory (menace.Learn m result) = [].
Proof.
  intros Hwin Hloss Hdraw.
  destruct (Learn_counters m result) as (Hgames & Hw & Hl & Hd).
  rewrite decide_False in Hw by done. rewrite decide_False in Hl by done.
  rewrite decide_False in Hd by done.
  split; [|do 4 (split; [done|]); apply Learn_MoveHistory].
  rewrite Learn_Matchboxes.
  generalize (menace.Menace.Matchboxes m).
  induction (menace.Menace.MoveHistory m) as [|move trace IH]; intros boxes;
    [done|].
  simpl. rewrite IH. unfold menace.learnMove.
  destruct (boxes !! menace.MoveRecord.BoardState move); [|done].
  by rewrite !decide_False.
Qed.

Lemma Learn_unknown_result_witness :
  menace.Menace.Matchboxes
    (menace.Learn agentAfterOpening board.ResultInProgress)
  = menace.Menace.Matchboxes agentAfterOpening
  ∧ menace.Menace.GamesPlayed
      (menace.Learn agentAfterOpening board.ResultInProgress)
    = goint.add (menace.Menace.GamesPlayed agentAfterOpening) 1
  ∧ menace.Menace.Wins (menace.Learn agentAfterOpening board.ResultInProgress)
    = menace.Menace.Wins agentAfterOpening
  ∧ menace.Menace.Losses (menace.Learn agentAfterOpening board.ResultInProgress)
    = menace.Menace.Losses agentAfterOpening
  ∧ menace.Menace.Draws (menace.Learn agentAfterOpening board.ResultInProgress)
    = menace.Menace.Draws agentAfterOpening
  ∧ menace.Menace.MoveHistory
      (menace.Learn agentAfterOpening board.ResultInProgress) = [].
Proof.
  apply (Learn_unknown_result agentAfterOpening board.ResultInProgress); done.
Defined.

(** ** menace: counters and snapshots *)

Lemma Learn_History (m : menace.Menace.t) (result : board.GameResult) :
  menace.Menace.History (menace.Learn m result)
  = if decide (goint.rem (menace.Menace.GamesPlayed (menace.Learn m result)) 10
               ≠ 0)
    then menace.Menace.History m
    else menace.Menace.History m
         ++ [menace.HistorySnapshot.mk
               (menace.Menace.GamesPlayed (menace.Learn m result))
               (menace.getTotalBeadsUnsafe (menace.Learn m result))
               (menace.GetMatchboxCount (menace.Learn m result))
               (menace.Menace.Wins (menace.Learn m result))
               (menace.Menace.Losses (menace.Learn m result))
               (menace.Menace.Draws (menace.Learn m result))
               (if decide
                     (menace.Menace.GamesPlayed (menace.Learn m result) > 0)
                then (menace.Menace.Wins (menace.Learn m result),
                      menace.Menace.GamesPlayed (menace.Learn m result))
                else (0, 1))].
Proof.
  unfold menace.Learn, menace.recordHistorySnapshot.
  repeat case_decide; simpl in *; try done.
Qed.

(** X19. From an agent that has not played (a new one, or one after
    [Reset]), after [k] learning updates for wins, losses and draws and any
    moves and starts of games in between, [GamesPlayed] is [k], the three
    result counters add up to [k], and the history holds one snapshot for
    every tenth game: the snapshot of index [i] is that of game
    [10 * (i + 1)], with result counters that add up to it. *)
Theorem history_holds_every_tenth_game (m m' : menace.Menace.t) (k : nat) :
  unplayed m → agentRun m k m' → Z.of_nat k ≤ goint.MaxInt →
  countsGames (Z.of_nat k) m'.
Proof.
  intros (Hg & Hw & Hl & Hd & Hh) Hrun.
  induction Hrun as [|k m1 b order draw m2 pos _ IH Hmove|k m1 _ IH
                     |k m1 result _ IH Hresult]; intros Hk.
  - unfold countsGames. rewrite Hg, Hw, Hl, Hd, Hh. simpl.
    repeat split; try done.
  - specialize (IH Hk). apply GetMove_frame in Hmove.
    rewrite <- Hmove in IH. exact IH.
  - by apply IH.
  - assert (Hk' : Z.of_nat k ≤ goint.MaxInt) by lia.
    destruct (IH Hk') as (Hg1 & Hw1 & Hl1 & Hd1 & Hsum & Hlen & Hsnap).
    destruct (Learn_counters m1 result) as (Hg2 & Hw2 & Hl2 & Hd2).
    assert (Hadd : ∀ x, 0 ≤ x ≤ Z.of_nat k → goint.add x 1 = x + 1).
    { intros x Hx. apply wrap_in_range.
      unfold goint.in_range, goint.MinInt, goint.MaxInt in *. lia. }
    rewrite Hg1, Hadd in Hg2 by lia.
    assert (Hcount :
      0 ≤ menace.Menace.Wins (menace.Learn m1 result)
      ∧ 0 ≤ menace.Menace.Losses (menace.Learn m1 result)
      ∧ 0 ≤ menace.Menace.Draws (menace.Learn m1 result)
      ∧ menace.Menace.Wins (menace.Learn m1 result)
        + menace.Menace.Losses (menace.Learn m1 result)
        + menace.Menace.Draws (menace.Learn m1 result) = Z.of_nat k + 1).
    { rewrite Hw2, Hl2, Hd2.
      destruct Hresult as [->|[->| ->]]; simpl; rewrite Hadd by lia; lia. }
    destruct Hcount as (Hw3 & Hl3 & Hd3 & Hsum3).
    unfold countsGames. rewrite Nat2Z.inj_succ, <- Z.add_1_r.
    do 5 (split; [done|]).
    rewrite Learn_History, Hg2. unfold goint.rem.
    rewrite Z.rem_mod_nonneg by lia.
    destruct (decide ((Z.of_nat k + 1) `mod` 10 ≠ 0)) as [Hrem|Hrem].
    + split; [rewrite Hlen; Z.div_mod_to_equations; lia|done].
    + apply dec_stable in Hrem. split.
      * rewrite length_app, Nat2Z.inj_add, Hlen. simpl.
        Z.div_mod_to_equations. lia.
      * intros i s [Hold|[Hi Hs]]%lookup_app_Some; [by apply Hsnap|].
        apply list_lookup_singleton_Some in Hs as [Hi' <-]. simpl.
        split; [|done].
        assert (Z.of_nat i = Z.of_nat k `div` 10) by lia.
        Z.div_mod_to_equations. lia.
Qed.

Lemma history_holds_every_tenth_game_witness :
  countsGames (Z.of_nat 1) (menace.Learn agentAfterOpening board.ResultWin).
Proof.
  apply (history_holds_every_tenth_game (menace.NewMenace board.PlayerX)).
  - by repeat split.
  - apply agentRun_learn; [|by left].
    apply agentRun_move
      with (m1 := menace.NewMenace board.PlayerX) (b := board.NewEmpty)
           (order := openingOrder) (draw := 0) (pos := 0);
      [apply agentRun_none | vm_compute; reflexivity].
  - vm_compute. discriminate.
Defined.

(** ** menace: the data of a matchbox *)

Lemma validBoard_New (st : string) :
  validBoard (board.mkBoard st) → board.New st = inl (board.mkBoard st).
Proof. done. Qed.

Lemma New_validBoard (st : string) (b : board.Board) :
  board.New st = inl b → b = board.mkBoard st ∧ validBoard b.
Proof.
  unfold validBoard. intros Hnew. pose proof Hnew as Hb.
  unfold board.New in Hb. repeat case_decide; try done.
  destruct (forallb _ _); [|done]. injection Hb as <-. done.
Qed.

Lemma NormalizeState_total (st : string) :
  is_Some (board.NormalizeState st).
Proof.
  unfold board.NormalizeState.
  destruct (board.New st) as [b|err] eqn:Hnew; [|eauto].
  apply New_validBoard in Hnew as [-> Hb].
  destruct (Normalize_total _ Hb) as [r ->]. simpl. eauto.
Qed.

(** X20. [GetMatchboxData] returns the same answer for a valid board and for
    each of its images under the transformations of the table: the eight
    variants of a position share one matchbox. *)
Theorem GetMatchboxData_of_symmetric_boards (m : menace.Menace.t)
    (st : string) (t : Z) :
  validBoard (board.mkBoard st) → 0 ≤ t ≤ 7 →
  ∃ tr image data,
    index board.Transformations t = Some tr
    ∧ board.applyTransform st tr = Some image
    ∧ menace.GetMatchboxData m st = Some data
    ∧ menace.GetMatchboxData m image = Some data.
Proof.
  intros Hb Ht. pose proof (validBoard_length _ Hb) as Hlen. simpl in Hlen.
  destruct (Transformations_index t Ht) as (tr & Hidx & Htr).
  destruct (applyTransform_total _ _ Hlen Htr) as [image Himage].
  destruct (Normalize_total _ Hb) as [[n t1] Hn].
  destruct (Normalize_of_image _ _ _ _ _ Hlen Htr Himage Hn) as [t2 Hn2].
  pose proof (applyTransform_validBoard _ _ _ Hb Htr Himage) as Hb2.
  exists tr, image. unfold menace.GetMatchboxData, board.NormalizeState.
  rewrite (validBoard_New _ Hb), (validBoard_New _ Hb2), Hn, Hn2. simpl.
  destruct (menace.Menace.Matchboxes m !! n); eauto.
Qed.

Lemma GetMatchboxData_of_symmetric_boards_witness :
  ∃ tr image data,
    index board.Transformations 1 = Some tr
    ∧ board.applyTransform "___X_____" tr = Some image
    ∧ menace.GetMatchboxData agentAfterOpening "___X_____" = Some data
    ∧ menace.GetMatchboxData agentAfterOpening image = Some data.
Proof.
  apply (GetMatchboxData_of_symmetric_boards agentAfterOpening "___X_____" 1);
    [reflexivity | lia].
Defined.

(** X21. [GetMatchboxData] never panics; it returns nil for a state that
    [New] refuses, and after [GetMove] on a board it returns the matchbox
    that served the move, with the beads that matchbox had before if it
    existed. *)
Theorem GetMatchboxData_after_GetMove (m m' : menace.Menace.t)
    (b : board.Board) (order : list Z) (draw pos : Z) :
  validBoard b →
  menace.GetMove m b order draw = Some (m', pos) →
  (∀ st, is_Some (menace.GetMatchboxData m' st))
  ∧ (∀ st err, board.New st = inr err →
               menace.GetMatchboxData m' st = Some None)
  ∧ ∃ data,
      menace.GetMatchboxData m' (board.state b) = Some (Some data)
      ∧ ∀ before,
          menace.GetMatchboxData m (board.state b) = Some (Some before) →
          menace.MatchboxData.beads data = menace.MatchboxData.beads before.
Proof.
  intros Hb Hmove. split; [|split].
  - intros st. unfold menace.GetMatchboxData.
    destruct (NormalizeState_total st) as [[[n t]|err] ->]; simpl; [|eauto].
    destruct (menace.Menace.Matchboxes m' !! n); eauto.
  - intros st err Hnew. unfold menace.GetMatchboxData, board.NormalizeState.
    by rewrite Hnew.
  - apply GetMove_spec in Hmove
      as (n & t & moves & mb & npos & Hnorm & _ & Hmb & _ & _ & Hboxes & _).
    unfold menace.GetMatchboxData, board.NormalizeState.
    rewrite Hb, Hnorm. simpl. rewrite Hboxes, lookup_insert_eq.
    eexists. split; [done|]. simpl. intros before.
    destruct (menace.Menace.Matchboxes m !! n) as [mb0|]; [|done].
    intros [= <-]. simpl. by rewrite Hmb.
Qed.

Lemma GetMatchboxData_after_GetMove_witness :
  (∀ st, is_Some (menace.GetMatchboxData agentAfterOpening st))
  ∧ (∀ st err, board.New st = inr err →
               menace.GetMatchboxData agentAfterOpening st = Some None)
  ∧ ∃ data,
      menace.GetMatchboxData agentAfterOpening (board.state board.NewEmpty)
      = Some (Some data)
      ∧ ∀ before,
          menace.GetMatchboxData (menace.NewMenace board.PlayerX)
            (board.state board.NewEmpty) = Some (Some before) →
          menace.MatchboxData.beads data = menace.MatchboxData.beads before.
Proof.
  apply (GetMatchboxData_after_GetMove (menace.NewMenace board.PlayerX)
           agentAfterOpening board.NewEmpty openingOrder 0 0);
    [reflexivity | vm_compute; reflexivity].
Defined.

(** ** api: the reset *)

(** X22. After [ResetMenace] the agent has no matchbox, no trace, no
    snapshot and counters at zero, and keeps its player and its parameters
    of learning; the sessions are gone: every move request is answered
    with "Game not found" and no state has matchbox data. *)
Theorem ResetMenace_forgets_everything (h : api.Handler.t) :
  agent (api.ResetMenace h) = menace.Reset (agent h)
  ∧ unplayed (agent (api.ResetMenace h))
  ∧ menace.Menace.Matchboxes (agent (api.ResetMenace h)) = ∅
  ∧ menace.GetMatchboxCount (agent (api.ResetMenace h)) = 0
  ∧ menace.Menace.MoveHistory (agent (api.ResetMenace h)) = []
  ∧ menace.Menace.Player (agent (api.ResetMenace h))
    = menace.Menace.Player (agent h)
  ∧ menace.Menace.InitialBeads (agent (api.ResetMenace h))
    = menace.Menace.InitialBeads (agent h)
  ∧ menace.Menace.WinReward (agent (api.ResetMenace h))
    = menace.Menace.WinReward (agent h)
  ∧ menace.Menace.DrawReward (agent (api.ResetMenace h))
    = menace.Menace.DrawReward (agent h)
  ∧ menace.Menace.LossPenalty (agent (api.ResetMenace h))
    = menace.Menace.LossPenalty (agent h)
  ∧ menace.Menace.MinBeads (agent (api.ResetMenace h))
    = menace.Menace.MinBeads (agent h)
  ∧ (∀ st, menace.GetMatchboxData (agent (api.ResetMenace h)) st = Some None)
  ∧ ∀ gameID body order draw now1 now2,
      api.MakeMove (api.ResetMenace h) gameID body order draw now1 now2
      = Some (api.ResetMenace h,
              api.StatusNotFound ("Game not found: " +:+ gameID)).
Proof.
  destruct h as [[games m]]. unfold agent, api.ResetMenace. simpl.
  split; [done|]. split; [by repeat split|]. do 9 (split; [done|]). split.
  - intros st. unfold menace.GetMatchboxData.
    destruct (NormalizeState_total st) as [[[n t]|err] ->]; simpl; done.
  - intros. unfold api.MakeMove, game.GetGame. simpl. done.
Qed.

(** ** game: a move that cannot be made *)

Lemma MakeMove_not_empty_square (b : board.Board) (position : Z)
    (player : board.Player) :
  String.length (board.state b) = 9%nat →
  position ∉ board.GetEmptyPositions b →
  ∃ err, board.MakeMove b position player = Some (inr err).
Proof.
  intros Hlen Hout. unfold board.MakeMove.
  case_decide as Hrange; [eauto|].
  destruct (byteAt_is_Some (board.state b) position) as [cur Hcur];
    [rewrite Hlen; lia|].
  rewrite Hcur. simpl. case_decide as Hocc; [eauto|].
  destruct Hout. apply GetEmptyPositions_elem_of. by rewrite Hcur, Hocc.
Qed.

Lemma InverseTransformPosition_off_board (t : Z) (tr : list Z) :
  index board.Transformations t = Some tr →
  board.InverseTransformPosition (-1) t = Some (-1).
Proof.
  intros Hidx. unfold board.InverseTransformPosition, board.inverseTransform.
  rewrite Hidx. simpl. f_equal. apply inverseTransform_loop_absent.
  intros Hin%(Transformations_range tr); [lia|].
  apply index_Some in Hidx as [_ Hidx]. by eapply list_elem_of_lookup_2.
Qed.

(** X23. Where the matchbox of the position has no bead that leads to an
    empty square of the board, [MenaceMove] at the turn of the agent fails
    with the error of [MakeMove], whatever the draw, and leaves the game as
    it was; the beads of the matchbox are as before, so that the next call
    fails again. *)
Theorem MenaceMove_without_legal_bead (m : menace.Menace.t) (g : game.Game.t)
    (order : list Z) (draw now : Z) (n : string) (t : Z)
    (mb : menace.Matchbox.t) :
  wellFormed g →
  game.IsOver g = Some false →
  game.Game.CurrentTurn g = game.Game.MenacePlayer g →
  board.Normalize (game.Game.Board g) = Some (n, t) →
  menace.Menace.Matchboxes m !! n = Some mb →
  noLegalBead mb t (game.Game.Board g) →
  ∃ m' err mb',
    game.MenaceMove m g order draw now = Some (m', g, (-1, Some err))
    ∧ menace.Menace.Matchboxes m' !! n = Some mb'
    ∧ menace.Matchbox.Beads mb' = menace.Matchbox.Beads mb.
Proof.
  intros Hg Hover Hturn Hnorm Hmb Hnone. pose proof Hg as [Hlen Hplayer].
  unfold game.MenaceMove, game.IsMenaceTurn. rewrite Hover. simpl.
  rewrite decide_True by done. simpl.
  destruct (GetMove_total m (game.Game.Board g) order draw Hlen)
    as [[m' pos] Hmove].
  rewrite Hmove. simpl.
  apply GetMove_spec in Hmove
    as (n' & t' & moves & mb0 & npos & Hnorm' & _ & Hmb0 & Hdraw & Hinv
        & Hboxes & _).
  rewrite Hnorm in Hnorm'. injection Hnorm' as <- <-.
  rewrite Hmb in Hmb0. simpl in Hmb0. subst mb0.
  assert (Hout : pos ∉ board.GetEmptyPositions (game.Game.Board g)).
  { destruct (DrawBead_spec _ _ _ _ Hdraw) as [[_ (c & Hc & Hpos)]|[-> _]].
    - by apply (Hnone npos c pos).
    - destruct (Normalize_spec _ _ _ Hnorm) as [(tr & Hidx & _) _].
      rewrite (InverseTransformPosition_off_board t tr Hidx) in Hinv.
      injection Hinv as <-. intros Hin%emptyFrom_range. lia. }
  destruct (MakeMove_not_empty_square (game.Game.Board g) pos
              (game.Game.MenacePlayer g) Hlen Hout) as [err ->].
  simpl. exists m', err. eexists. split; [done|].
  rewrite Hboxes, lookup_insert_eq. done.
Qed.

Lemma MenaceMove_without_legal_bead_witness :
  ∃ m' err mb',
    game.MenaceMove agentAfterCorner turnedGame [6] 0 7
    = Some (m', turnedGame, (-1, Some err))
    ∧ menace.Menace.Matchboxes m' !! "OO_XOXOXX"%string = Some mb'
    ∧ menace.Matchbox.Beads mb'
      = menace.Matchbox.Beads (menace.NewMatchbox "OO_XOXOXX" [6] 3).
Proof.
  apply (MenaceMove_without_legal_bead agentAfterCorner turnedGame [6] 0 7
           "OO_XOXOXX" 0 (menace.Matchbox.mk "OO_XOXOXX"
              (menace.Matchbox.Beads (menace.NewMatchbox "OO_XOXOXX" [6] 3))
              1)).
  - split; [reflexivity | by left].
  - vm_compute. reflexivity.
  - reflexivity.
  - vm_compute. reflexivity.
  - vm_compute. reflexivity.
  - intros k c p Hk Hc Hp.
    destruct (decide (k = 6)) as [->|Hne].
    + vm_compute in Hp. injection Hp as <-.
      intros Hin%GetEmptyPositions_elem_of. vm_compute in Hin. done.
    + unfold menace.NewMatchbox in Hk. simpl in Hk.
      rewrite lookup_insert_ne in Hk by done. by rewrite lookup_empty in Hk.
Defined.

(** ** game: the games that play reaches *)

Lemma emptyFrom_insert_length (i : Z) (s : string) (n : nat) (c : ascii) :
  c ≠ "_"%char → String.get n s = Some "_"%char →
  S (length (board.emptyFrom i
               (String.string_of_list_ascii
                  (<[n := c]> (String.list_ascii_of_string s)))))
  = length (board.emptyFrom i s).
Proof.
  intros Hc. revert i n. induction s as [|a s IH]; intros i n; simpl; [done|].
  destruct n as [|n]; simpl.
  - intros [= ->]. rewrite decide_False by done. rewrite decide_True by done.
    by rewrite String.string_of_list_ascii_of_string.
  - intros Hn. case_decide; simpl; by rewrite IH.
Qed.

Lemma MakeMove_accepted (b b' : board.Board) (position : Z)
    (player : board.Player) :
  validBoard b →
  player = board.PlayerX ∨ player = board.PlayerO →
  board.MakeMove b position player = Some (inl b') →
  validBoard b'
  ∧ S (length (board.GetEmptyPositions b'))
    = length (board.GetEmptyPositions b).
Proof.
  intros [Hlen Hmarks]%validBoard_spec Hplayer. unfold board.MakeMove.
  case_decide as Hp; [done|].
  intros (cur & Hcur & Hmove)%bind_Some.
  case_decide as Hocc; [done|]. subst cur.
  destruct (playerMark _ Hplayer) as (c & Hmark & Hc & ->).
  rewrite Hmark in Hmove. simpl in Hmove.
  apply bind_Some in Hmove as (s' & Hs' & [= <-]). split.
  - apply validBoard_spec. simpl. split.
    + destruct (setByte_is_Some (board.state b) position c)
        as (s'' & Hs'' & Hlen'); [rewrite Hlen; lia|].
      rewrite Hs' in Hs''. injection Hs'' as <-. by rewrite Hlen'.
    + intros i a. rewrite (setByte_byteAt _ _ _ _ i Hs').
      case_decide; [|by apply Hmarks].
      intros [= <-]. apply isMark_spec. tauto.
  - unfold board.setByte, len in Hs'. case_decide as Hr; [|done].
    injection Hs' as <-. unfold board.GetEmptyPositions. simpl.
    apply emptyFrom_insert_length; [by destruct Hc as [->| ->]|].
    unfold byteAt in Hcur. by rewrite decide_True in Hcur by lia.
Qed.

Lemma IsGameOver_false_GetResult (b : board.Board) (player : board.Player) :
  board.IsGameOver b = Some false →
  board.GetResult b player = Some board.ResultInProgress.
Proof.
  unfold board.IsGameOver, board.GetResult.
  intros (w & -> & [= Hover])%bind_Some. simpl.
  apply orb_false_iff in Hover as [Hw%bool_decide_eq_false ->].
  apply dec_stable in Hw. by rewrite decide_True.
Qed.

Lemma recordMove_coherent (g g' : game.Game.t) (newBoard : board.Board)
    (player : board.Player) (position now : Z) :
  coherent g →
  game.IsOver g = Some false →
  player = board.PlayerX ∨ player = board.PlayerO →
  board.MakeMove (game.Game.Board g) position player = Some (inl newBoard) →
  game.recordMove g newBoard player position now = Some g' →
  coherent g'.
Proof.
  intros (Hb & Hmenace & Hturn & Hcount & Hresult & Hlast) Hover Hplayer Hmade.
  destruct (MakeMove_accepted _ _ _ _ Hb Hplayer Hmade) as [Hb' Hempty].
  assert (Hturn' :
    board.Other (game.Game.CurrentTurn g)
    = if Nat.even (length (game.Game.Moves g
                             ++ [game.Move.mk player position
                                   (board.State newBoard) now]))
      then board.PlayerX else board.PlayerO).
  { rewrite length_app, Nat.add_1_r, Nat.even_succ, <- Nat.negb_even, Hturn.
    by destruct (Nat.even _). }
  assert (Hcount' :
    (length (game.Game.Moves g
             ++ [game.Move.mk player position (board.State newBoard) now])
     + length (board.GetEmptyPositions newBoard) = 9)%nat).
  { rewrite length_app. simpl. lia. }
  assert (Hlast' : ∀ mv,
    last (game.Game.Moves g
          ++ [game.Move.mk player position (board.State newBoard) now])
    = Some mv →
    game.Move.BoardAfter mv = board.state newBoard).
  { intros mv. rewrite last_snoc. by intros [= <-]. }
  unfold game.recordMove, game.IsOver, game.GetResult. simpl.
  intros (over & Hover' & Hg')%bind_Some. destruct over.
  - apply bind_Some in Hg' as (result & Hres & [= <-]).
    unfold coherent, game.GetResult. simpl. done.
  - injection Hg' as <-. unfold coherent, game.GetResult. simpl.
    do 4 (split; [done|]). split; [|done].
    rewrite (IsGameOver_false_GetResult _ _ Hover'). f_equal.
    unfold game.IsOver in Hover.
    pose proof (IsGameOver_false_GetResult _ (game.Game.MenacePlayer g) Hover)
      as Hold.
    unfold game.GetResult in Hresult. rewrite Hold in Hresult.
    by injection Hresult.
Qed.

Lemma Other_player (p : board.Player) :
  board.Other p = board.PlayerX ∨ board.Other p = board.PlayerO.
Proof. unfold board.Other. case_decide; auto. Qed.

(** X24. Every game that play reaches from [NewGame] by [OpponentMove] and
    [MenaceMove] has a valid board, X to move after an even number of
    logged moves and O after an odd one, as many logged moves as marks on
    the board, a stored result that is the result of the board (in_progress
    until the game is over), and a last logged move that shows the
    board. *)
Theorem played_games_are_coherent (g : game.Game.t) :
  played g → coherent g.
Proof.
  induction 1 as [m first id now|g position now g' err _ IH Hmove
                  |m g order draw now m' g' r _ IH Hmove].
  - unfold coherent, game.GetResult. simpl.
    split; [reflexivity|]. split; [destruct first; auto|]. done.
  - unfold game.OpponentMove in Hmove.
    apply bind_Some in Hmove as (over & Hover & Hmove).
    destruct over; [by injection Hmove as <- <-|].
    apply bind_Some in Hmove as (turn & Hturn & Hmove).
    destruct turn; simpl in Hmove; [|by injection Hmove as <- <-].
    apply bind_Some in Hmove as ([newBoard|e] & Hmade & Hmove);
      [|by injection Hmove as <- <-].
    apply bind_Some in Hmove as (g1 & Hg1 & [= <- <-]).
    eapply recordMove_coherent; [done..|apply Other_player|done|done].
  - unfold game.MenaceMove in Hmove.
    apply bind_Some in Hmove as (over & Hover & Hmove).
    destruct over; [by injection Hmove as <- <- <-|].
    apply bind_Some in Hmove as (turn & Hturn & Hmove).
    destruct turn; simpl in Hmove; [|by injection Hmove as <- <- <-].
    apply bind_Some in Hmove as ([m1 pos] & Hget & Hmove).
    apply bind_Some in Hmove as ([newBoard|e] & Hmade & Hmove);
      [|by injection Hmove as <- <- <-].
    apply bind_Some in Hmove as (g1 & Hg1 & [= <- <- <-]).
    eapply recordMove_coherent; [done..|apply IH|done|done].
Qed.

Lemma played_games_are_coherent_witness :
  coherent
    (game.Game.mk "g1" (board.mkBoard "____X____") board.PlayerO board.PlayerO
       [game.Move.mk board.PlayerX 4 "____X____" 101] board.ResultInProgress
       100).
Proof.
  apply played_games_are_coherent.
  apply played_opponent
    with (g := (game.NewGame (menace.NewMenace board.PlayerX) false "g1" 100).2)
         (position := 4) (now := 101) (err := None);
    [apply played_new | vm_compute; reflexivity].
Defined.

(** ** game: the end of a session *)

(** X25. [FinishGame] has no guard against a second call and removes
    nothing: on a finished game each call runs [Learn] with the result of
    the game, so that two calls count two games, and the games of the
    manager stay as they are. *)
Theorem FinishGame_learns_on_every_call (gm : game.GameManager.t)
    (id : string) (g : game.Game.t) :
  game.GetGame gm id = Some g →
  wellFormed g →
  game.IsOver g = Some true →
  ∃ result gm1 gm2,
    game.GetResult g = Some result
    ∧ game.FinishGame gm id = Some gm1
    ∧ game.FinishGame gm1 id = Some gm2
    ∧ game.GameManager.games gm1 = game.GameManager.games gm
    ∧ game.GameManager.games gm2 = game.GameManager.games gm
    ∧ game.GameManager.menace gm1
      = menace.Learn (game.GameManager.menace gm) result
    ∧ game.GameManager.menace gm2
      = menace.Learn (menace.Learn (game.GameManager.menace gm) result) result
    ∧ menace.Menace.GamesPlayed (game.GameManager.menace gm2)
      = goint.add
          (goint.add (menace.Menace.GamesPlayed (game.GameManager.menace gm)) 1)
          1.
Proof.
  unfold game.GetGame. intros Hg [Hlen _] Hover.
  destruct (GetResult_total (game.Game.Board g) (game.Game.MenacePlayer g) Hlen)
    as [result Hresult].
  exists result,
    (game.GameManager.mk (game.GameManager.games gm)
       (menace.Learn (game.GameManager.menace gm) result)),
    (game.GameManager.mk (game.GameManager.games gm)
       (menace.Learn (menace.Learn (game.GameManager.menace gm) result)
          result)).
  split; [done|].
  unfold game.FinishGame, game.GetResult. simpl.
  rewrite Hg, Hover, Hresult. simpl. do 6 (split; [done|]).
  by rewrite !(proj1 (Learn_counters _ _)).
Qed.

Lemma FinishGame_learns_on_every_call_witness :
  ∃ result gm1 gm2,
    board.GetResult (board.mkBoard "XXXOO____") board.PlayerO = Some result
    ∧ game.FinishGame (api.Handler.gameManager sessionFinished) "g1" = Some gm1
    ∧ game.FinishGame gm1 "g1" = Some gm2
    ∧ game.GameManager.games gm1
      = game.GameManager.games (api.Handler.gameManager sessionFinished)
    ∧ game.GameManager.games gm2
      = game.GameManager.games (api.Handler.gameManager sessionFinished)
    ∧ game.GameManager.menace gm1
      = menace.Learn
          (game.GameManager.menace (api.Handler.gameManager sessionFinished))
          result
    ∧ game.GameManager.menace gm2
      = menace.Learn
          (menace.Learn
             (game.GameManager.menace (api.Handler.gameManager sessionFinished))
             result) result
    ∧ menace.Menace.GamesPlayed (game.GameManager.menace gm2)
      = goint.add
          (goint.add
             (menace.Menace.GamesPlayed
                (game.GameManager.menace
                   (api.Handler.gameManager sessionFinished))) 1)
          1.
Proof.
  apply (FinishGame_learns_on_every_call
           (api.Handler.gameManager sessionFinished) "g1"
           (default
              (game.NewGame (menace.NewMenace board.PlayerX) false "g1" 100).2
              (game.GetGame (api.Handler.gameManager sessionFinished) "g1"))).
  - vm_compute. reflexivity.
  - split; [vm_compute; reflexivity|]. right. vm_compute. reflexivity.
  - vm_compute. reflexivity.
Defined.

(** ** api: what a move request changes *)

Lemma menaceReply_inv (m m' : menace.Menace.t) (g g' : game.Game.t)
    (order : list Z) (draw now : Z) (reply : option Z) :
  api.menaceReply m g order draw now = Some (m', g', reply) →
  (m' = m ∧ g' = g ∧ reply = None)
  ∨ ∃ pos err,
      game.MenaceMove m g order draw now = Some (m', g', (pos, err))
      ∧ reply = (if bool_decide (err = (None : option string))
                    && bool_decide (0 ≤ pos)
                 then Some pos else None).
Proof.
  unfold api.menaceReply.
  intros (over & _ & (turn & _ & Hreply)%bind_Some)%bind_Some.
  destruct turn; simpl in Hreply; [|injection Hreply as <- <- <-; auto].
  apply bind_Some in Hreply as ([[m1 g1] [pos err]] & Hmove & [= <- <- <-]).
  right. by exists pos, err.
Qed.

Lemma playMove_inv (h h' : api.Handler.t) (gameID : string) (g : game.Game.t)
    (position : Z) (order : list Z) (draw now1 now2 : Z)
    (resp : api.Response) :
  game.GetGame (api.Handler.gameManager h) gameID = Some g →
  api.playMove h gameID g position order draw now1 now2 = Some (h', resp) →
  (h' = h
   ∧ ∃ e, resp = api.StatusBadRequest e
          ∧ game.OpponentMove g position now1 = Some (g, Some e))
  ∨ ∃ body g1 m' g' reply,
      resp = api.StatusOK body
      ∧ game.OpponentMove g position now1 = Some (g1, None)
      ∧ api.menaceReply (agent h) g1 order draw now2 = Some (m', g', reply)
      ∧ api.moveResponse g' position reply = Some body
      ∧ game.GameManager.games (api.Handler.gameManager h')
        = <[gameID := g']> (game.GameManager.games (api.Handler.gameManager h))
      ∧ (agent h' = m'
         ∨ ∃ result, agent h' = menace.Learn m' result).
Proof.
  intros Hg. unfold api.playMove.
  intros ([g1 [e|]] & Hopp & Hrest)%bind_Some.
  { injection Hrest as <- <-. left.
    pose proof (OpponentMove_error _ _ _ _ _ Hopp) as ->.
    split; [by apply storeGame_same|]. by exists e. }
  apply bind_Some in Hrest as ([[m' g'] reply] & Hreply & Hrest).
  apply bind_Some in Hrest as (over & Hover & Hrest).
  apply bind_Some in Hrest as (h2 & Hfinish & Hrest).
  apply bind_Some in Hrest as (body & Hbody & [= <- <-]).
  right. exists body, g1, m', g', reply. do 4 (split; [done|]).
  destruct over; [|injection Hfinish as <-; simpl; auto].
  apply fmap_Some in Hfinish as (gm & Hfinish & ->).
  unfold game.FinishGame, api.storeGame in Hfinish. simpl in Hfinish.
  rewrite lookup_insert_eq, Hover in Hfinish. simpl in Hfinish.
  apply bind_Some in Hfinish as (result & _ & [= <-]). simpl.
  split; [done|]. right. by exists result.
Qed.

Lemma MakeMove_inv (h h' : api.Handler.t) (gameID : string) (body : option Z)
    (order : list Z) (draw now1 now2 : Z) (resp : api.Response) :
  api.MakeMove h gameID body order draw now1 now2 = Some (h', resp) →
  (h' = h ∧ accepted resp = false)
  ∨ ∃ g position,
      game.GetGame (api.Handler.gameManager h) gameID = Some g
      ∧ game.IsOver g = Some false
      ∧ game.IsOpponentTurn g = Some true
      ∧ body = Some position
      ∧ position ∈ board.GetEmptyPositions (game.Game.Board g)
      ∧ api.playMove h gameID g position order draw now1 now2
        = Some (h', resp).
Proof.
  unfold api.MakeMove.
  destruct (game.GetGame (api.Handler.gameManager h) gameID) as [g|] eqn:Hg;
    [|intros [= <- <-]; by left].
  intros ([] & Hover & Hrest)%bind_Some; [injection Hrest as <- <-; by left|].
  apply bind_Some in Hrest as ([] & Hturn & Hrest); simpl in Hrest;
    [|injection Hrest as <- <-; by left].
  destruct body as [position|]; [|injection Hrest as <- <-; by left].
  case_decide; [injection Hrest as <- <-; by left|].
  apply bind_Some in Hrest as (validMoves & Hvalid & Hrest).
  unfold game.GetValidMoves in Hvalid. rewrite Hover in Hvalid.
  injection Hvalid as <-.
  destruct (bool_decide (position ∈ _)) eqn:Hin; simpl in Hrest;
    [|injection Hrest as <- <-; by left].
  apply bool_decide_eq_true in Hin. right. by exists g, position.
Qed.

(** X26. A move request changes at most the session it names: the other
    games of the handler stay as they are, and a request that is not
    accepted (unknown game, finished game, not the turn of the opponent,
    malformed or refused position) changes nothing at all, neither a game
    nor the agent. *)
Theorem MakeMove_changes_one_session (h h' : api.Handler.t)
    (gameID : string) (body : option Z) (order : list Z)
    (draw now1 now2 : Z) (resp : api.Response) :
  api.MakeMove h gameID body order draw now1 now2 = Some (h', resp) →
  (∀ id, id ≠ gameID →
         game.GetGame (api.Handler.gameManager h') id
         = game.GetGame (api.Handler.gameManager h) id)
  ∧ (is_Some (game.GetGame (api.Handler.gameManager h') gameID)
     ↔ is_Some (game.GetGame (api.Handler.gameManager h) gameID))
  ∧ (accepted resp = false → h' = h).
Proof.
  intros [[-> Hresp]|(g & position & Hg & _ & _ & _ & _ & Hplay)]%MakeMove_inv;
    [done|].
  apply (playMove_inv _ _ _ _ _ _ _ _ _ _ Hg) in Hplay
    as [[-> _]|(b & g1 & m' & g' & reply & -> & _ & _ & _ & Hgames & _)];
    [done|].
  unfold game.GetGame. rewrite Hgames. split; [|split; [|done]].
  - intros id Hid. by rewrite lookup_insert_ne.
  - rewrite lookup_insert_eq. unfold game.GetGame in Hg. rewrite Hg.
    split; eauto.
Qed.

Lemma MakeMove_changes_one_session_witness :
  ∃ h' resp,
    api.MakeMove sessionCreated "g1" (Some 0) [1; 2; 3; 4; 5; 6; 7; 8] 9 101 102
    = Some (h', resp)
    ∧ (∀ id, id ≠ "g1"%string →
             game.GetGame (api.Handler.gameManager h') id
             = game.GetGame (api.Handler.gameManager sessionCreated) id)
    ∧ (is_Some (game.GetGame (api.Handler.gameManager h') "g1")
       ↔ is_Some (game.GetGame (api.Handler.gameManager sessionCreated) "g1"))
    ∧ (accepted resp = false → h' = sessionCreated).
Proof.
  destruct (api.MakeMove sessionCreated "g1" (Some 0)
              [1; 2; 3; 4; 5; 6; 7; 8] 9 101 102)
    as [[h' resp]|] eqn:Hmove; [|by vm_compute in Hmove].
  exists h', resp. split; [done|].
  exact (MakeMove_changes_one_session _ _ _ _ _ _ _ _ _ Hmove).
Defined.

Lemma MakeMove_shrinks_empties (b b' : board.Board) (position : Z)
    (player : board.Player) (q : Z) :
  player = board.PlayerX ∨ player = board.PlayerO →
  board.MakeMove b position player = Some (inl b') →
  q ∈ board.GetEmptyPositions b' →
  q ∈ board.GetEmptyPositions b ∧ q ≠ position.
Proof.
  intros Hplayer. unfold board.MakeMove. case_decide as Hp; [done|].
  intros (cur & Hcur & Hmove)%bind_Some.
  case_decide as Hocc; [done|]. subst cur.
  destruct (playerMark _ Hplayer) as (c & Hmark & Hc & ->).
  rewrite Hmark in Hmove. simpl in Hmove.
  apply bind_Some in Hmove as (s' & Hs' & [= <-]).
  rewrite !GetEmptyPositions_elem_of. simpl.
  rewrite (setByte_byteAt _ _ _ _ q Hs'). case_decide; [|done].
  intros [= ->]. by destruct Hc.
Qed.

Lemma recordMove_fields (g g' : game.Game.t) (newBoard : board.Board)
    (player : board.Player) (position now : Z) :
  game.recordMove g newBoard player position now = Some g' →
  game.Game.Board g' = newBoard
  ∧ game.Game.ID g' = game.Game.ID g
  ∧ game.Game.MenacePlayer g' = game.Game.MenacePlayer g.
Proof.
  unfold game.recordMove.
  intros ([] & _ & Hg')%bind_Some.
  - by apply bind_Some in Hg' as (result & _ & [= <-]).
  - by injection Hg' as <-.
Qed.

Lemma OpponentMove_inv (g g' : game.Game.t) (position now : Z)
    (err : option string) :
  game.OpponentMove g position now = Some (g', err) →
  g' = g
  ∨ (err = None
     ∧ ∃ newBoard,
         board.MakeMove (game.Game.Board g) position
           (board.Other (game.Game.MenacePlayer g)) = Some (inl newBoard)
         ∧ game.recordMove g newBoard (board.Other (game.Game.MenacePlayer g))
             position now = Some g').
Proof.
  unfold game.OpponentMove.
  intros ([] & _ & Hmove)%bind_Some; [injection Hmove as <- <-; by left|].
  apply bind_Some in Hmove as ([] & _ & Hmove); simpl in Hmove;
    [|injection Hmove as <- <-; by left].
  apply bind_Some in Hmove as ([newBoard|e] & Hmade & Hmove);
    [|injection Hmove as <- <-; by left].
  apply bind_Some in Hmove as (g1 & Hg1 & [= <- <-]).
  right. split; [done|]. by exists newBoard.
Qed.

Lemma MenaceMove_inv (m m' : menace.Menace.t) (g g' : game.Game.t)
    (order : list Z) (draw now : Z) (r : Z * option string) :
  game.MenaceMove m g order draw now = Some (m', g', r) →
  g' = g
  ∨ ∃ pos newBoard,
      board.MakeMove (game.Game.Board g) pos (game.Game.MenacePlayer g)
      = Some (inl newBoard)
      ∧ game.recordMove g newBoard (game.Game.MenacePlayer g) pos now
        = Some g'.
Proof.
  unfold game.MenaceMove.
  intros ([] & _ & Hmove)%bind_Some; [injection Hmove as <- <- <-; by left|].
  apply bind_Some in Hmove as ([] & _ & Hmove); simpl in Hmove;
    [|injection Hmove as <- <- <-; by left].
  apply bind_Some in Hmove as ([m1 pos] & _ & Hmove).
  apply bind_Some in Hmove as ([newBoard|e] & Hmade & Hmove);
    [|injection Hmove as <- <- <-; by left].
  apply bind_Some in Hmove as (g1 & Hg1 & [= <- <- <-]).
  right. by exists pos, newBoard.
Qed.

Lemma OpponentMove_empty_square (g : game.Game.t) (position now : Z) :
  wellFormed g →
  game.IsOver g = Some false →
  game.Game.CurrentTurn g ≠ game.Game.MenacePlayer g →
  position ∈ board.GetEmptyPositions (game.Game.Board g) →
  ∃ g1, game.OpponentMove g position now = Some (g1, None)
        ∧ wellFormed g1
        ∧ position ∉ board.GetEmptyPositions (game.Game.Board g1).
Proof.
  intros Hg Hover Hturn Hin. pose proof Hg as [Hlen Hplayer].
  destruct (MakeMove_empty_square (game.Game.Board g) position
              (board.Other (game.Game.MenacePlayer g)) Hlen Hin
              (Other_player _)) as [newBoard Hmade].
  destruct (board_MakeMove_total (game.Game.Board g) position
              (board.Other (game.Game.MenacePlayer g)) Hlen (Other_player _))
    as (made & Hmade' & Hlen').
  rewrite Hmade in Hmade'. injection Hmade' as <-.
  destruct (recordMove_total g newBoard (board.Other (game.Game.MenacePlayer g))
              position now Hg (Hlen' _ eq_refl)) as (g1 & Hg1 & Hwf).
  exists g1. unfold game.OpponentMove, game.IsOpponentTurn.
  rewrite Hover. simpl. rewrite decide_True by done. simpl.
  rewrite Hmade. simpl. rewrite Hg1. simpl. split; [done|]. split; [done|].
  destruct (recordMove_fields _ _ _ _ _ _ Hg1) as (-> & _ & _).
  intros Hq. by destruct (MakeMove_shrinks_empties _ _ _ _ _ (Other_player _)
                            Hmade Hq).
Qed.

(** X27. A move request for an empty square of a game that is not over, at
    the turn of the opponent, is accepted: the answer has the status 200,
    reports the move and the board of the stored game, and the square is no
    longer among the empty positions of the game nor among the valid moves
    of the answer. *)
Theorem MakeMove_accepts_an_empty_square (h : api.Handler.t)
    (gameID : string) (g : game.Game.t) (position : Z) (order : list Z)
    (draw now1 now2 : Z) :
  wellFormed g →
  game.GetGame (api.Handler.gameManager h) gameID = Some g →
  game.IsOver g = Some false →
  game.Game.CurrentTurn g ≠ game.Game.MenacePlayer g →
  position ∈ board.GetEmptyPositions (game.Game.Board g) →
  ∃ h' body g',
    api.MakeMove h gameID (Some position) order draw now1 now2
    = Some (h', api.StatusOK body)
    ∧ game.GetGame (api.Handler.gameManager h') gameID = Some g'
    ∧ api.MoveResponse.Board body = board.state (game.Game.Board g')
    ∧ api.MoveResponse.OpponentMove body = position
    ∧ (position ∉ board.GetEmptyPositions (game.Game.Board g'))
    ∧ position ∉ api.MoveResponse.ValidMoves body.
Proof.
  intros Hg Hget Hover Hturn Hin. pose proof Hg as [Hlen Hplayer].
  pose proof (emptyFrom_range _ _ _ Hin) as Hrange. rewrite Hlen in Hrange.
  destruct (OpponentMove_empty_square g position now1 Hg Hover Hturn Hin)
    as (g1 & Hopp & Hg1 & Hout).
  destruct (playMove_total h gameID g position order draw now1 now2 Hg)
    as [[h' resp] Hplay].
  assert (Hmove : api.MakeMove h gameID (Some position) order draw now1 now2
                  = Some (h', resp)).
  { unfold api.MakeMove, game.IsOpponentTurn, game.GetValidMoves.
    rewrite Hget, Hover. simpl. rewrite decide_True by done. simpl.
    rewrite decide_False by lia. rewrite bool_decide_eq_true_2 by done.
    done. }
  apply (playMove_inv _ _ _ _ _ _ _ _ _ _ Hget) in Hplay
    as [[_ (e & _ & Hopp')]
       |(body & g1' & m' & g' & reply & -> & Hopp' & Hreply & Hbody & Hgames
         & _)];
    [by rewrite Hopp in Hopp'|].
  rewrite Hopp in Hopp'. injection Hopp' as <-.
  exists h', body, g'. split; [done|].
  unfold game.GetGame. rewrite Hgames, lookup_insert_eq. split; [done|].
  assert (Hout' : position ∉ board.GetEmptyPositions (game.Game.Board g')).
  { apply menaceReply_inv in Hreply
      as [(_ & -> & _)|(pos & err & Hmenace & _)]; [done|].
    apply MenaceMove_inv in Hmenace
      as [->|(pos' & newBoard & Hmade & Hrec)]; [done|].
    destruct (recordMove_fields _ _ _ _ _ _ Hrec) as (-> & _ & _).
    intros Hq. destruct Hg1 as [_ Hplayer1].
    by destruct (MakeMove_shrinks_empties _ _ _ _ _ Hplayer1 Hmade Hq). }
  unfold api.moveResponse in Hbody.
  apply bind_Some in Hbody as (over & Hover' & Hbody).
  apply bind_Some in Hbody as (status & _ & Hbody).
  apply bind_Some in Hbody as (validMoves & Hvalid & Hbody).
  apply bind_Some in Hbody as (isGameOver & _ & Hbody).
  apply bind_Some in Hbody as (result & _ & Hbody).
  apply bind_Some in Hbody as (winner & _ & [= <-]). simpl.
  do 3 (split; [done|]).
  unfold game.GetValidMoves in Hvalid. rewrite Hover' in Hvalid.
  injection Hvalid as <-. destruct over; [apply not_elem_of_nil|done].
Qed.

Lemma MakeMove_accepts_an_empty_square_witness :
  ∃ h' body g',
    api.MakeMove sessionCreated "g1" (Some 0) [1; 2; 3; 4; 5; 6; 7; 8] 9 101 102
    = Some (h', api.StatusOK body)
    ∧ game.GetGame (api.Handler.gameManager h') "g1" = Some g'
    ∧ api.MoveResponse.Board body = board.state (game.Game.Board g')
    ∧ api.MoveResponse.OpponentMove body = 0
    ∧ (0 ∉ board.GetEmptyPositions (game.Game.Board g'))
    ∧ 0 ∉ api.MoveResponse.ValidMoves body.
Proof.
  apply (MakeMove_accepts_an_empty_square sessionCreated "g1"
           (game.NewGame (menace.NewMenace board.PlayerX) false "g1" 100).2).
  - apply NewGame_wellFormed.
  - vm_compute. reflexivity.
  - vm_compute. reflexivity.
  - vm_compute. discriminate.
  - apply GetEmptyPositions_elem_of. vm_compute. reflexivity.
Defined.

(** ** api: the handlers that requests reach *)

Lemma MenaceMove_ID (m m' : menace.Menace.t) (g g' : game.Game.t)
    (order : list Z) (draw now : Z) (r : Z * option string) :
  game.MenaceMove m g order draw now = Some (m', g', r) →
  game.Game.ID g' = game.Game.ID g.
Proof.
  intros [->|(pos & newBoard & _ & Hrec)]%MenaceMove_inv; [done|].
  by destruct (recordMove_fields _ _ _ _ _ _ Hrec) as (_ & ? & _).
Qed.

Lemma OpponentMove_ID (g g' : game.Game.t) (position now : Z)
    (err : option string) :
  game.OpponentMove g position now = Some (g', err) →
  game.Game.ID g' = game.Game.ID g.
Proof.
  intros [->|(_ & newBoard & _ & Hrec)]%OpponentMove_inv; [done|].
  by destruct (recordMove_fields _ _ _ _ _ _ Hrec) as (_ & ? & _).
Qed.

Lemma NewGame_handler_inv (h h' : api.Handler.t) (req : option bool)
    (id : string) (now1 : Z) (order : list Z) (draw now2 : Z)
    (answer : api.NewGameAnswer) :
  api.NewGame h req id now1 order draw now2 = Some (h', answer) →
  h' = h
  ∨ ∃ menacePlaysFirst m' g',
      ((m' = menace.StartNewGame (agent h)
        ∧ g' = (game.NewGame (agent h) menacePlaysFirst id now1).2)
       ∨ ∃ r, game.MenaceMove (menace.StartNewGame (agent h))
                (game.NewGame (agent h) menacePlaysFirst id now1).2
                order draw now2 = Some (m', g', r))
      ∧ game.GameManager.games (api.Handler.gameManager h')
        = <[id := g']> (game.GameManager.games (api.Handler.gameManager h))
      ∧ agent h' = m'.
Proof.
  unfold api.NewGame. destruct req as [first|]; [|intros [= <- <-]; by left].
  unfold game.CreateGame, agent. simpl.
  intros ([[m' g'] menaceMove] & Hopening & Hrest)%bind_Some.
  apply bind_Some in Hrest as (status & _ & Hrest).
  apply bind_Some in Hrest as (validMoves & _ & [= <- <-]).
  right. exists first, m', g'. unfold api.storeGame. simpl.
  unfold api.openingMove in Hopening.
  destruct first; simpl in Hopening.
  - apply bind_Some in Hopening as ([[m1 g1] [pos err]] & Hmove & [= <- <- <-]).
    rewrite (MenaceMove_ID _ _ _ _ _ _ _ _ Hmove). simpl.
    rewrite insert_insert_eq. split; [|done]. right. by exists (pos, err).
  - injection Hopening as <- <- <-. simpl. rewrite insert_insert_eq.
    split; [|done]. by left.
Qed.

(** X28. Every game that a handler holds, after any requests for new games,
    for moves and for a reset from [NewHandler] on, is a game that play
    reaches from [NewGame], and is held under its own identifier. *)
Theorem served_games_are_played (h : api.Handler.t) (id : string)
    (g : game.Game.t) :
  served h →
  game.GetGame (api.Handler.gameManager h) id = Some g →
  played g ∧ game.Game.ID g = id.
Proof.
  intros Hserved. revert id g. unfold game.GetGame.
  induction Hserved as [|h req id0 now1 order draw now2 h' answer _ IH Hnew
                        |h gameID body order draw now1 now2 h' resp _ IH Hmove
                        |h _ _]; intros id g.
  - unfold api.NewHandler. simpl. by rewrite lookup_empty.
  - apply NewGame_handler_inv in Hnew
      as [->|(first & m' & g' & Hg' & Hgames & _)]; [apply IH|].
    rewrite Hgames. destruct (decide (id0 = id)) as [<-|Hne];
      [|rewrite lookup_insert_ne by done; apply IH].
    rewrite lookup_insert_eq. intros [= <-].
    destruct Hg' as [[_ ->]|[r Hmenace]].
    + split; [apply played_new|done].
    + split; [|by rewrite (MenaceMove_ID _ _ _ _ _ _ _ _ Hmenace)].
      eapply played_menace; [apply played_new|done].
  - apply MakeMove_inv in Hmove
      as [[-> _]|(g0 & position & Hg0 & _ & _ & _ & _ & Hplay)]; [apply IH|].
    apply (playMove_inv _ _ _ _ _ _ _ _ _ _ Hg0) in Hplay
      as [[-> _]|(b & g1 & m' & g' & reply & _ & Hopp & Hreply & _ & Hgames
                  & _)]; [apply IH|].
    rewrite Hgames. destruct (decide (gameID = id)) as [<-|Hne];
      [|rewrite lookup_insert_ne by done; apply IH].
    rewrite lookup_insert_eq. intros [= <-].
    destruct (IH _ _ Hg0) as [Hplayed Hid].
    assert (Hg1 : played g1 ∧ game.Game.ID g1 = gameID).
    { split; [by eapply played_opponent|].
      by rewrite (OpponentMove_ID _ _ _ _ _ Hopp). }
    apply menaceReply_inv in Hreply
      as [(_ & -> & _)|(pos & err & Hmenace & _)]; [done|].
    split; [by eapply played_menace; [apply Hg1|]|].
    rewrite (MenaceMove_ID _ _ _ _ _ _ _ _ Hmenace). apply Hg1.
  - unfold api.ResetMenace. simpl. by rewrite lookup_empty.
Qed.

Lemma served_games_are_played_witness :
  played (game.NewGame (menace.NewMenace board.PlayerX) false "g1" 100).2
  ∧ game.Game.ID
      (game.NewGame (menace.NewMenace board.PlayerX) false "g1" 100).2
    = "g1"%string.
Proof.
  apply (served_games_are_played sessionCreated).
  - eapply (served_NewGame api.NewHandler (Some false) "g1" 100 [] 0 101);
      [apply served_new | reflexivity].
  - vm_compute. reflexivity.
Defined.

Lemma NewGame_handler_total (h : api.Handler.t) (req : option bool)
    (id : string) (now1 : Z) (order : list Z) (draw now2 : Z) :
  is_Some (api.NewGame h req id now1 order draw now2).
Proof.
  unfold api.NewGame. destruct req as [first|]; [|eauto].
  unfold game.CreateGame. simpl.
  pose proof (NewGame_wellFormed (agent h) first id now1) as Hg0.
  assert (∃ m' g' reply,
    api.openingMove first (menace.StartNewGame (agent h))
      (game.NewGame (agent h) first id now1).2 order draw now2
    = Some (m', g', reply) ∧ wellFormed g') as (m' & g' & reply & Hopen & Hg').
  { unfold api.openingMove. destruct first; simpl; [|by do 3 eexists].
    destruct (MenaceMove_total (menace.StartNewGame (agent h))
                (game.NewGame (agent h) true id now1).2 order draw now2 Hg0)
      as (m' & g' & [pos err] & Hmove & Hg').
    simpl in Hmove. rewrite Hmove. simpl. by do 3 eexists. }
  unfold agent in Hopen. simpl in Hopen. rewrite Hopen. simpl.
  unfold api.getGameStatus, game.GetValidMoves.
  destruct (IsOver_total g' Hg') as [over ->]. simpl.
  destruct over; simpl; [eauto|].
  destruct (IsMenaceTurn_total g' Hg') as [turn ->]. simpl. eauto.
Qed.

(** X29. No request panics: every handler that requests for new games, for
    moves and for a reset reach from [NewHandler] holds games of nine
    squares in which the agent plays X or O, and answers every request for
    a move and for a new game. *)
Theorem served_handlers_answer (h : api.Handler.t) :
  served h →
  wellFormedHandler h
  ∧ (∀ gameID body order draw now1 now2,
       is_Some (api.MakeMove h gameID body order draw now1 now2))
  ∧ (∀ req id now1 order draw now2,
       is_Some (api.NewGame h req id now1 order draw now2)).
Proof.
  intros Hserved.
  assert (Hh : wellFormedHandler h).
  { induction Hserved as [|h req id0 now1 order draw now2 h' answer _ IH Hnew
                          |h gameID body order draw now1 now2 h' resp _ IH Hmove
                          |h _ _].
    - apply NewHandler_wellFormed.
    - apply NewGame_handler_inv in Hnew
        as [->|(first & m' & g' & Hg' & Hgames & _)]; [done|].
      intros id g. rewrite Hgames.
      destruct (decide (id0 = id)) as [<-|Hne];
        [|rewrite lookup_insert_ne by done; apply IH].
      rewrite lookup_insert_eq. intros [= <-].
      pose proof (NewGame_wellFormed (agent h) first id0 now1) as Hg0.
      destruct Hg' as [[_ ->]|[r Hmenace]]; [done|].
      destruct (MenaceMove_total (menace.StartNewGame (agent h)) _ order draw
                  now2 Hg0) as (m1 & g1 & r1 & Hmove & Hg1).
      rewrite Hmenace in Hmove. by injection Hmove as _ <- _.
    - by eapply MakeMove_wellFormed.
    - intros id g. unfold api.ResetMenace. simpl. by rewrite lookup_empty. }
  split; [done|]. split.
  - intros. apply MakeMove_total. intros g Hg. by apply (Hh gameID).
  - intros. apply NewGame_handler_total.
Qed.

Lemma served_handlers_answer_witness :
  wellFormedHandler sessionCreated
  ∧ (∀ gameID body order draw now1 now2,
       is_Some (api.MakeMove sessionCreated gameID body order draw now1 now2))
  ∧ (∀ req id now1 order draw now2,
       is_Some (api.NewGame sessionCreated req id now1 order draw now2)).
Proof.
  apply served_handlers_answer.
  eapply (served_NewGame api.NewHandler (Some false) "g1" 100 [] 0 101);
    [apply served_new | reflexivity].
Defined.

(** ** api: a new session *)

Lemma MakeMove_square (b b' : board.Board) (position : Z)
    (player : board.Player) :
  player = board.PlayerX ∨ player = board.PlayerO →
  board.MakeMove b position player = Some (inl b') →
  board.GetSquare b' position = Some player.
Proof.
  intros Hplayer. unfold board.MakeMove. case_decide as Hp; [done|].
  intros (cur & Hcur & Hmove)%bind_Some.
  case_decide as Hocc; [done|]. subst cur.
  destruct (playerMark _ Hplayer) as (c & Hmark & Hc & ->).
  rewrite Hmark in Hmove. simpl in Hmove.
  apply bind_Some in Hmove as (s' & Hs' & [= <-]).
  unfold board.GetSquare. simpl.
  rewrite (setByte_byteAt _ _ _ _ position Hs'), decide_True by done.
  simpl. by destruct Hc as [->| ->].
Qed.

Lemma MenaceMove_reply (m m' : menace.Menace.t) (g g' : game.Game.t)
    (order : list Z) (draw now pos : Z) (err : option string) :
  game.MenaceMove m g order draw now = Some (m', g', (pos, err)) →
  (g' = g ∧ pos = -1)
  ∨ (err = None
     ∧ ∃ newBoard,
         board.MakeMove (game.Game.Board g) pos (game.Game.MenacePlayer g)
         = Some (inl newBoard)
         ∧ game.recordMove g newBoard (game.Game.MenacePlayer g) pos now
           = Some g').
Proof.
  unfold game.MenaceMove.
  intros ([] & _ & Hmove)%bind_Some; [injection Hmove as <- <- <- <-; by left|].
  apply bind_Some in Hmove as ([] & _ & Hmove); simpl in Hmove;
    [|injection Hmove as <- <- <- <-; by left].
  apply bind_Some in Hmove as ([m1 pos1] & _ & Hmove).
  apply bind_Some in Hmove as ([newBoard|e] & Hmade & Hmove);
    [|injection Hmove as <- <- <- <-; by left].
  apply bind_Some in Hmove as (g1 & Hg1 & [= <- <- <- <-]).
  right. split; [done|]. by exists newBoard.
Qed.

Lemma getGameStatus_State (g : game.Game.t) :
  api.getGameStatus g = game.State g.
Proof.
  unfold api.getGameStatus, game.State, game.IsMenaceTurn.
  destruct (game.IsOver g) as [[]|]; simpl; [done| |done].
  case_decide; done.
Qed.

(** X30. A request for a new game that binds is answered with the status
    200; the game is held under the identifier reported, and the answer
    shows its board, its state, its valid moves and the player of the
    agent, which is X exactly if the agent plays first. If the agent does
    not play first the board is empty and all nine squares are valid moves
    for X; an opening move that the answer reports is a square that holds
    the mark of the agent. The other games stay as they are. *)
Theorem NewGame_opens_a_session (h : api.Handler.t)
    (menacePlaysFirst : bool) (id : string) (now1 : Z) (order : list Z)
    (draw now2 : Z) :
  ∃ h' body g',
    api.NewGame h (Some menacePlaysFirst) id now1 order draw now2
    = Some (h', api.NewGameOK body)
    ∧ game.GetGame (api.Handler.gameManager h') id = Some g'
    ∧ (∀ id', id' ≠ id →
              game.GetGame (api.Handler.gameManager h') id'
              = game.GetGame (api.Handler.gameManager h) id')
    ∧ api.NewGameResponse.GameID body = id
    ∧ api.NewGameResponse.Board body = board.state (game.Game.Board g')
    ∧ game.State g' = Some (api.NewGameResponse.Status body)
    ∧ game.GetValidMoves g' = Some (api.NewGameResponse.ValidMoves body)
    ∧ api.NewGameResponse.MenacePlayer body
      = (if menacePlaysFirst then "X" else "O")%string
    ∧ (menacePlaysFirst = false →
       api.NewGameResponse.Board body = board.EmptyBoard
       ∧ api.NewGameResponse.CurrentTurn body = "X"%string
       ∧ api.NewGameResponse.Status body = game.StateWaitingForOpponent
       ∧ api.NewGameResponse.ValidMoves body = [0; 1; 2; 3; 4; 5; 6; 7; 8]
       ∧ api.NewGameResponse.MenaceMove body = None)
    ∧ ∀ pos, api.NewGameResponse.MenaceMove body = Some pos →
             board.GetSquare (game.Game.Board g') pos = Some board.PlayerX.
Proof.
  unfold api.NewGame, game.CreateGame, api.openingMove.
  destruct menacePlaysFirst; simpl.
  - pose proof (NewGame_wellFormed (agent h) true id now1) as Hg0.
    destruct (MenaceMove_total (menace.StartNewGame (agent h))
                (game.NewGame (agent h) true id now1).2 order draw now2 Hg0)
      as (m' & g' & [pos err] & Hmove & Hg').
    unfold agent in Hmove. simpl in Hmove. rewrite Hmove. simpl.
    pose proof (MenaceMove_ID _ _ _ _ _ _ _ _ Hmove) as Hid. simpl in Hid.
    destruct (IsOver_total g' Hg') as [over Hover].
    assert (is_Some (api.getGameStatus g')) as [status Hstatus].
    { unfold api.getGameStatus. rewrite Hover. simpl.
      destruct over; [eauto|].
      destruct (IsMenaceTurn_total g' Hg') as [turn ->]. simpl. eauto. }
    rewrite Hstatus. simpl. unfold game.GetValidMoves. rewrite Hover. simpl.
    do 3 eexists. split; [done|]. unfold game.GetGame, api.storeGame. simpl.
    rewrite Hid. rewrite lookup_insert_eq. split; [done|].
    split; [intros id' Hne; by rewrite !lookup_insert_ne|].
    do 2 (split; [done|]). rewrite <- getGameStatus_State.
    split; [done|]. split; [by rewrite Hover|]. split.
    { assert (Hkeep : game.Game.MenacePlayer g' = board.PlayerX);
        [|by rewrite Hkeep].
      pose proof Hmove as [->|(p & newBoard & _ & Hrec)]%MenaceMove_inv;
        [done|].
      by destruct (recordMove_fields _ _ _ _ _ _ Hrec) as (_ & _ & ->). }
    split; [done|].
    intros pos'. destruct err as [e|]; simpl; [done|].
    case_bool_decide as Hpos; simpl; [|done]. intros [= <-].
    apply MenaceMove_reply in Hmove
      as [[_ ->]|(_ & newBoard & Hmade & Hrec)]; [lia|].
    destruct (recordMove_fields _ _ _ _ _ _ Hrec) as (-> & _ & _).
    simpl in Hmade. eapply MakeMove_square; [|done]. by left.
  - do 3 eexists. split; [reflexivity|].
    unfold game.GetGame, api.storeGame. simpl.
    rewrite lookup_insert_eq. split; [done|].
    split; [intros id' Hne; by rewrite !lookup_insert_ne|].
    do 2 (split; [done|]). split; [reflexivity|]. split; [reflexivity|].
    split; [done|]. split; [done|]. done.
Qed.
